(** * PICALO: the PIC identification engine, embedded in Rocq

    A shallow embedding of the parts of PICALO that decide how a run
    proceeds: the numeric helpers of [src/statistics.py], the command
    line of [src/cmd_line_arguments.py], the iterative optimiser of
    [src/inter_optimizer.py] and the driver of [src/main.py] (with the
    first stage of [fast_interaction_mapper.py]).

    Conventions.
    - A numpy [float64] is a primitive binary64 float of Rocq ([float]);
      arithmetic and comparisons are the IEEE-754 ones, so NaN, the
      infinities and the signed zeros behave as in numpy.
    - A Python [int] is a [Z]; where Python converts it to a float the
      model rounds to nearest-even ([float_of_Z]).
    - A numpy array that is mutated in place lives in a [heap] and is
      named by its location; arrays that only flow are [list float].
    - Code of the repository that is not part of the sources at hand
      (the ieQTL mapper, the force normaliser, the residualisation by
      statsmodels) and library functions without a source
      ([scipy.special.betainc]) are Section variables.  So are two
      numeric routines of the sources, the exact Hardy-Weinberg test
      and [remove_covariates]: a variable stands for the value that
      the routine returns, and what is proved of a run is proved of
      the runs in which these routines return.
    - The command line is described for the words that argparse
      takes as they are written; see [parse_result]. *)

From Stdlib Require Import ZArith List Bool Floats Lia Ascii String.
From Stdlib Require Import Sorted Permutation.
From Stdlib Require OrderedTypeEx.
From stdpp Require Import base option list strings gmap pretty.
Import ListNotations.

#[local] Set Warnings "-inexact-float".
#[local] Open Scope Z_scope.

(** ** numpy scalars and arrays *)

Module NumPy.

(** Python [int] to [float64]: correctly rounded, ties to even. *)
Definition float_of_Z (z : Z) : float :=
  SF2Prim (binary_normalize prec emax z 0 false).

(** [np.nan]. *)
Definition nan : float := PrimFloat.nan.

(** [np.isnan]. *)
Definition isnan (x : float) : bool := PrimFloat.is_nan x.

(** [a >= b] on float64 scalars. *)
Definition geb (a b : float) : bool := PrimFloat.leb b a.

(** [a > b] on float64 scalars. *)
Definition gtb (a b : float) : bool := PrimFloat.ltb b a.

(** Element-wise binary operation with numpy's broadcasting of
    one-dimensional operands: equal lengths are zipped, a length-one
    operand is stretched, anything else raises [ValueError]. *)
Definition broadcast2 (f : float -> float -> float) (xs ys : list float)
  : option (list float) :=
  if decide (length xs = length ys) then Some (zip_with f xs ys)
  else match xs, ys with
       | [x], _ => Some (map (f x) ys)
       | _, [y] => Some (map (fun x => f x y) xs)
       | _, _ => None
       end.

(** [np.sum] of a one-dimensional array, in the order of numpy's
    pairwise summation.  Fewer than 8 elements are added from the
    left.  Up to 128 elements are added into eight partial sums, the
    elements [j], [j + 8], [j + 16], ... going to the sum [j] as long
    as eight elements are left; the partial sums are added two by two
    and the elements that remain are added to the result one by one.
    More than 128 elements are split in two parts, the first one of a
    multiple of 8 elements, whose sums are added. *)
Fixpoint partial_sums (fuel : nat) (r a : list float)
  : list float * list float :=
  match fuel with
  | O => (r, a)
  | S fuel' =>
      if (8 <=? length a)%nat
      then partial_sums fuel' (zip_with PrimFloat.add r (take 8 a)) (drop 8 a)
      else (r, a)
  end.

Definition block_sum (a : list float) : float :=
  let '(r, rest) := partial_sums (length a) (take 8 a) (drop 8 a) in
  match r with
  | [r0; r1; r2; r3; r4; r5; r6; r7] =>
      fold_left PrimFloat.add rest
        ((r0 + r1 + (r2 + r3)) + (r4 + r5 + (r6 + r7)))%float
  | _ => fold_left PrimFloat.add a 0%float
  end.

Fixpoint pairwise_sum (fuel : nat) (a : list float) : float :=
  match fuel with
  | O => block_sum a
  | S fuel' =>
      let n := length a in
      if (n <=? 128)%nat then block_sum a
      else
        let n2 := (n / 2 - (n / 2) mod 8)%nat in
        (pairwise_sum fuel' (take n2 a) + pairwise_sum fuel' (drop n2 a))%float
  end.

Definition sum (xs : list float) : float :=
  match xs with
  | [] => 0%float
  | x :: r =>
      if (length xs <? 8)%nat then fold_left PrimFloat.add r x
      else pairwise_sum (length xs) xs
  end.

(** [np.mean]: the sum divided by the number of elements. *)
Definition mean (xs : list float) : float :=
  PrimFloat.div (sum xs) (float_of_Z (Z.of_nat (length xs))).

(** [np.rint]: the nearest integer, ties to even, by adding and
    subtracting 2^52 as the C library does; values of magnitude 2^52
    or more, the infinities and NaN are returned unchanged. *)
Definition two52 : float := 0x1p52%float.

Definition rint (x : float) : float :=
  if PrimFloat.ltb (PrimFloat.abs x) two52
  then if PrimFloat.ltb x 0
       then (x - two52 + two52)%float
       else (x + two52 - two52)%float
  else x.

(** The number of [True] cells of a boolean array. *)
Definition count_true (bs : list bool) : Z :=
  Z.of_nat (length (List.filter id bs)).

(** The transpose of a matrix given by its rows ([ncols] columns). *)
Definition transpose (ncols : nat) (m : list (list float))
  : list (list float) :=
  (fun j => omap (fun row => row !! j) m) <$> seq 0 ncols.

(** A heap of numpy arrays: the objects that callers and callees
    share by reference. *)
Definition loc := nat.
Abbreviation heap := (gmap loc (list float)).

End NumPy.

(** ** src/statistics.py *)

Module Statistics.
Import NumPy.

(** The value [2.2250738585072014e-308] of the source: the smallest
    positive normal double, 2^-1022. *)
Definition p_value_floor : float := 2.2250738585072014e-308%float.

Section CalcPValue.
(** [scipy.special.betainc a b x], the regularised incomplete beta
    function; its implementation is not part of the repository. *)
Variable betainc : float -> float -> float -> float.

(** The value handed back by [betainc] inside [calc_p_value], before
    the test against zero. *)
Definition betainc_value (rss1 rss2 : float) (df1 df2 n : Z) : float :=
  let dfn := df2 - df1 in
  let dfd := n - df2 in
  let f_value :=
    ((rss1 - rss2) / float_of_Z dfn / (rss2 / float_of_Z dfd))%float in
  betainc (float_of_Z dfd / 2)%float (float_of_Z dfn / 2)%float
    (1 - (float_of_Z dfn * f_value)
         / (float_of_Z dfn * f_value + float_of_Z dfd))%float.

(** [calc_p_value rss1 rss2 df1 df2 n]; the residual sums of squares
    are float64 scalars (they come from [np.sum]), the degrees of
    freedom and [n] are Python ints. *)
Definition calc_p_value (rss1 rss2 : float) (df1 df2 n : Z) : float :=
  if geb rss2 rss1 then 1%float
  else
    let dfn := df2 - df1 in
    let dfd := n - df2 in
    let f_value :=
      ((rss1 - rss2) / float_of_Z dfn / (rss2 / float_of_Z dfd))%float in
    let p_value :=
      betainc (float_of_Z dfd / 2)%float (float_of_Z dfn / 2)%float
        (1 - (float_of_Z dfn * f_value)
             / (float_of_Z dfn * f_value + float_of_Z dfd))%float in
    if PrimFloat.eqb p_value 0 then p_value_floor else p_value.
End CalcPValue.

(** [a[a == 0] = np.nan] on the elements of an array. *)
Definition zero_to_nan (x : float) : float :=
  if PrimFloat.eqb x 0 then nan else x.

(** One element of [-b / (2 * a)]. *)
Definition vertex (b a : float) : float := (- b / (2 * a))%float.

(** [calc_vertex_xpos a b]: the arguments are references into the heap.
    The first array is overwritten in place, then both arrays are read
    back (so an aliased [b] is read after the write) and the vertex is
    returned as a fresh array.  The heap that is returned is the one
    the caller sees after the call, also when the division raises
    (incompatible shapes), which is the result [None]. *)
Definition calc_vertex_xpos (a b : loc) (h : heap)
  : heap * option (list float) :=
  match h !! a with
  | None => (h, None)
  | Some arr_a =>
      let h' := <[a := map zero_to_nan arr_a]> h in
      (h',
       match h' !! a, h' !! b with
       | Some arr_a', Some arr_b' => broadcast2 vertex arr_b' arr_a'
       | _, _ => None
       end)
  end.

(** [calc_pearsonr_vector x y]. *)
Definition calc_pearsonr_vector (x y : list float) : float :=
  let mx := mean x in
  let my := mean y in
  let x_dev := map (fun v => (v - mx)%float) x in
  let y_dev := map (fun v => (v - my)%float) y in
  let dev_sum := sum (zip_with PrimFloat.mul x_dev y_dev) in
  let x_rss := sum (zip_with PrimFloat.mul x_dev x_dev) in
  let y_rss := sum (zip_with PrimFloat.mul y_dev y_dev) in
  (dev_sum / PrimFloat.sqrt (x_rss * y_rss))%float.

End Statistics.

(** ** src/cmd_line_arguments.py *)

Module CommandLineArguments.

(** A parsed or default value of the namespace. *)
Inductive value :=
| VNone
| VStr (s : string)
| VInt (z : Z)
| VFloat (f : float)
| VBool (b : bool).

(** The [type=] of an argument that stores one value. *)
Inductive arg_type := TStr | TInt | TFloat.

(** The [action=] of an argument ([store] is argparse's default). *)
Inductive action :=
| Store (ty : arg_type)
| StoreTrue
| Version
| Help.

(** One [parser.add_argument] call.  [dest] is the attribute name
    argparse derives from the option strings: the first long option
    without its two dashes, else the first option without its dash. *)
Record argument := Argument {
  option_strings : list string;
  dest : string;
  act : action;
  required : bool;
  default : value
}.

(** [create_argument_parser]: the arguments in the order they are
    added, after the [-h/--help] that [ArgumentParser] adds itself. *)
Definition create_argument_parser : list argument :=
  [ Argument ["-h"; "--help"] "help" Help false VNone;
    Argument ["-v"; "--version"] "version" Version false VNone;
    Argument ["-eq"; "--eqtl"] "eqtl" (Store TStr) true VNone;
    Argument ["-ge"; "--genotype"] "genotype" (Store TStr) true VNone;
    Argument ["-na"; "--genotype_na"] "genotype_na" (Store TInt) false
      (VInt (-1));
    Argument ["-ex"; "--expression"] "expression" (Store TStr) true VNone;
    Argument ["-tc"; "--tech_covariate"] "tech_covariate" (Store TStr)
      false VNone;
    Argument ["-tci"; "--tech_covariate_with_inter"]
      "tech_covariate_with_inter" (Store TStr) false VNone;
    Argument ["-co"; "--covariate"] "covariate" (Store TStr) true VNone;
    Argument ["-std"; "--sample_to_dataset"] "sample_to_dataset"
      (Store TStr) false VNone;
    Argument ["-mds"; "--min_dataset_size"] "min_dataset_size" (Store TInt)
      false (VInt 30);
    Argument ["-cr"; "--call_rate"] "call_rate" (Store TFloat) false
      (VFloat 0.95);
    Argument ["-hw"; "--hardy_weinberg_pvalue"] "hardy_weinberg_pvalue"
      (Store TFloat) false (VFloat 1e-4);
    Argument ["-maf"; "--minor_allele_frequency"] "minor_allele_frequency"
      (Store TFloat) false (VFloat 0.01);
    Argument ["-mgs"; "--min_group_size"] "min_group_size" (Store TInt)
      false (VInt 2);
    Argument ["-iea"; "--ieqtl_alpha"] "ieqtl_alpha" (Store TFloat) false
      (VFloat 0.05);
    Argument ["-n_components"] "n_components" (Store TInt) false (VInt 10);
    Argument ["-min_iter"] "min_iter" (Store TInt) false (VInt 5);
    Argument ["-max_iter"] "max_iter" (Store TInt) false (VInt 100);
    Argument ["-tol"] "tol" (Store TFloat) false (VFloat 1e-3);
    Argument ["-force_continue"] "force_continue" StoreTrue false
      (VBool false);
    Argument ["-o"; "--outdir"] "outdir" (Store TStr) false (VStr "output");
    Argument ["-verbose"] "verbose" StoreTrue false (VBool false) ].

(** What [parse_args] does with the process: a namespace, or an exit
    of the interpreter with a status (0 after [-h] and [-v], 2 after a
    usage error).  [Unsupported] is the answer for the command lines
    that this model of argparse does not describe: those with a word
    that has a leading dash and is neither an option string written in
    full nor a negative number.  argparse resolves such words by rules
    of its own (an unambiguous prefix of an option string selects the
    option, [--option=value] carries the value, [--] ends the options,
    one-letter options can be joined), which are not modelled. *)
Inductive parse_result :=
| Parsed (ns : gmap string value)
| ParserExit (status : Z)
| Unsupported.

Section ParseArgs.
(** Python's [int(s)] and [float(s)] on a command-line word; [None]
    is a [ValueError]. *)
Variable py_int : string -> option Z.
Variable py_float : string -> option float.

Definition convert (ty : arg_type) (s : string) : option value :=
  match ty with
  | TStr => Some (VStr s)
  | TInt => VInt <$> py_int s
  | TFloat => VFloat <$> py_float s
  end.

(** The argument that declares an option string, if any. *)
Definition find_option (parser : list argument) (tok : string)
  : option argument :=
  List.find (fun a => bool_decide (tok ∈ option_strings a)) parser.

(** A word that may be consumed as the value of an option: one that
    does not look like an option.  Words with a leading dash are
    values only when they are the lone dash or a negative number. *)
Fixpoint all_digits (s : string) : bool :=
  match s with
  | EmptyString => true
  | String c r =>
      (Nat.leb 48 (Ascii.nat_of_ascii c)
       && Nat.leb (Ascii.nat_of_ascii c) 57 && all_digits r)%bool
  end.

Fixpoint digits_dot_digits (s : string) : bool :=
  match s with
  | EmptyString => false
  | String c r =>
      if Ascii.eqb c "."%char
      then (negb (String.eqb r "") && all_digits r)%bool
      else (Nat.leb 48 (Ascii.nat_of_ascii c)
            && Nat.leb (Ascii.nat_of_ascii c) 57
            && digits_dot_digits r)%bool
  end.

Definition is_value_word (s : string) : bool :=
  match s with
  | String "-"%char EmptyString => true
  | String "-"%char r =>
      ((negb (String.eqb r "") && all_digits r) || digits_dot_digits r)%bool
  | _ => true
  end.

(** The command lines that the model describes: every word is an
    option string written in full or a word that argparse takes for a
    value. *)
Definition supported (parser : list argument) (argv : list string) : bool :=
  forallb (fun word =>
             match find_option parser word with
             | Some _ => true
             | None => is_value_word word
             end) argv.

(** The scan over the command-line words: [ns] is the namespace under
    construction (initialised with the defaults), [seen] the
    destinations given so far and [extras] tells whether a word was
    left over.  An option that stores a value takes the next word,
    which must not be an option string; a word that no option takes
    is left over, and the scan goes on. *)
Fixpoint consume (parser : list argument) (argv : list string)
  (ns : gmap string value) (seen : list string) (extras : bool)
  : parse_result + (gmap string value * list string * bool) :=
  match argv with
  | [] => inr (ns, seen, extras)
  | tok :: rest =>
      match find_option parser tok with
      | None => consume parser rest ns seen true
      | Some a =>
          match act a with
          | Help | Version => inl (ParserExit 0)
          | StoreTrue =>
              consume parser rest (<[dest a := VBool true]> ns)
                (dest a :: seen) extras
          | Store ty =>
              match rest with
              | [] => inl (ParserExit 2)
              | word :: rest' =>
                  if is_value_word word then
                    match convert ty word with
                    | Some v =>
                        consume parser rest' (<[dest a := v]> ns)
                          (dest a :: seen) extras
                    | None => inl (ParserExit 2)
                    end
                  else inl (ParserExit 2)
              end
          end
      end
  end.

(** The defaults of the arguments that get an attribute. *)
Definition defaults (parser : list argument) : gmap string value :=
  foldr (fun a ns =>
           match act a with
           | Help | Version => ns
           | _ => <[dest a := default a]> ns
           end) ∅ parser.

(** The required arguments that were not given. *)
Definition missing_required (parser : list argument) (seen : list string)
  : list string :=
  dest <$> List.filter
    (fun a => (required a && negb (bool_decide (dest a ∈ seen)))%bool)
    parser.

(** [parser.parse_args()] on the words after the program name: after
    the scan, a required argument that was not given and a word that
    was left over are usage errors. *)
Definition parse_args (parser : list argument) (argv : list string)
  : parse_result :=
  if supported parser argv then
    match consume parser argv (defaults parser) [] false with
    | inl r => r
    | inr (ns, seen, extras) =>
        match missing_required parser seen with
        | [] => if extras then ParserExit 2 else Parsed ns
        | _ :: _ => ParserExit 2
        end
    end
  else Unsupported.
End ParseArgs.

(** [get_argument arg_key]: the attribute, or [None] when the namespace
    has no such attribute. *)
Definition get_argument (ns : gmap string value) (arg_key : string)
  : value :=
  match ns !! arg_key with
  | Some v => v
  | None => VNone
  end.

End CommandLineArguments.

(** ** src/inter_optimizer.py *)

Module InteractionOptimizer.
Import NumPy Statistics.

(** What the optimiser uses of an [IeQTL] object
    ([src/objects/ieqtl.py]): its identifier, the two coefficient
    arrays of its log-likelihood in the context coordinate
    ([full_array=True]) and its log-likelihood under a context vector. *)
Record IeQTL := {
  get_ieqtl_id : string;
  get_mll_coef_representation : list float * list float;
  calc_log_likelihood : list float -> float
}.

(** What one mapping of the ieQTLs returns: the number of significant
    ieQTLs, their number per sample, the ieQTL objects and the table
    of results (the optimiser writes that table to
    [results_iteration###.txt.gz] and never reads it back). *)
Record mapping := {
  map_n_hits : Z;
  map_n_hits_per_sample_a : list Z;
  map_ieqtls : list IeQTL;
  map_results_df : list (list float)
}.

(** [np.min] of a one-dimensional array; the empty array raises. *)
Definition np_min (xs : list Z) : option Z :=
  match xs with
  | [] => None
  | x :: r => Some (fold_left Z.min r x)
  end.

(** [np.sum(rows, axis=0)] for the rows of equal length of a non-empty
    list: the rows are added element-wise in their order.  The empty
    list gives a scalar and ragged rows raise; both are [None] here,
    since [calc_vertex_xpos] cannot assign into a scalar. *)
Fixpoint sum_axis0_from (acc : list float) (rows : list (list float))
  : option (list float) :=
  match rows with
  | [] => Some acc
  | r :: rest =>
      if decide (length r = length acc)
      then sum_axis0_from (zip_with PrimFloat.add acc r) rest
      else None
  end.

Definition sum_axis0 (rows : list (list float)) : option (list float) :=
  match rows with
  | [] => None
  | r :: rest => sum_axis0_from r rest
  end.

(** [optimize_ieqtls]: the two sums are fresh arrays, handed to
    [calc_vertex_xpos] by reference. *)
Definition optimize_ieqtls (ieqtls : list IeQTL) : option (list float) :=
  let coef_a_collection := (fun q => fst (get_mll_coef_representation q)) <$> ieqtls in
  let coef_b_collection := (fun q => snd (get_mll_coef_representation q)) <$> ieqtls in
  coef_a_sum ← sum_axis0 coef_a_collection;
  coef_b_sum ← sum_axis0 coef_b_collection;
  let h : heap := <[1%nat := coef_b_sum]> (<[0%nat := coef_a_sum]> ∅) in
  snd (calc_vertex_xpos 0%nat 1%nat h).

(** [calculate_log_likelihood]. *)
Definition calculate_log_likelihood (ieqtls : list IeQTL)
  (vector : list float) : list float :=
  (fun q => calc_log_likelihood q vector) <$> ieqtls.

(** The variables of [process] that live across iterations. *)
Record state := State {
  context_a : option (list float);
  n_hits : Z;
  stop : bool;
  cov : option string;
  prev_included_ieqtls : Z * gset string;
  n_iterations_performed : nat;
  info_m : list (list float);
  n_hits_per_sample_m : list (list float);
  iterations_m : list (list float)
}.

(** The variables that each iteration resets before it maps ieQTLs. *)
Record found := Found {
  f_cov : option string;
  f_context_a : option (list float);
  f_n_hits : Z;
  f_min_n_hits_per_sample : Z;
  f_n_hits_per_sample_a : list Z;
  f_ieqtls : list IeQTL
}.

(** How an iteration leaves the [for] loop. *)
Inductive control := Continue | Break.

(** What [process] returns, with the tables it saves. *)
Record result := Result {
  ret_context_a : option (list float);
  ret_n_hits : Z;
  ret_stop : bool;
  ret_cov : option string;
  iteration_df : list (list float);
  n_hits_per_sample_df : option (list (list float));
  info_df : option (list (list float))
}.

Section Process.
(** The attributes of the optimiser. *)
Variable ieqtl_alpha : float.
Variable min_iter : Z.
Variable max_iter : Z.
Variable tol : float.

(** The mapping of one context vector: the call of
    [remove_covariates_elementwise], the two calls of the force
    normaliser and the call of [get_ieqtls] with the given label and
    alpha, on the genotype and expression matrices of this call of
    [process]. *)
Variable find_ieqtls : list float -> option string -> float -> mapping.

(** The candidate covariates: the labels [self.covariates] with the
    rows of [covs_m]. *)
Variable covs : list (string * list float).

(** The number of samples, [geno_m.shape[1]]. *)
Variable n_samples : nat.

(** The content of a cell of [np.empty] before it is written. *)
Variable uninitialised : float.

Definition np_empty (rows cols : nat) : list (list float) :=
  replicate rows (replicate cols uninitialised).

(** One round of the loop over the candidates (iteration 0, more
    than one candidate). *)
Definition try_covariate (acc : option found)
  (cand : string * list float) : option found :=
  fd ← acc;
  let '(name, cova_a) := cand in
  let m := find_ieqtls cova_a (Some name) ieqtl_alpha in
  let cov_hits := map_n_hits m in
  cov_min_hits_per_sample ← np_min (map_n_hits_per_sample_a m);
  if ((2 <=? cov_min_hits_per_sample)
      && ((f_n_hits fd <? cov_hits)
          || ((cov_hits =? f_n_hits fd)
              && (f_min_n_hits_per_sample fd <? cov_min_hits_per_sample))))%bool
  then Some (Found (Some name) (Some cova_a) cov_hits
               cov_min_hits_per_sample (map_n_hits_per_sample_a m)
               (map_ieqtls m))
  else Some fd.

(** The search for the ieQTLs of an iteration: the selection among
    the candidates when there is no context yet, else the mapping of
    the current context. *)
Definition find_significant (fd : found) : option found :=
  match f_context_a fd with
  | None => foldl try_covariate (Some fd) covs
  | Some c =>
      let m := find_ieqtls c (f_cov fd) ieqtl_alpha in
      min_n_hits_per_sample ← np_min (map_n_hits_per_sample_a m);
      Some (Found (f_cov fd) (Some c) (map_n_hits m)
              min_n_hits_per_sample (map_n_hits_per_sample_a m)
              (map_ieqtls m))
  end.

(** The state in which an iteration that finds too few ieQTLs leaves
    the loop. *)
Definition abort (iteration : nat) (st : state) (fd : found) : state :=
  if (iteration =? 0)%nat
  then State None (f_n_hits fd) false (f_cov fd)
         (prev_included_ieqtls st) (n_iterations_performed st)
         (info_m st) (n_hits_per_sample_m st) (iterations_m st)
  else State (f_context_a fd) (f_n_hits fd) (stop st) (f_cov fd)
         (prev_included_ieqtls st) (n_iterations_performed st)
         (info_m st) (n_hits_per_sample_m st) (iterations_m st).

(** The body of [for iteration in range(self.max_iter)]. *)
Definition iteration_body (iteration : nat) (st : state)
  : option (control * state) :=
  let fd0 :=
    if ((iteration =? 0)%nat && (length covs =? 1)%nat)%bool
    then match covs with
         | (name, row) :: _ =>
             Found (Some name) (Some row) (n_hits st) 0
               (replicate n_samples 0) []
         | [] => Found (cov st) (context_a st) (n_hits st) 0
                   (replicate n_samples 0) []
         end
    else Found (cov st) (context_a st) (n_hits st) 0
           (replicate n_samples 0) [] in
  fd ← find_significant fd0;
  match f_context_a fd0, f_cov fd with
  | None, None =>
      (* No valid covariate found. *)
      Some (Break,
            State None (f_n_hits fd) false None
              (prev_included_ieqtls st) (n_iterations_performed st)
              (info_m st) (n_hits_per_sample_m st) (iterations_m st))
  | _, _ =>
      if f_n_hits fd <=? 1 then Some (Break, abort iteration st fd)
      else if f_min_n_hits_per_sample fd <=? 1
      then Some (Break, abort iteration st fd)
      else
        c ← f_context_a fd;
        optimized_context_a ← optimize_ieqtls (f_ieqtls fd);
        let iterations_m0 :=
          if (iteration =? 0)%nat
          then <[0%nat := c]> (iterations_m st)
          else iterations_m st in
        let iterations_m1 :=
          <[S iteration := optimized_context_a]> iterations_m0 in
        let n_hits_per_sample_m1 :=
          <[iteration := float_of_Z <$> f_n_hits_per_sample_a fd]>
            (n_hits_per_sample_m st) in
        let pre_optimization_ll_a :=
          calculate_log_likelihood (f_ieqtls fd) c in
        let post_optimization_ll_a :=
          calculate_log_likelihood (f_ieqtls fd) optimized_context_a in
        let sum_abs_norm_delta_ll :=
          sum (zip_with
                 (fun post pre =>
                    (PrimFloat.abs (post - pre) / PrimFloat.abs pre)%float)
                 post_optimization_ll_a pre_optimization_ll_a) in
        let pearsonr := calc_pearsonr_vector c optimized_context_a in
        let included_ieqtl_ids : gset string :=
          list_to_set (get_ieqtl_id <$> f_ieqtls fd) in
        overlap ←
          (if decide (snd (prev_included_ieqtls st) = ∅)
           then Some (nan, nan)
           else
             let n_overlap :=
               Z.of_nat (size (snd (prev_included_ieqtls st)
                                 ∩ included_ieqtl_ids)) in
             if fst (prev_included_ieqtls st) =? 0 then None
             else Some (float_of_Z n_overlap,
                        (float_of_Z 100
                         / float_of_Z (fst (prev_included_ieqtls st))
                         * float_of_Z n_overlap)%float));
        let info_m1 :=
          <[iteration := [float_of_Z (f_n_hits fd);
                          float_of_Z (f_min_n_hits_per_sample fd);
                          fst overlap; snd overlap;
                          sum_abs_norm_delta_ll; pearsonr]]> (info_m st) in
        let oscillation_checked :=
          ((3 <=? iteration)%nat && (min_iter <=? Z.of_nat iteration))%bool in
        previous ← (if oscillation_checked
                    then iterations_m1 !! (iteration - 1)%nat
                    else Some []);
        before_previous ← (if oscillation_checked
                           then iterations_m1 !! (iteration - 2)%nat
                           else Some []);
        current ← iterations_m1 !! S iteration;
        this ← iterations_m1 !! iteration;
        let pearsonr1 := calc_pearsonr_vector previous current in
        let pearsonr2 := calc_pearsonr_vector before_previous this in
        let current_iter_passed_tol := PrimFloat.ltb (1 - pearsonr1) tol in
        let previous_iter_passed_tol := PrimFloat.ltb (1 - pearsonr2) tol in
        if (oscillation_checked
            && (current_iter_passed_tol || previous_iter_passed_tol))%bool
        then
          if ((negb current_iter_passed_tol && previous_iter_passed_tol)
              || (current_iter_passed_tol && previous_iter_passed_tol
                  && (f_n_hits fd <? fst (prev_included_ieqtls st))))%bool
          then
            (* Rolling back to previous iteration. *)
            Some (Break,
                  State (Some this) (fst (prev_included_ieqtls st)) false
                    (f_cov fd) (prev_included_ieqtls st)
                    (n_iterations_performed st)
                    info_m1 n_hits_per_sample_m1 iterations_m1)
          else
            Some (Break,
                  State (Some c) (f_n_hits fd) false
                    (f_cov fd) (prev_included_ieqtls st)
                    (S (n_iterations_performed st))
                    info_m1 n_hits_per_sample_m1 iterations_m1)
        else
          (* Overwrite the variables for the next round. *)
          let n_iterations_performed1 := S (n_iterations_performed st) in
          if ((min_iter <=? Z.of_nat n_iterations_performed1)
              && PrimFloat.ltb (1 - pearsonr) tol)%bool
          then
            Some (Break,
                  State (Some optimized_context_a) (f_n_hits fd) false
                    (f_cov fd) (f_n_hits fd, included_ieqtl_ids)
                    n_iterations_performed1
                    info_m1 n_hits_per_sample_m1 iterations_m1)
          else
            Some (Continue,
                  State (Some optimized_context_a) (f_n_hits fd) (stop st)
                    (f_cov fd) (f_n_hits fd, included_ieqtl_ids)
                    n_iterations_performed1
                    info_m1 n_hits_per_sample_m1 iterations_m1)
  end.

(** The [for] loop over the iterations that remain. *)
Fixpoint iterate (iterations : list nat) (st : state) : option state :=
  match iterations with
  | [] => Some st
  | iteration :: rest =>
      match iteration_body iteration st with
      | None => None
      | Some (Break, st') => Some st'
      | Some (Continue, st') => iterate rest st'
      end
  end.

(** The state before the first iteration. *)
Definition initial_state : state :=
  State None 0 true None (0, ∅) 0
    (np_empty (Z.to_nat max_iter) 6)
    (np_empty (Z.to_nat max_iter) n_samples)
    (np_empty (Z.to_nat max_iter + 1) n_samples).

(** [process]: [None] is an exception that leaves the function. *)
Definition process : option result :=
  if max_iter <? 0 then None
  else
    st ← iterate (seq 0 (Z.to_nat max_iter)) initial_state;
    let n := n_iterations_performed st in
    Some (Result (context_a st) (n_hits st) (stop st) (cov st)
            (take (S n) (iterations_m st))
            (if (0 <? n)%nat then Some (take n (n_hits_per_sample_m st))
             else None)
            (if (0 <? n)%nat then Some (take n (info_m st)) else None)).
End Process.

End InteractionOptimizer.
(** ** src/main.py *)

Module Main.
Import NumPy Statistics.

(** *** Data frames and files *)

(** A numeric [pandas.DataFrame]: row labels, column labels and the
    rows of values. *)
Record DataFrame := {
  index : list string;
  columns : list string;
  values : list (list float)
}.

(** A row of the eQTL table. *)
Record eqtl := {
  SNPName : string;
  ProbeName : string;
  FDR : float
}.

(** What a file of the output directory holds. *)
Inductive file :=
| Npy (a : list float)
| Table (df : DataFrame).

(** The output directory: relative path to content. *)
Abbreviation files := (gmap string file).

(** How the process ends: by [exit()], by reaching the end of [start],
    or by an exception that nothing catches. *)
Inductive outcome :=
| Exited (status : Z) (fs : files)
| Finished (fs : files)
| Uncaught (fs : files).


Definition files_of (o : outcome) : files :=
  match o with
  | Exited _ fs | Finished fs | Uncaught fs => fs
  end.

(** A computation of the driver: it threads the output directory and
    either goes on with a value or ends the process. *)
Inductive step (A : Type) :=
| Next (a : A) (fs : files)
| Stop (o : outcome).
Arguments Next {A} a fs.
Arguments Stop {A} o.

Definition M (A : Type) : Type := files -> step A.

Definition ret {A} (a : A) : M A := fun fs => Next a fs.

Definition bind {A B} (m : M A) (k : A -> M B) : M B :=
  fun fs =>
    match m fs with
    | Next a fs' => k a fs'
    | Stop o => Stop o
    end.

(** Python's [exit(code=None)]: [SystemExit] with no code ends the
    interpreter with status 0, an integer code with that status. *)
Definition exit {A} (code : option Z) : M A :=
  fun fs => Stop (Exited (default 0 code) fs).

(** An exception that [start] does not catch. *)
Definition raise {A} : M A := fun fs => Stop (Uncaught fs).

(** An optional value whose absence is an exception. *)
Definition try {A} (o : option A) : M A :=
  match o with
  | Some a => ret a
  | None => raise
  end.

(** [save_dataframe] and [np.save]. *)
Definition save (path : string) (f : file) : M unit :=
  fun fs => Next tt (<[path := f]> fs).

(** [os.path.exists] and the content found. *)
Definition read (path : string) : M (option file) :=
  fun fs => Next (fs !! path) fs.

Declare Scope driver_scope.
Delimit Scope driver_scope with driver.
Notation "'let*' x ':=' m 'in' k" := (bind m (fun x => k))
  (at level 10, x pattern, k at level 200) : driver_scope.
Notation "m ';;;' k" := (bind m (fun _ => k))
  (at level 100, right associativity) : driver_scope.
#[local] Open Scope driver_scope.

(** [pd.read_csv] with [skiprows] and [nrows] as [load_dataframe]
    passes them: line 0 is the header, data row [i] is line [i + 1];
    the listed lines are skipped and at most [nrows] of the remaining
    rows are read. *)
Definition read_rows {A} (rows : list A) (skiprows : option (list nat))
  (nrows : option nat) : list A :=
  let kept :=
    match skiprows with
    | None => rows
    | Some skip =>
        snd <$> List.filter (fun ir => negb (bool_decide (S (fst ir) ∈ skip)))
                  (imap pair rows)
    end in
  match nrows with
  | None => kept
  | Some n => take n kept
  end.

Definition load_dataframe (f : DataFrame) (skiprows : option (list nat))
  (nrows : option nat) : DataFrame :=
  {| index := read_rows (index f) skiprows nrows;
     columns := columns f;
     values := read_rows (values f) skiprows nrows |}.

(** [df.T]. *)
Definition T (df : DataFrame) : DataFrame :=
  {| index := columns df;
     columns := index df;
     values := transpose (length (columns df)) (values df) |}.

(** [df.isna().values.sum() > 0]. *)
Definition has_nan (df : DataFrame) : bool :=
  existsb (existsb isnan) (values df).

(** [df.loc[mask, :]] on the rows of a list. *)
Definition select {A} (mask : list bool) (rows : list A) : list A :=
  snd <$> List.filter fst (zip mask rows).

(** *** The inputs and the settings *)

(** The files behind the [Data] object, as the tables they hold. *)
Record Data := {
  eqtl_df : list eqtl;
  geno_df : DataFrame;
  expr_df : DataFrame;
  tcov_df : option DataFrame;
  tcov_inter_df : option DataFrame;
  covs_df : DataFrame;
  std_df : option (list (string * string))
}.

(** The arguments that [Main.__init__] keeps. *)
Record settings := {
  genotype_na : Z;
  min_dataset_sample_size : Z;
  call_rate : float;
  hw_pval : float;
  maf : float;
  mgs : Z;
  ieqtl_alpha : float;
  n_components : Z;
  min_iter : Z;
  max_iter : Z;
  tol : float;
  force_continue : bool
}.

(** *** validate_data *)

(** [validate_data]: every comparison that fails ends the process by
    [exit()]. *)
Definition validate_data (std : list (string * string))
  (eqtls : option (list eqtl)) (geno expr covs tcovs : option DataFrame)
  : M unit :=
  let samples := fst <$> std in
  let differs (labels : option (list string)) (reference : list string) :=
    match labels with
    | Some l => negb (bool_decide (l = reference))
    | None => false
    end in
  if differs (columns <$> geno) samples then exit None
  else if differs (columns <$> expr) samples then exit None
  else if differs (columns <$> covs) samples then exit None
  else if differs (index <$> tcovs) samples then exit None
  else
    match eqtls with
    | None => ret tt
    | Some e =>
        let snp_reference := SNPName <$> e in
        let probe_reference := ProbeName <$> e in
        if differs (index <$> geno) snp_reference then exit None
        else if differs (index <$> expr) probe_reference then exit None
        else ret tt
    end.

(** *** Datasets *)

(** [np.unique(labels, return_counts=True)]: the distinct labels in
    ascending order, each with its number of occurrences. *)
Fixpoint count_in (x : string) (acc : list (string * Z))
  : list (string * Z) :=
  match acc with
  | [] => [(x, 1)]
  | (y, n) :: r =>
      if String.eqb x y then (y, n + 1) :: r
      else if String.ltb x y then (x, 1) :: (y, n) :: r
      else (y, n) :: count_in x r
  end.

Definition unique_counts (labels : list string) : list (string * Z) :=
  foldl (fun acc x => count_in x acc) [] labels.

(** [list.sort(key=lambda x: -x[1])]: stable, largest count first. *)
Fixpoint insert_by_count (x : string * Z) (sorted : list (string * Z))
  : list (string * Z) :=
  match sorted with
  | [] => [x]
  | y :: r =>
      if snd y <? snd x then x :: y :: r
      else y :: insert_by_count x r
  end.

Definition sort_by_count (l : list (string * Z)) : list (string * Z) :=
  foldl (fun acc x => insert_by_count x acc) [] l.

(** The datasets with their sample counts, largest first. *)
Definition dataset_sample_counts (std : list (string * string))
  : list (string * Z) :=
  sort_by_count (unique_counts (snd <$> std)).

(** [construct_dataset_df]: for every dataset, in that order, the mask
    of its samples (a column of the data frame). *)
Definition construct_dataset_df (std : list (string * string))
  : list (string * list bool) :=
  (fun d => (fst d, (fun sd => String.eqb (snd sd) (fst d)) <$> std))
    <$> dataset_sample_counts std.

(** *** Call rate *)

Section Start.
Variable cfg : settings.

Definition na : float := float_of_Z (genotype_na cfg).

Definition is_na (x : float) : bool := PrimFloat.eqb x na.

(** The call rate of one row in one dataset. *)
Definition call_rate_s (sample_mask : list bool) (row : list float)
  : float :=
  (float_of_Z (count_true (negb ∘ is_na <$> select sample_mask row))
   / float_of_Z (count_true sample_mask))%float.

(** [geno_df.loc[row_mask, sample_mask] = self.genotype_na] on one
    row whose call rate is too low. *)
Definition mask_dataset (sample_mask : list bool) (row : list float)
  : list float :=
  if PrimFloat.ltb (call_rate_s sample_mask row) (call_rate cfg)
  then zip_with (fun (m : bool) x => if m then na else x) sample_mask row
  else row.

(** [calculate_call_rate]: dataset after dataset, the call rates are
    taken on the genotypes as the previous datasets left them. *)
Definition calculate_call_rate (geno : list (list float))
  (dataset_df : list (string * list bool))
  : list (list float) * list (list float) :=
  foldl (fun '(g, cr) d =>
           (mask_dataset (snd d) <$> g,
            zip_with (fun crs row => crs ++ [call_rate_s (snd d) row]) cr g))
    (geno, (fun _ => []) <$> geno) dataset_df.

(** *** Genotype statistics *)

(** A row of [geno_stats_df]. *)
Record geno_stats := {
  stat_N : float;
  stat_NaN : float;
  stat_0 : float;
  stat_1 : float;
  stat_2 : float;
  stat_min_GS : float;
  stat_HW_pval : float;
  stat_allele1 : float;
  stat_allele2 : float;
  stat_MA : float;
  stat_MAF : float
}.

(** [calc_hwe_pvalue obs_hets obs_hom1 obs_hom2]: the p-value that the
    exact test of Wigginton, Cutler and Abecasis returns for a row with
    these counts.  The routine of the source works on all rows at
    once; the variable stands for the value of one row in a call that
    returns. *)
Variable calc_hwe_pvalue : Z -> Z -> Z -> float.

(** [calculate_genotype_stats] on one row. *)
Definition calculate_genotype_stats (row : list float) : geno_stats :=
  let rounded := rint <$> row in
  let count (v : float) :=
    count_true ((fun x => PrimFloat.eqb x v) <$> rounded) in
  let nan := count na in
  let n := Z.of_nat (length rounded) - nan in
  let zero_a := count 0%float in
  let one_a := count 1%float in
  let two_a := count 2%float in
  let sgz := Z.min (Z.min zero_a one_a) two_a in
  let hwe_pvalue := calc_hwe_pvalue one_a zero_a two_a in
  let allele1_a := zero_a * 2 + one_a in
  let allele2_a := two_a * 2 + one_a in
  let maf :=
    (float_of_Z (Z.min allele1_a allele2_a)
     / float_of_Z (allele1_a + allele2_a))%float in
  let ma := (if allele2_a <? allele1_a then 1 else 0) * 2 in
  {| stat_N := float_of_Z n; stat_NaN := float_of_Z nan;
     stat_0 := float_of_Z zero_a; stat_1 := float_of_Z one_a;
     stat_2 := float_of_Z two_a; stat_min_GS := float_of_Z sgz;
     stat_HW_pval := hwe_pvalue;
     stat_allele1 := float_of_Z allele1_a;
     stat_allele2 := float_of_Z allele2_a;
     stat_MA := float_of_Z ma; stat_MAF := maf |}.

(** A row of [cr_keep_mask]: not every genotype is missing. *)
Definition cr_keep (row : list float) : bool :=
  negb (forallb is_na row).

(** The row of [geno_stats_df] for a genotype row: computed when the
    row passes [cr_keep_mask], else [N = 0], [NaN] the number of
    columns and NaN everywhere else. *)
Definition geno_stats_row (row : list float) : geno_stats :=
  if cr_keep row then calculate_genotype_stats row
  else {| stat_N := 0; stat_NaN := float_of_Z (Z.of_nat (length row));
          stat_0 := nan; stat_1 := nan; stat_2 := nan;
          stat_min_GS := nan; stat_HW_pval := nan;
          stat_allele1 := nan; stat_allele2 := nan;
          stat_MA := nan; stat_MAF := nan |}.

(** A row of [combined_keep_mask]. *)
Definition combined_keep (row : list float) : bool :=
  let stats := geno_stats_row row in
  let n_keep := geb (stat_N stats) 6 in
  let mgs_keep := geb (stat_min_GS stats) (float_of_Z (mgs cfg)) in
  let hwpval_keep := geb (stat_HW_pval stats) (hw_pval cfg) in
  let maf_keep := gtb (stat_MAF stats) (maf cfg) in
  (cr_keep row && n_keep && mgs_keep && hwpval_keep && maf_keep)%bool.

(** The table saved as [genotype_stats.txt.gz]. *)
Definition geno_stats_df (labels : list string) (geno : list (list float))
  : DataFrame :=
  {| index := labels;
     columns := ["N"; "NaN"; "0"; "1"; "2"; "min GS"; "HW pval";
                 "allele1"; "allele2"; "MA"; "MAF"; "mask"];
     values :=
       (fun row =>
          let s := geno_stats_row row in
          [stat_N s; stat_NaN s; stat_0 s; stat_1 s; stat_2 s;
           stat_min_GS s; stat_HW_pval s; stat_allele1 s;
           stat_allele2 s; stat_MA s; stat_MAF s;
           if combined_keep row then 1%float else 0%float]) <$> geno |}.

(** The quality control of [start]: the call rates, the statistics
    on the masked genotypes and the rows that remain of the eQTL
    table and of the genotype table.  With no row left for the
    statistics the vectorised Hardy-Weinberg test raises, and so does
    the selection of the eQTLs with a mask of another length than the
    eQTL table. *)
Definition quality_control {A} (eqtls : list A) (geno : DataFrame)
  (dataset_df : list (string * list bool))
  : M (list A * DataFrame * list bool) :=
  let '(geno_m, call_rate_m) := calculate_call_rate (values geno) dataset_df in
  save "call_rate.txt.gz"
    (Table {| index := index geno;
              columns := (fun d => fst d +:+ " CR") <$> dataset_df;
              values := call_rate_m |}) ;;;
  if forallb (fun row => negb (cr_keep row)) geno_m then raise
  else if negb (bool_decide (length eqtls = length geno_m)) then raise
  else
    let combined_keep_mask := combined_keep <$> geno_m in
    save "genotype_stats.txt.gz" (Table (geno_stats_df (index geno) geno_m)) ;;;
    ret (select combined_keep_mask eqtls,
         {| index := select combined_keep_mask (index geno);
            columns := columns geno;
            values := select combined_keep_mask geno_m |},
         combined_keep_mask).

(** *** Technical covariates and correction matrices *)

(** [df.std(axis=0)] of pandas on one column. *)
Variable pandas_std : list float -> float.

(** [load_tech_cov]: the matrix with the samples on the rows, without
    its columns of zero standard deviation. *)
Definition load_tech_cov (df : option DataFrame)
  (std : list (string * string)) : M (option (list (list float))) :=
  match df with
  | None => ret None
  | Some df =>
      let n_samples := length std in
      if has_nan df then exit None
      else
        let df := if decide (length (columns df) = n_samples)
                  then T df else df in
        validate_data std None None None None (Some df) ;;;
        let variance_mask :=
          (fun col => negb (PrimFloat.eqb (pandas_std col) 0))
            <$> transpose (length (columns df)) (values df) in
        ret (Some (select variance_mask <$> values df))
  end.

(** [np.hstack] of two matrices with the same rows. *)
Definition hstack (a b : list (list float)) : list (list float) :=
  zip_with app a b.

Definition hstack_opt (a : option (list (list float)))
  (b : list (list float)) : option (list (list float)) :=
  match a with
  | Some a => Some (hstack a b)
  | None => Some b
  end.

(** [construct_correct_matrices]: the correction matrix and the
    matrix of the terms that interact with the genotype. *)
Definition construct_correct_matrices (dataset_m : list (list float))
  (n_datasets : nat) (tcov_m tcov_inter_m : option (list (list float)))
  : option (list (list float)) * option (list (list float)) :=
  let '(corr_m, corr_inter_m) :=
    if (1 <? n_datasets)%nat
    then (Some (drop 1 <$> dataset_m), Some dataset_m)
    else (None, None) in
  let corr_m :=
    match tcov_m with
    | Some t => hstack_opt corr_m t
    | None => corr_m
    end in
  match tcov_inter_m with
  | Some t => (hstack_opt corr_m t, hstack_opt corr_inter_m t)
  | None => (corr_m, corr_inter_m)
  end.

(** *** The loop over the components *)

(** [remove_covariates y_m X_m X_inter_m inter_m] of
    [src/statistics.py]: the residuals of the ordinary least squares
    fits that statsmodels computes.  The variable stands for the
    matrix of a call that returns; the calls that end the process or
    raise (the two guards on the arguments, the progress line on a
    matrix of one row) are not described. *)
Variable remove_covariates :
  list (list float) -> option (list (list float)) ->
  option (list (list float)) -> list (list float) -> list (list float).

(** The mapping of the ieQTLs of one context vector on an eQTL list,
    a genotype matrix and an expression matrix: the elementwise
    residualisation, the force normaliser of the datasets and
    [get_ieqtls]. *)
Variable map_interactions :
  list (string * string) -> list (list float) -> list (list float) ->
  list float -> option string -> float -> InteractionOptimizer.mapping.

(** The content of a cell of [np.empty] before it is written. *)
Variable uninitialised : float.

(** The variables of [start] that live across the components. *)
Record pics := Pics {
  pic_m : list (list float);
  summary_stats_m : list (list float);
  n_components_performed : nat;
  pic_a : option (list float);
  stop : bool;
  pic_corr_m : option (list (list float));
  pic_corr_inter_m : option (list (list float));
  components_df : option DataFrame
}.

(** ["PIC{}".format(i + 1)]. *)
Definition pic_name (i : nat) : string := "PIC" +:+ pretty (S i).

Definition component_path (comp_count : nat) : string :=
  pic_name comp_count +:+ "/component.npy".

(** [m[i, j] = v]. *)
Definition set_cell (i j : nat) (v : float) (m : list (list float))
  : list (list float) :=
  match m !! i with
  | Some row => <[i := <[j := v]> row]> m
  | None => m
  end.

(** [pic_m[comp_count, :] = pic_a]: the row takes a vector of its
    length (or a single value); any other shape raises. *)
Definition set_row (i : nat) (a : list float) (m : list (list float))
  : option (list (list float)) :=
  row ← m !! i;
  if decide (length a = length row) then Some (<[i := a]> m)
  else match a with
       | [x] => Some (<[i := replicate (length row) x]> m)
       | _ => None
       end.

(** [pic_a[:, np.newaxis]] stacked to the right of a matrix. *)
Definition add_component (m : option (list (list float)))
  (a : list float) : option (list (list float)) :=
  hstack_opt m ((fun x => [x]) <$> a).

(** The tables that [process] saves in the directory of the
    component when it returns (without the text column of
    [info.txt.gz]).  The tables that it saves there during the
    iterations, [results_iteration*.txt.gz] and
    [covariate_selection.txt.gz], hold text and are not kept in the
    model of the output directory. *)
Definition save_process_tables (comp_count : nat) (samples : list string)
  (r : InteractionOptimizer.result) : M unit :=
  let iterations n := (fun i => "iteration" +:+ pretty i) <$> seq 0 n in
  save (pic_name comp_count +:+ "/iteration.txt.gz")
    (Table {| index := "start"
                       :: iterations
                            (length (InteractionOptimizer.iteration_df r) - 1)%nat;
              columns := samples;
              values := InteractionOptimizer.iteration_df r |}) ;;;
  match InteractionOptimizer.n_hits_per_sample_df r,
        InteractionOptimizer.info_df r with
  | Some hits, Some info =>
      save (pic_name comp_count +:+ "/n_hits_per_sample.txt.gz")
        (Table {| index := iterations (length hits);
                  columns := samples; values := hits |}) ;;;
      save (pic_name comp_count +:+ "/info.txt.gz")
        (Table {| index := iterations (length info);
                  columns := ["N"; "min N per sample"; "N Overlap";
                              "Overlap %";
                              "Sum Abs Normalized Delta Log Likelihood";
                              "Pearson r"];
                  values := info |})
  | _, _ => ret tt
  end.

(** [info_df.loc[info_df.index[-1], "N"]]. *)
Definition last_N (info : DataFrame) : option float :=
  row ← last (values info);
  j ← list_find (String.eqb "N") (columns info);
  row !! fst j.

Section Components.
(** The matrices of [start] that the loop only reads. *)
Variable samples : list string.
Variable eqtl_m : list (string * string).
Variable geno_m expr_m : list (list float).
Variable covs : list (string * list float).

(** The body of [for comp_count in range(self.n_components)]. *)
Definition identify_pic (comp_count : nat) (st : pics)
  : M (InteractionOptimizer.control * pics) :=
  if (stop st && negb (force_continue cfg))%bool
  then ret (InteractionOptimizer.Break, st)
  else
    (* Add component to the base matrix. *)
    let '(corr, corr_inter) :=
      match pic_a st with
      | Some a => (add_component (pic_corr_m st) a,
                   add_component (pic_corr_inter_m st) a)
      | None => (pic_corr_m st, pic_corr_inter_m st)
      end in
    let* found := read (component_path comp_count) in
    let* computed :=
      match found with
      | Some (Npy a) =>
          (* PIC has already been identified. *)
          let* pic_m' := try (set_row comp_count a (pic_m st)) in
          let* info := read (pic_name comp_count +:+ "/info.txt.gz") in
          let* summary :=
            match info with
            | Some (Table df) =>
                let* n := try (last_N df) in
                ret (set_cell comp_count 0 n (summary_stats_m st))
            | Some (Npy _) => raise
            | None => ret (summary_stats_m st)
            end in
          ret (inr (Pics pic_m' summary (n_components_performed st)
                      (Some a) (stop st) corr corr_inter
                      (components_df st)))
      | Some (Table _) => raise
      | None =>
          (* Remove tech. covs. + components from expression matrix. *)
          let comp_expr_m :=
            remove_covariates expr_m corr corr_inter geno_m in
          (* Optimize the cell fractions in X iterations. *)
          let* r :=
            try (InteractionOptimizer.process (ieqtl_alpha cfg)
                   (min_iter cfg) (max_iter cfg) (tol cfg)
                   (map_interactions eqtl_m geno_m comp_expr_m)
                   covs (length samples) uninitialised) in
          save_process_tables comp_count samples r ;;;
          (* Save #ieQTLs to summary stats. *)
          let summary :=
            set_cell comp_count 0
              (float_of_Z (InteractionOptimizer.ret_n_hits r))
              (summary_stats_m st) in
          match InteractionOptimizer.ret_context_a r with
          | None =>
              (* Stop if the returned component is None. *)
              ret (inl (Pics (pic_m st) summary
                          (n_components_performed st) None
                          (InteractionOptimizer.ret_stop r)
                          corr corr_inter (components_df st)))
          | Some a =>
              let* pic_m' := try (set_row comp_count a (pic_m st)) in
              save (component_path comp_count) (Npy a) ;;;
              ret (inr (Pics pic_m' summary (n_components_performed st)
                          (Some a) (InteractionOptimizer.ret_stop r)
                          corr corr_inter (components_df st)))
          end
      end in
    match computed with
    | inl st' => ret (InteractionOptimizer.Break, st')
    | inr st' =>
        (* Increment counter. *)
        let n := S (n_components_performed st') in
        let df := {| index := pic_name <$> seq 0 n;
                     columns := samples;
                     values := take n (pic_m st') |} in
        save "components.txt.gz" (Table df) ;;;
        ret (InteractionOptimizer.Continue,
             Pics (pic_m st') (summary_stats_m st') n (pic_a st')
               (stop st') (pic_corr_m st') (pic_corr_inter_m st')
               (Some df))
    end.

(** The [for] loop over the components that remain. *)
Fixpoint identify_pics (comp_counts : list nat) (st : pics) : M pics :=
  match comp_counts with
  | [] => ret st
  | comp_count :: rest =>
      let* cs := identify_pic comp_count st in
      match fst cs with
      | InteractionOptimizer.Break => ret (snd cs)
      | InteractionOptimizer.Continue => identify_pics rest (snd cs)
      end
  end.

(** The table saved as [SummaryStats.txt.gz]. *)
Definition summary_stats_df (m : list (list float)) : file :=
  Table {| index := pic_name <$> seq 0 (Z.to_nat (n_components cfg));
           columns := ["Iterative #ieQTLs"; "Raw #ieQTLs"];
           values := m |}.

(** [components_df.iloc[:-1, :]]. *)
Definition without_last_row (df : DataFrame) : DataFrame :=
  {| index := take (length (index df) - 1) (index df);
     columns := columns df;
     values := take (length (values df) - 1) (values df) |}.

(** The rows of [PICs.txt.gz]. *)
Definition pics_of (st : pics) (components : DataFrame) : DataFrame :=
  if (stop st && negb (force_continue cfg))%bool
  then without_last_row components
  else components.

(** The mapping of the interactions with every PIC on the
    expression that was not corrected for the other PICs. *)
Fixpoint map_pics (corrected_expr_m : list (list float))
  (pics_df : list (nat * (string * list float)))
  (summary : list (list float)) : M (list (list float)) :=
  match pics_df with
  | [] => ret summary
  | (pic_index, (pic, a)) :: rest =>
      let m := map_interactions eqtl_m geno_m corrected_expr_m a
                 (Some pic) (ieqtl_alpha cfg) in
      save ("PIC_interactions/" +:+ pic +:+ ".txt.gz")
        (Table {| index := []; columns := [];
                  values := InteractionOptimizer.map_results_df m |}) ;;;
      map_pics corrected_expr_m rest
        (set_cell pic_index 1
           (float_of_Z (InteractionOptimizer.map_n_hits m)) summary)
  end.

(** What [start] does after the loop over the components. *)
Definition finish (corr_m corr_inter_m : option (list (list float)))
  (st : pics) : M unit :=
  if (n_components_performed st =? 0)%nat
  then
    (* No PICs identified. Stopping PICALO. *)
    save "SummaryStats.txt.gz" (summary_stats_df (summary_stats_m st)) ;;;
    exit None
  else
    let* components := try (components_df st) in
    let pics_df := pics_of st components in
    save "PICs.txt.gz" (Table pics_df) ;;;
    let* summary :=
      if (0 <? length (index pics_df))%nat
      then
        let corrected_expr_m :=
          remove_covariates expr_m corr_m corr_inter_m geno_m in
        map_pics corrected_expr_m
          (imap pair (zip (index pics_df) (values pics_df)))
          (summary_stats_m st)
      else ret (summary_stats_m st) in
    save "SummaryStats.txt.gz" (summary_stats_df summary).
End Components.

(** *** start *)

(** [max(eqtl_df.index)]; the empty index raises. *)
Definition max_label (labels : list nat) : option nat :=
  match labels with
  | [] => None
  | x :: r => Some (foldl Nat.max x r)
  end.

(** [expr_m[geno_m == na] = nan] and [geno_m[geno_m == na] = nan]. *)
Definition blank_expression (geno expr : list (list float))
  : list (list float) :=
  zip_with (zip_with (fun g e => if is_na g then nan else e)) geno expr.

Definition blank_genotype (geno : list (list float)) : list (list float) :=
  (fun row : list float => (fun g => if is_na g then nan else g) <$> row)
    <$> geno.

(** [dataset_df.to_numpy]: one row per sample, one column per
    dataset. *)
Definition dataset_matrix (n_samples : nat)
  (dataset_df : list (string * list bool)) : list (list float) :=
  (fun i =>
     (fun d => if default false (snd d !! i) then 1%float else 0%float)
       <$> dataset_df) <$> seq 0 n_samples.

(** [Main.start]. *)
Definition start (data : Data) : M unit :=
  (* Loading eQTL data, genotype data, and dataset info. *)
  let* std :=
    match std_df data with
    | Some std =>
        validate_data std None (Some (geno_df data)) None None None ;;;
        ret std
    | None => ret ((fun sample => (sample, "None")) <$> columns (geno_df data))
    end in
  (* The longest dataset name is the maximum of a list that is empty
     when there is no sample. *)
  if decide (dataset_sample_counts std = []) then raise
  else
    let dataset_df := construct_dataset_df std in
    let* qc := quality_control (imap pair (eqtl_df data)) (geno_df data)
                 dataset_df in
    let '(eqtls, geno, combined_keep_mask) := qc in
    let geno_n_skipped := length (List.filter negb combined_keep_mask) in
    (* Loading other data. *)
    let* last := try (max_label (fst <$> eqtls)) in
    let skiprows :=
      if (0 <? geno_n_skipped)%nat
      then Some (S <$> List.filter
                         (fun i => negb (bool_decide (i ∈ fst <$> eqtls)))
                         (seq 0 (S last)))
      else None in
    let expr := load_dataframe (expr_df data) skiprows (Some (S last)) in
    (* Check for nan values. *)
    if has_nan geno then exit None
    else if has_nan expr then exit None
    else if has_nan (covs_df data) then exit None
    else
      (* Transpose if need be. *)
      let covs :=
        if decide (length (index (covs_df data)) = length (columns geno))
        then T (covs_df data) else covs_df data in
      (* Validate that the input data (still) matches. *)
      validate_data std (Some (snd <$> eqtls)) (Some geno) (Some expr)
        (Some covs) None ;;;
      let samples := fst <$> std in
      (* Transform to numpy matrices for speed. *)
      let eqtl_m := (fun e => (SNPName (snd e), ProbeName (snd e))) <$> eqtls in
      let dataset_m := dataset_matrix (length std) dataset_df in
      (* Fill the missing values with NaN. *)
      let expr_m := blank_expression (values geno) (values expr) in
      let geno_m := blank_genotype (values geno) in
      (* Loading technical covariates. *)
      let* tcov_m := load_tech_cov (tcov_df data) std in
      let* tcov_inter_m := load_tech_cov (tcov_inter_df data) std in
      let '(corr_m, corr_inter_m) :=
        construct_correct_matrices dataset_m (length dataset_df)
          tcov_m tcov_inter_m in
      (* Starting PIC identification. *)
      if n_components cfg <? 0 then raise
      else
        let n := Z.to_nat (n_components cfg) in
        let* st :=
          identify_pics samples eqtl_m geno_m expr_m
            (zip (index covs) (values covs)) (seq 0 n)
            (Pics (InteractionOptimizer.np_empty uninitialised n
                     (length samples))
               (replicate n [nan; nan]) 0 None false corr_m corr_inter_m
               None) in
        finish eqtl_m geno_m expr_m corr_m corr_inter_m st.

(** The run of the program on its input files and the content of
    its output directory. *)
Definition run (data : Data) (fs : files) : outcome :=
  match start data fs with
  | Next _ fs' => Finished fs'
  | Stop o => o
  end.
End Start.

End Main.

(** ** fast_interaction_mapper.py *)

Module FastInteractionMapper.
Import NumPy CommandLineArguments Main.
#[local] Open Scope driver_scope.

Section Start.
Variable cfg : settings.

(** [self.eqtl_alpha = cla.get_argument('eqtl_alpha')]: a value of the
    namespace, which is [None] when the namespace has no such
    attribute. *)
Variable eqtl_alpha : value.

(** One cell of [eqtl_df["FDR"] < self.eqtl_alpha]: pandas answers
    [False] in every cell when the right-hand side is [None] and
    compares the floats when it is a number; a string raises. *)
Definition fdr_below : option (float -> bool) :=
  match eqtl_alpha with
  | VNone => Some (fun _ => false)
  | VFloat alpha => Some (fun fdr => PrimFloat.ltb fdr alpha)
  | VInt alpha => Some (fun fdr => PrimFloat.ltb fdr (float_of_Z alpha))
  | VBool b => Some (fun fdr => PrimFloat.ltb fdr (if b then 1 else 0))
  | VStr _ => None
  end.

(** [eqtl_df["FDR"] < self.eqtl_alpha]. *)
Definition eqtl_fdr_keep_mask (eqtls : list eqtl) : option (list bool) :=
  (fun below => (fun e => below (FDR e)) <$> eqtls) <$> fdr_below.

(** The first part of [start]: the filter on the FDR of the main eQTL
    effect, the loading of the genotype rows of the eQTLs that pass
    it and the call rates on those rows.  It returns the eQTLs and
    the genotype rows on which the genotype statistics are then
    taken. *)
Definition start_call_rate (data : Data)
  : M (list eqtl * list (list float) * list (list float)) :=
  (* Loading eQTL data and filter on FDR values of the main eQTL
     effect. *)
  let* mask := try (eqtl_fdr_keep_mask (eqtl_df data)) in
  let eqtl_signif_df := select mask (eqtl_df data) in
  let eqtl_fdr_n_skipped := length (List.filter negb mask) in
  (* Loading genotype data and dataset info. *)
  let skiprows :=
    if (0 <? eqtl_fdr_n_skipped)%nat
    then Some ((fun im => S (fst im))
                 <$> List.filter (fun im => negb (snd im)) (imap pair mask))
    else None in
  (* max(eqtl_signif_df.index) raises on an empty table. *)
  if decide (eqtl_signif_df = []) then raise
  else
    let geno := load_dataframe (geno_df data) skiprows
                  (Some (length eqtl_signif_df)) in
    let* std :=
      match std_df data with
      | Some std =>
          validate_data std None (Some geno) None None None ;;; ret std
      | None => ret ((fun sample => (sample, "None")) <$> columns geno)
      end in
    if decide (dataset_sample_counts std = []) then raise
    else
      let '(geno_m, call_rate_m) :=
        calculate_call_rate cfg (values geno) (construct_dataset_df std) in
      ret (eqtl_signif_df, geno_m, call_rate_m).
End Start.

(** [main().start()] after [CommandLineArguments]: the attribute
    [eqtl_alpha] is read from the parsed command line. *)
Definition main_start (cfg : settings) (ns : gmap string value) (data : Data)
  : M (list eqtl * list (list float) * list (list float)) :=
  start_call_rate cfg (get_argument ns "eqtl_alpha") data.

End FastInteractionMapper.

(** ** src/objects/data.py *)

Module Objects.

(** [Data.reverse_merge_dict]: the dictionary is the list of its items
    in insertion order; the result maps every value to the keys that
    have it, in that order. *)
Definition reverse_merge_dict (dict : list (string * string))
  : gmap string (list string) :=
  foldl (fun out_dict '(key, value) =>
           match out_dict !! value with
           | Some keys => <[value := keys ++ [key]]> out_dict
           | None => <[value := [key]]> out_dict
           end) ∅ dict.

End Objects.

(** ** Inputs of the examples *)

Module Examples.
Import NumPy Statistics InteractionOptimizer Main.

(** An ieQTL given by its identifier and its two coefficient arrays. *)
Definition ieqtl (id : string) (a b : list float) : IeQTL :=
  {| get_ieqtl_id := id;
     get_mll_coef_representation := (a, b);
     calc_log_likelihood := fun _ => 1%float |}.

(** Two ieQTLs whose joint optimum is the vector [target]: the sum of
    their first coefficients is 2 and the sum of the second ones is
    [-4 * target]. *)
Definition ieqtls_with_optimum (target : list float) : list IeQTL :=
  [ ieqtl "rs1_gene1" ((fun _ => 1%float) <$> target)
      ((fun t => (-2 * t)%float) <$> target);
    ieqtl "rs2_gene2" ((fun _ => 1%float) <$> target)
      ((fun t => (-2 * t)%float) <$> target) ].

(** Three candidate covariates with 12, 47 and 9 significant ieQTLs and
    at least 3, 5 and 0 ieQTLs per sample. *)
Definition three_candidates : list (string * list float) :=
  [ ("cov1", [1; 2]%float); ("cov2", [2; 1]%float); ("cov3", [1; 1]%float) ].

Definition three_mapping (context : list float) (cov : option string)
  (alpha : float) : mapping :=
  match cov with
  | Some name =>
      if String.eqb name "cov1"
      then {| map_n_hits := 12; map_n_hits_per_sample_a := [3; 4];
              map_ieqtls := ieqtls_with_optimum context;
              map_results_df := [] |}
      else if String.eqb name "cov2"
      then {| map_n_hits := 47; map_n_hits_per_sample_a := [6; 5];
              map_ieqtls := ieqtls_with_optimum context;
              map_results_df := [] |}
      else {| map_n_hits := 9; map_n_hits_per_sample_a := [0; 2];
              map_ieqtls := ieqtls_with_optimum context;
              map_results_df := [] |}
  | None => {| map_n_hits := 0; map_n_hits_per_sample_a := [0; 0];
               map_ieqtls := []; map_results_df := [] |}
  end.

(** Equality of two vectors, element by element. *)
Fixpoint vec_eqb (x y : list float) : bool :=
  match x, y with
  | [], [] => true
  | a :: x', b :: y' => (PrimFloat.eqb a b && vec_eqb x' y')%bool
  | _, _ => false
  end.

(** Six context vectors over three samples. *)
Definition X0 : list float := [1; 2; 4]%float.
Definition X1 : list float := [1; 3; 2]%float.
Definition X2 : list float := [3; 1; 2]%float.
Definition X3 : list float := [2; 3; 1]%float.
Definition X4 : list float := [2; 1; 3]%float.
Definition X5 : list float := [3; 2; 1]%float.

(** The optimum that the ieQTLs of a context lead to: from [X0] through
    [X1], [X2], [X3] to [X4], then to and fro between [X5] and [X4]. *)
Definition next_context (c : list float) : list float :=
  if vec_eqb c X0 then X1
  else if vec_eqb c X1 then X2
  else if vec_eqb c X2 then X3
  else if vec_eqb c X3 then X4
  else if vec_eqb c X4 then X5
  else X4.

(** A mapping with two significant ieQTLs on every sample, whatever the
    context. *)
Definition oscillating_mapping (context : list float) (cov : option string)
  (alpha : float) : mapping :=
  {| map_n_hits := 2; map_n_hits_per_sample_a := [2; 2; 2];
     map_ieqtls := ieqtls_with_optimum (next_context context);
     map_results_df := [] |}.

(** A mapping that finds two ieQTLs on every sample for the context
    [X0] and one ieQTL for any other context. *)
Definition fading_mapping (context : list float) (cov : option string)
  (alpha : float) : mapping :=
  if vec_eqb context X0
  then {| map_n_hits := 2; map_n_hits_per_sample_a := [2; 2; 2];
          map_ieqtls := ieqtls_with_optimum X1; map_results_df := [] |}
  else {| map_n_hits := 1; map_n_hits_per_sample_a := [1; 1; 1];
          map_ieqtls := [ieqtl "rs1_gene1" [1; 1; 1]%float [2; 2; 2]%float];
          map_results_df := [] |}.

(** The settings that the command line gives by default, for a number
    of components and a choice of [-force_continue]. *)
Definition default_settings (n : Z) (force : bool) : settings :=
  {| genotype_na := -1; min_dataset_sample_size := 30;
     call_rate := 0.95; hw_pval := 1e-4; maf := 0.01; mgs := 2;
     ieqtl_alpha := 0.05; n_components := n; min_iter := 5;
     max_iter := 100; tol := 1e-3; force_continue := force |}.

(** Two eQTLs on six samples of one dataset; the second eQTL has a
    discovery FDR of 0.9. *)
Definition six_samples : list string := ["s1"; "s2"; "s3"; "s4"; "s5"; "s6"].

Definition two_eqtls : Data :=
  {| eqtl_df := [ {| SNPName := "rs1"; ProbeName := "gene1"; FDR := 0.01 |};
                  {| SNPName := "rs2"; ProbeName := "gene2"; FDR := 0.9 |} ];
     geno_df := {| index := ["rs1"; "rs2"]; columns := six_samples;
                   values := [ [0; 0; 1; 1; 2; 2]; [2; 1; 0; 2; 1; 0] ]%float |};
     expr_df := {| index := ["gene1"; "gene2"]; columns := six_samples;
                   values := [ [-1; -1; 0; 0; 1; 1];
                               [0.5; 0.1; -0.3; 0.7; 0.2; -0.6] ]%float |};
     tcov_df := None;
     tcov_inter_df := None;
     covs_df := {| index := ["cov"]; columns := six_samples;
                   values := [ [1; 2; 4; 3; 6; 5] ]%float |};
     std_df := Some ((fun s => (s, "A")) <$> six_samples) |}.

(** Genotypes of the same eQTLs whose smallest genotype group has two
    samples (first row) and one sample (second row). *)
Definition boundary_genotypes : DataFrame :=
  {| index := ["rs1"; "rs2"]; columns := six_samples;
     values := [ [0; 0; 1; 1; 2; 2]; [0; 0; 0; 1; 1; 2] ]%float |}.



(** Stand-ins for the numeric routines: a Hardy-Weinberg p-value of 1,
    a standard deviation of 1 and residuals equal to the expression. *)
Definition hwe_one (obs_hets obs_hom1 obs_hom2 : Z) : float := 1%float.

Definition std_one (column : list float) : float := 1%float.

Definition no_correction (y_m : list (list float))
  (X_m X_inter_m : option (list (list float))) (inter_m : list (list float))
  : list (list float) := y_m.

(** A mapping that finds no ieQTL. *)
Definition no_hits (eqtl_m : list (string * string))
  (geno_m expr_m : list (list float)) (context : list float)
  (cov : option string) (alpha : float) : mapping :=
  {| map_n_hits := 0; map_n_hits_per_sample_a := replicate (length context) 0;
     map_ieqtls := []; map_results_df := [] |}.

(** A mapping with two ieQTLs on every sample whose optimum moves every
    coordinate of the context: the optimiser never converges on it. *)
Definition restless (eqtl_m : list (string * string))
  (geno_m expr_m : list (list float)) (context : list float)
  (cov : option string) (alpha : float) : mapping :=
  {| map_n_hits := 2; map_n_hits_per_sample_a := replicate (length context) 2;
     map_ieqtls := ieqtls_with_optimum (rev context);
     map_results_df := [] |}.

(** The settings with three iterations at most for a component. *)
Definition three_iterations (n : Z) (force : bool) : settings :=
  {| genotype_na := -1; min_dataset_sample_size := 30;
     call_rate := 0.95; hw_pval := 1e-4; maf := 0.01; mgs := 2;
     ieqtl_alpha := 0.05; n_components := n; min_iter := 5;
     max_iter := 3; tol := 1e-3; force_continue := force |}.

(** The settings without any iteration. *)
Definition no_iterations (n : Z) (force : bool) : settings :=
  {| genotype_na := -1; min_dataset_sample_size := 30;
     call_rate := 0.95; hw_pval := 1e-4; maf := 0.01; mgs := 2;
     ieqtl_alpha := 0.05; n_components := n; min_iter := 5;
     max_iter := 0; tol := 1e-3; force_continue := force |}.

(** The matrices that [start] hands to the identification of the
    components for [two_eqtls]. *)
Definition two_pairs : list (string * string) :=
  [("rs1", "gene1"); ("rs2", "gene2")].

Definition one_covariate : list (string * list float) :=
  zip (index (covs_df two_eqtls)) (values (covs_df two_eqtls)).

(** The state in which the loop over [n] components starts, with no
    correction matrix. *)
Definition no_component_yet (n : nat) : pics :=
  Pics (InteractionOptimizer.np_empty 0 n (length six_samples))
    (replicate n [nan; nan]) 0 None false None None None.

(** The files of [two_eqtls] without a sample-to-dataset table, and a
    command line without [-std]. *)
Definition without_std : Data :=
  {| eqtl_df := eqtl_df two_eqtls; geno_df := geno_df two_eqtls;
     expr_df := expr_df two_eqtls; tcov_df := None; tcov_inter_df := None;
     covs_df := covs_df two_eqtls; std_df := None |}.

Definition four_files : list string :=
  ["-eq"; "eqtls.txt.gz"; "-ge"; "genotype.txt.gz";
   "-ex"; "expression.txt.gz"; "-co"; "covariates.txt.gz"].

(** Conversions of [int] and [float] that accept no word. *)
Definition no_number {A} (s : string) : option A := None.

End Examples.

(** * Vocabulary of the properties *)

(** ** Statistics *)

Module StatisticsSpec.
(** The interval that the specification gives for the p-value. *)
Definition in_claimed_interval (p : float) : bool :=
  (PrimFloat.leb 2.2251e-308 p && PrimFloat.leb p 1)%bool.

(** The length of the element-wise combination of two one-dimensional
    arrays of [n] and [m] elements under numpy's broadcasting, when
    there is one: equal lengths, or one array with a single element. *)
Definition broadcast_length (n m : nat) : option nat :=
  if decide (n = m) then Some n
  else if decide (n = 1%nat) then Some m
  else if decide (m = 1%nat) then Some n
  else None.

(** The element that an array contributes at index [i] of a
    combination of [n] elements: its own element [i] when it has [n]
    elements, else its first (and only) element. *)
Definition broadcast_at (xs : list float) (n i : nat) : option float :=
  if decide (length xs = n) then xs !! i else xs !! 0%nat.
End StatisticsSpec.

(** ** Command line *)

Module CommandLineSpec.
Import CommandLineArguments.

(** [tok] is an option string of an argument of [parser] with
    destination [d]. *)
Definition declares (parser : list argument) (d tok : string) : Prop :=
  exists a, a ∈ parser /\ dest a = d /\ tok ∈ option_strings a.
(** An option that the command line does not have. *)
Definition omitted (argv : list string) (options : list string) : Prop :=
  forall tok, tok ∈ options -> tok ∉ argv.

(** The option strings of a destination. *)
Definition options_of (parser : list argument) (d : string) : list string :=
  concat (option_strings
            <$> List.filter (fun a => bool_decide (dest a = d)) parser).
End CommandLineSpec.

(** ** Optimiser *)

Module OptimizerSpec.
Import NumPy InteractionOptimizer.

(** The sum over the ieQTLs [q :: rest] of their coefficient of sample
    [i], added in the order of the ieQTLs ([coef] picks one of the two
    coefficient arrays). *)
Definition coefficient_sum (coef : IeQTL -> list float) (i : nat)
  (q : IeQTL) (rest : list IeQTL) : float :=
  foldl (fun acc r => (acc + nth i (coef r) 0)%float)
    (nth i (coef q) 0%float) rest.

Section Selection.
Variable ieqtl_alpha : float.
Variable find_ieqtls : list float -> option string -> float -> mapping.

(** The number of significant ieQTLs of a candidate and the smallest
    number of ieQTLs that one of its samples has. *)
Definition hits_of (cand : string * list float) : Z :=
  map_n_hits (find_ieqtls (snd cand) (Some (fst cand)) ieqtl_alpha).

Definition min_per_sample_of (cand : string * list float) : option Z :=
  np_min (map_n_hits_per_sample_a
            (find_ieqtls (snd cand) (Some (fst cand)) ieqtl_alpha)).

(** What holds of the selection after the candidates [seen]. *)
Definition selected_among (seen : list (string * list float)) (fd : found)
  : Prop :=
  (forall other mo,
      other ∈ seen -> min_per_sample_of other = Some mo -> 2 <= mo ->
      hits_of other < f_n_hits fd
      \/ (hits_of other = f_n_hits fd /\ mo <= f_min_n_hits_per_sample fd))
  /\ match f_cov fd with
     | Some name =>
         exists cand,
           cand ∈ seen /\ fst cand = name
           /\ f_context_a fd = Some (snd cand)
           /\ min_per_sample_of cand = Some (f_min_n_hits_per_sample fd)
           /\ 2 <= f_min_n_hits_per_sample fd
           /\ f_n_hits fd = hits_of cand
     | None => f_n_hits fd = 0 /\ f_min_n_hits_per_sample fd = 0
     end.
End Selection.

(** The variables with which iteration 0 starts its search when there
    is more than one candidate. *)
Definition before_selection (n_samples : nat) : found :=
  Found None None 0 0 (replicate n_samples 0) [].

(** The variables with which the first iteration of [process]
    searches: the only covariate as context, or no context yet. *)
Definition first_found (covs : list (string * list float)) (n_samples : nat)
  : found :=
  match covs with
  | [(name, row)] => Found (Some name) (Some row) 0 0 (replicate n_samples 0) []
  | _ => Found None None 0 0 (replicate n_samples 0) []
  end.

(** A state that asks the driver to stop carries a context vector. *)
Definition stop_has_context (st : state) : Prop :=
  stop st = true -> is_Some (context_a st).

(** What the loop keeps true of its variables before iteration [k]:
    the stop flag is still set, and after the first iteration the
    previous iteration had at least two ieQTLs. *)
Definition running (k : nat) (st : state) : Prop :=
  InteractionOptimizer.stop st = true
  /\ (k = 0%nat \/ 2 <= (prev_included_ieqtls st).1).
End OptimizerSpec.

(** ** Driver *)

Module DriverSpec.
Import NumPy InteractionOptimizer Main.

(** An outcome whose status, when the process ends by [exit()], is 0. *)
Definition exit_is_zero (o : outcome) : Prop :=
  match o with
  | Exited status _ => status = 0
  | Finished _ | Uncaught _ => True
  end.

(** A computation of the driver that never ends the process by an
    [exit()] with another status than 0. *)
Definition exits_with_zero {A} (m : M A) : Prop :=
  forall fs, match m fs with
             | Next _ _ => True
             | Stop o => exit_is_zero o
             end.

(** The last character of a file name. *)
Fixpoint last_char (s : string) : option ascii :=
  match s with
  | EmptyString => None
  | String c EmptyString => Some c
  | String _ r => last_char r
  end.

(** The correction matrices with which a component is identified: those
    of the state, with the previous component appended. *)
Definition corrections (st : pics)
  : option (list (list float)) * option (list (list float)) :=
  match pic_a st with
  | Some a => (add_component (pic_corr_m st) a,
               add_component (pic_corr_inter_m st) a)
  | None => (pic_corr_m st, pic_corr_inter_m st)
  end.

(** The table of the components after [n] of them. *)
Definition components_table (samples : list string) (n : nat)
  (m : list (list float)) : DataFrame :=
  {| index := pic_name <$> seq 0 n; columns := samples; values := take n m |}.

(** The row that [pic_m[comp_count, :] = pic_a] leaves in the matrix:
    the vector, or its single value in every column. *)
Definition row_of (a row : list float) : Prop :=
  row = a \/ exists x, a = [x] /\ row = replicate (length row) x.

Section Components.
Variable cfg : settings.
Variable remove_covariates :
  list (list float) -> option (list (list float)) ->
  option (list (list float)) -> list (list float) -> list (list float).
Variable map_interactions :
  list (string * string) -> list (list float) -> list (list float) ->
  list float -> option string -> float -> mapping.
Variable uninitialised : float.
Variable samples : list string.
Variable eqtl_m : list (string * string).
Variable geno_m expr_m : list (list float).
Variable covs : list (string * list float).

(** The call of the optimiser for a component. *)
Definition optimise (st : pics) : option result :=
  process (ieqtl_alpha cfg) (min_iter cfg) (max_iter cfg) (tol cfg)
    (map_interactions eqtl_m geno_m
       (remove_covariates expr_m (corrections st).1 (corrections st).2 geno_m))
    covs (length samples) uninitialised.

(** What the loop keeps true of the state and of the output directory
    after [k] components when [-force_continue] is not set: if the stop
    flag is set, the last component was computed, and it is in
    [component.npy] and in the last row of [components.txt.gz]. *)
Definition last_is_unconverged (k : nat) (st : pics) (fs : files) : Prop :=
  n_components_performed st = k
  /\ (Main.stop st = true ->
      exists j a pic_m0,
        k = S j /\ pic_a st = Some a
        /\ set_row j a pic_m0 = Some (pic_m st)
        /\ fs !! component_path j = Some (Npy a)
        /\ components_df st = Some (components_table samples (S j) (pic_m st))
        /\ fs !! "components.txt.gz"
           = Some (Table (components_table samples (S j) (pic_m st)))).
End Components.



(** The tables that are given carry the labels of the
    sample-to-dataset table and of the eQTL table. *)
Definition headers_match (std : list (string * string))
  (eqtls : option (list eqtl)) (geno expr covs tcovs : option DataFrame)
  : Prop :=
  (forall df, geno = Some df -> columns df = fst <$> std)
  /\ (forall df, expr = Some df -> columns df = fst <$> std)
  /\ (forall df, covs = Some df -> columns df = fst <$> std)
  /\ (forall df, tcovs = Some df -> index df = fst <$> std)
  /\ (forall e df, eqtls = Some e -> geno = Some df ->
                   index df = SNPName <$> e)
  /\ (forall e df, eqtls = Some e -> expr = Some df ->
                   index df = ProbeName <$> e).

(** The number of occurrences of a label. *)
Definition occurrences (d : string) (labels : list string) : Z :=
  Z.of_nat (length (filter (fun y => y = d) labels)).

(** The sum of the counts that a list of counts holds for a label. *)
Fixpoint total (d : string) (counts : list (string * Z)) : Z :=
  match counts with
  | [] => 0
  | (y, n) :: r => (if String.eqb d y then n else 0) + total d r
  end.

(** Two sample masks without a common sample. *)
Definition disjoint_masks (m1 m2 : list bool) : Prop :=
  forall i, m1 !! i = Some true -> m2 !! i = Some true -> False.

(** A genotype row in the datasets one after the other: the row as
    the datasets leave it and its call rates. *)
Definition row_call_rates (cfg : settings) (row : list float)
  (dataset_df : list (string * list bool)) : list float * list float :=
  foldl (fun gc d =>
           (mask_dataset cfg d.2 gc.1, gc.2 ++ [call_rate_s cfg d.2 gc.1]))
    (row, []) dataset_df.

(** The row of a sample in a matrix that may be absent. *)
Definition row_part (m : option (list (list float))) (i : nat) : list float :=
  match m with
  | Some m => match m !! i with Some row => row | None => [] end
  | None => []
  end.

(** The input with every sample of the genotype header in the one
    dataset [None]. *)
Definition with_one_dataset (data : Data) : Data :=
  {| eqtl_df := eqtl_df data; geno_df := geno_df data;
     expr_df := expr_df data; tcov_df := tcov_df data;
     tcov_inter_df := tcov_inter_df data; covs_df := covs_df data;
     std_df := Some ((fun sample => (sample, "None"))
                       <$> columns (geno_df data)) |}.

(** What the loop over the components keeps true after [k] components:
    [k] components are counted, each of them has its [component.npy],
    and [components.txt.gz] holds the first [k] rows of the matrix of
    the components. *)
Definition components_on_disk (samples : list string) (k : nat) (st : pics)
  (fs : files) : Prop :=
  n_components_performed st = k
  /\ (forall i, (i < k)%nat -> exists a, fs !! component_path i = Some (Npy a))
  /\ ((0 < k)%nat ->
      components_df st = Some (components_table samples k (pic_m st))
      /\ fs !! "components.txt.gz"
         = Some (Table (components_table samples k (pic_m st)))).
End DriverSpec.

(** ** Quality control *)

Module QualityControlSpec.
Import NumPy Main.

Section Criteria.
(** The code of a missing genotype and the Hardy-Weinberg test. *)
Variable missing : float.
Variable calc_hwe_pvalue : Z -> Z -> Z -> float.

(** The number of samples of a genotype row whose genotype, rounded to
    a whole number, is [g]. *)
Definition group_size (g : float) (row : list float) : Z :=
  Z.of_nat (length (List.filter (fun x => PrimFloat.eqb (rint x) g) row)).

(** [N]: the number of samples whose rounded genotype is not the code
    of a missing genotype. *)
Definition non_missing (row : list float) : Z :=
  Z.of_nat (length (List.filter
                      (fun x => negb (PrimFloat.eqb (rint x) missing)) row)).

(** The size of the smallest of the genotype groups 0, 1 and 2. *)
Definition min_group_size (row : list float) : Z :=
  Z.min (Z.min (group_size 0 row) (group_size 1 row)) (group_size 2 row).

(** The Hardy-Weinberg p-value of the row: that of its number of
    heterozygotes and its two numbers of homozygotes. *)
Definition hardy_weinberg (row : list float) : float :=
  calc_hwe_pvalue (group_size 1 row) (group_size 0 row) (group_size 2 row).

(** The frequency of the less frequent allele: a sample of group 0
    has two copies of the first allele, one of group 2 has two copies
    of the second, one of group 1 has one copy of each. *)
Definition minor_allele_frequency (row : list float) : float :=
  let allele1 := 2 * group_size 0 row + group_size 1 row in
  let allele2 := 2 * group_size 2 row + group_size 1 row in
  (float_of_Z (Z.min allele1 allele2) / float_of_Z (allele1 + allele2))%float.

(** The criteria of the specification for a genotype row, with its
    thresholds: [N >= 6], smallest group [>= 2], Hardy-Weinberg p-value
    [>= 1e-4] and minor allele frequency [> 0.01]. *)
Definition meets_criteria (row : list float) : bool :=
  (geb (float_of_Z (non_missing row)) 6
   && geb (float_of_Z (min_group_size row)) 2
   && geb (hardy_weinberg row) 1e-4
   && gtb (minor_allele_frequency row) 0.01)%bool.

(** The labels of the rows that meet the criteria. *)
Definition retained {A} (labels : list A) (rows : list (list float))
  : list A :=
  fst <$> List.filter (fun lr => meets_criteria (snd lr)) (zip labels rows).
End Criteria.
End QualityControlSpec.

(** ** Data *)

Module DataSpec.
(** The keys of the items with a value, in the order of the items. *)
Definition keys_of (value : string) (dict : list (string * string))
  : list string :=
  fst <$> filter (fun item => item.2 = value) dict.
End DataSpec.
(** * Properties *)

Import NumPy Statistics CommandLineArguments.
Import StatisticsSpec CommandLineSpec.

(** ** Statistics *)

(** IEEE facts *)
Lemma Prim2SF_inj_nan (x : float) : Prim2SF x = S754_nan -> x = nan.
Proof.
  intros H. rewrite <- (SF2Prim_Prim2SF x), H. reflexivity.
Qed.

Lemma div_nan_r (x : float) : (x / nan)%float = nan.
Proof.
  apply Prim2SF_inj_nan. rewrite div_spec.
  change (Prim2SF nan) with S754_nan.
  destruct (Prim2SF x) as [s|s| |s m e]; reflexivity.
Qed.

Lemma opp_div_nan (y : float) : (- y / (2 * nan))%float = nan.
Proof. change (2 * nan)%float with nan. apply div_nan_r. Qed.

(** What [broadcast2] returns, element by element. *)
Lemma broadcast2_spec (f : float -> float -> float) (xs ys : list float) :
  match broadcast_length (length xs) (length ys) with
  | None => broadcast2 f xs ys = None
  | Some n =>
      exists v,
        broadcast2 f xs ys = Some v /\ length v = n
        /\ forall i, (i < n)%nat ->
             exists x y, broadcast_at xs n i = Some x
                         /\ broadcast_at ys n i = Some y
                         /\ v !! i = Some (f x y)
  end.
Proof.
  unfold broadcast_length, broadcast2, broadcast_at.
  destruct (decide (length xs = length ys)) as [Hlen|Hlen].
  - exists (zip_with f xs ys). split; [done|].
    split; [rewrite length_zip_with; lia|].
    intros i Hi. rewrite decide_True by done. rewrite decide_True by done.
    destruct (lookup_lt_is_Some_2 xs i Hi) as [x Hx].
    destruct (lookup_lt_is_Some_2 ys i ltac:(lia)) as [y Hy].
    exists x, y. split; [done|]. split; [done|].
    by rewrite lookup_zip_with, Hx; simpl; rewrite Hy.
  - destruct (decide (length xs = 1%nat)) as [H1|H1].
    + destruct xs as [|x [|? ?]]; try discriminate.
      exists (map (f x) ys). split; [done|].
      split; [apply length_map|].
      intros i Hi. rewrite decide_False by done. rewrite decide_True by done.
      destruct (lookup_lt_is_Some_2 ys i Hi) as [y Hy].
      exists x, y. split; [done|]. split; [done|].
      change (map (f x) ys) with (f x <$> ys).
      by rewrite list_lookup_fmap, Hy.
    + destruct (decide (length ys = 1%nat)) as [H2|H2].
      * destruct ys as [|y [|? ?]]; try discriminate.
        assert (Hxs : broadcast2 f xs [y] = Some (map (fun x => f x y) xs)).
        { unfold broadcast2. rewrite decide_False by done.
          by destruct xs as [|? [|? ?]]. }
        unfold broadcast2 in Hxs. rewrite decide_False in Hxs by done.
        exists (map (fun x => f x y) xs). split; [done|].
        split; [apply length_map|].
        intros i Hi. rewrite decide_True by done. rewrite decide_False by done.
        destruct (lookup_lt_is_Some_2 xs i Hi) as [x Hx].
        exists x, y. split; [done|]. split; [done|].
        change (map (fun x => f x y) xs) with ((fun x => f x y) <$> xs).
        by rewrite list_lookup_fmap, Hx.
      * destruct xs as [|? [|? ?]], ys as [|? [|? ?]]; simpl in *; congruence.
Qed.

(** C10.  [calc_vertex_xpos] writes into the array of its first
    argument.  For any two arrays [a] and [b] of the heap (the same
    array or different ones, of any lengths), after the call the array
    [a] has its length and holds NaN where it held 0 and its other
    values as they were, and every other array is untouched; this
    also holds when the call raises, which it does exactly when the
    two lengths differ and none is 1.  In every other case the vector
    returned is [-b / (2 * a)] element by element (an array of one
    element being repeated), with [a] and [b] as they are after the
    write, so it is NaN wherever [a] held 0. *)
Theorem calc_vertex_xpos_in_place (h : heap) (a b : loc)
  (arr_a arr_b : list float) :
  h !! a = Some arr_a -> h !! b = Some arr_b ->
  exists a_after b_read,
    (calc_vertex_xpos a b h).1 !! a = Some a_after
    /\ (forall l, l <> a -> (calc_vertex_xpos a b h).1 !! l = h !! l)
    /\ length a_after = length arr_a
    /\ (forall i x, arr_a !! i = Some x ->
          a_after !! i = Some (if PrimFloat.eqb x 0 then nan else x))
    /\ (calc_vertex_xpos a b h).1 !! b = Some b_read
    /\ (a <> b -> b_read = arr_b)
    /\ match broadcast_length (length arr_b) (length arr_a) with
       | None => (calc_vertex_xpos a b h).2 = None
       | Some n =>
           exists vertex_xpos,
             (calc_vertex_xpos a b h).2 = Some vertex_xpos
             /\ length vertex_xpos = n
             /\ forall i, (i < n)%nat ->
                  exists x y,
                    broadcast_at arr_a n i = Some x
                    /\ broadcast_at b_read n i = Some y
                    /\ vertex_xpos !! i
                       = Some (- y / (2 * (if PrimFloat.eqb x 0
                                           then nan else x)))%float
                    /\ (PrimFloat.eqb x 0 = true ->
                        vertex_xpos !! i = Some nan)
       end.
Proof.
  intros Ha Hb.
  set (a_after := zero_to_nan <$> arr_a).
  set (h' := <[a := a_after]> h).
  assert (Hcall : calc_vertex_xpos a b h
                  = (h', match h' !! a, h' !! b with
                         | Some arr_a', Some arr_b' =>
                             broadcast2 vertex arr_b' arr_a'
                         | _, _ => None
                         end)).
  { unfold calc_vertex_xpos. by rewrite Ha. }
  assert (Hread : h' !! a = Some a_after) by apply lookup_insert_eq.
  assert (Hlen : length a_after = length arr_a) by apply length_fmap.
  assert (Hafter : forall i x, arr_a !! i = Some x ->
             a_after !! i = Some (if PrimFloat.eqb x 0 then nan else x)).
  { intros i x Hx. unfold a_after. by rewrite list_lookup_fmap, Hx. }
  assert (Hb' : exists b_read,
             h' !! b = Some b_read /\ length b_read = length arr_b
             /\ (a <> b -> b_read = arr_b)).
  { destruct (decide (a = b)) as [<-|Hab].
    - exists a_after. split; [done|]. split; [|done].
      rewrite Hlen. congruence.
    - exists arr_b. unfold h'. by rewrite lookup_insert_ne. }
  destruct Hb' as (b_read & Hbread & Hblen & Hbeq).
  exists a_after, b_read. rewrite Hcall. cbn [fst snd].
  split; [done|]. split; [intros l Hl; unfold h'; by rewrite lookup_insert_ne|].
  split; [done|]. split; [done|]. split; [done|]. split; [done|].
  rewrite Hread, Hbread.
  pose proof (broadcast2_spec vertex b_read a_after) as Hspec.
  rewrite Hblen, Hlen in Hspec.
  destruct (broadcast_length (length arr_b) (length arr_a)) as [n|]; [|done].
  destruct Hspec as (v & Hv & Hvlen & Hvi).
  exists v. split; [done|]. split; [done|].
  intros i Hi. destruct (Hvi i Hi) as (y & x' & Hy & Hx' & Hvx).
  assert (Hx : exists x, broadcast_at arr_a n i = Some x
                         /\ x' = (if PrimFloat.eqb x 0 then nan else x)).
  { unfold broadcast_at in Hx' |- *. rewrite Hlen in Hx'.
    destruct (decide (length arr_a = n)).
    - unfold a_after in Hx'. rewrite list_lookup_fmap in Hx'.
      destruct (arr_a !! i) as [x|]; [|discriminate].
      exists x. split; [done|]. simpl in Hx'. by simplify_eq.
    - unfold a_after in Hx'. rewrite list_lookup_fmap in Hx'.
      destruct (arr_a !! 0%nat) as [x|]; [|discriminate].
      exists x. split; [done|]. simpl in Hx'. by simplify_eq. }
  destruct Hx as (x & Hx & ->).
  exists x, y. split; [done|]. split; [done|]. split; [exact Hvx|].
  intros Hz. rewrite Hvx, Hz. f_equal. apply opp_div_nan.
Qed.

Lemma calc_vertex_xpos_in_place_witness :
  exists a_after b_read,
    (calc_vertex_xpos 0%nat 1%nat
       (<[1%nat := [1; 2; 3]%float]> (<[0%nat := [0; 2; -0]%float]> ∅))).1
      !! 0%nat = Some a_after
    /\ a_after = [nan; 2; nan]%float
    /\ b_read = [1; 2; 3]%float
    /\ match (calc_vertex_xpos 0%nat 1%nat
                (<[1%nat := [1; 2; 3]%float]>
                   (<[0%nat := [0; 2; -0]%float]> ∅))).2 with
       | Some vertex_xpos => vertex_xpos !! 1%nat = Some (-0.5)%float
       | None => False
       end.
Proof.
  destruct (calc_vertex_xpos_in_place
              (<[1%nat := [1; 2; 3]%float]> (<[0%nat := [0; 2; -0]%float]> ∅))
              0%nat 1%nat [0; 2; -0]%float [1; 2; 3]%float)
    as (a_after & b_read & Ha & _ & _ & _ & Hb & _ & Hv);
    [reflexivity|reflexivity|].
  exists a_after, b_read. split; [exact Ha|].
  vm_compute in Ha, Hb. injection Ha as <-. injection Hb as <-.
  split; [reflexivity|]. split; [reflexivity|].
  cbn [broadcast_length length] in Hv.
  destruct Hv as (v & Hv & _ & Hi). rewrite Hv.
  destruct (Hi 1%nat ltac:(lia)) as (x & y & Hx & Hy & Hvi & _).
  vm_compute in Hx, Hy. injection Hx as <-. injection Hy as <-.
  rewrite Hvi. reflexivity.
Defined.

Lemma nonneg_nonzero_positive (p : float) :
  PrimFloat.leb 0 p = true -> PrimFloat.eqb p 0 = false -> PrimFloat.ltb 0 p = true.
Proof.
  rewrite FloatAxioms.leb_spec, FloatAxioms.eqb_spec, FloatAxioms.ltb_spec.
  change (Prim2SF 0) with (S754_zero false).
  unfold SFleb, SFeqb, SFltb.
  destruct (Prim2SF p) as [[]|[]| |[] m e]; simpl; congruence.
Qed.

Section Range.
Variable betainc : float -> float -> float -> float.

Lemma calc_p_value_cases (rss1 rss2 : float) (df1 df2 n : Z) :
  calc_p_value betainc rss1 rss2 df1 df2 n =
    if geb rss2 rss1 then 1%float
    else if PrimFloat.eqb (betainc_value betainc rss1 rss2 df1 df2 n) 0
         then p_value_floor
         else betainc_value betainc rss1 rss2 df1 df2 n.
Proof. reflexivity. Qed.

(** C5.  When the value of the regularised incomplete beta function is
    in [[0, 1]], the p-value that [calc_p_value] returns is greater than
    0 and at most 1: it is 1 when [rss2 >= rss1], the constant
    [2.2250738585072014e-308] when the beta function gives exactly 0,
    and the value of the beta function in every other case. *)
Theorem calc_p_value_range (rss1 rss2 : float) (df1 df2 n : Z) :
  PrimFloat.leb 0 (betainc_value betainc rss1 rss2 df1 df2 n) = true ->
  PrimFloat.leb (betainc_value betainc rss1 rss2 df1 df2 n) 1 = true ->
  PrimFloat.ltb 0 (calc_p_value betainc rss1 rss2 df1 df2 n) = true
  /\ PrimFloat.leb (calc_p_value betainc rss1 rss2 df1 df2 n) 1 = true
  /\ (geb rss2 rss1 = true ->
      calc_p_value betainc rss1 rss2 df1 df2 n = 1%float)
  /\ (geb rss2 rss1 = false ->
      PrimFloat.eqb (betainc_value betainc rss1 rss2 df1 df2 n) 0 = true ->
      calc_p_value betainc rss1 rss2 df1 df2 n = p_value_floor)
  /\ (geb rss2 rss1 = false ->
      PrimFloat.eqb (betainc_value betainc rss1 rss2 df1 df2 n) 0 = false ->
      calc_p_value betainc rss1 rss2 df1 df2 n
      = betainc_value betainc rss1 rss2 df1 df2 n).
Proof.
  intros H0 H1. rewrite calc_p_value_cases.
  destruct (geb rss2 rss1) eqn:Hge.
  - repeat split; try reflexivity; discriminate.
  - destruct (PrimFloat.eqb _ 0) eqn:Hz.
    + repeat split; try reflexivity; discriminate.
    + repeat split; try done. by apply nonneg_nonzero_positive.
Qed.
End Range.

Lemma calc_p_value_range_witness :
  PrimFloat.ltb 0 (calc_p_value (fun _ _ x => x) 2 1 2 4 6) = true
  /\ PrimFloat.leb (calc_p_value (fun _ _ x => x) 2 1 2 4 6) 1 = true
  /\ (geb 1 2 = true -> calc_p_value (fun _ _ x => x) 2 1 2 4 6 = 1%float)
  /\ (geb 1 2 = false ->
      PrimFloat.eqb (betainc_value (fun _ _ x => x) 2 1 2 4 6) 0 = true ->
      calc_p_value (fun _ _ x => x) 2 1 2 4 6 = p_value_floor)
  /\ (geb 1 2 = false ->
      PrimFloat.eqb (betainc_value (fun _ _ x => x) 2 1 2 4 6) 0 = false ->
      calc_p_value (fun _ _ x => x) 2 1 2 4 6
      = betainc_value (fun _ _ x => x) 2 1 2 4 6).
Proof.
  apply (calc_p_value_range (fun _ _ x => x) 2 1 2 4 6); reflexivity.
Defined.

(** At this input the third argument of betainc is exactly 0, where the
    regularised incomplete beta function is 0. *)
Lemma calc_p_value_at_floor (betainc : float -> float -> float -> float) :
  betainc 5%float 0.5%float 0%float = 0%float ->
  calc_p_value betainc 1 1e-20 3 4 14 = p_value_floor.
Proof.
  intros H. rewrite calc_p_value_cases.
  change (geb 1e-20 1) with false. cbv iota.
  change (betainc_value betainc 1 1e-20 3 4 14) with (betainc 5%float 0.5%float 0%float).
  rewrite H. reflexivity.
Qed.

(** Not every p-value is in [[2.2251e-308, 1]], since only a value of
    exactly 0 is replaced.  With a residual sum of squares that is NaN
    the third argument of the beta function is NaN, and the NaN that
    comes back is returned (first part, for any beta function that
    hands a NaN on).  A positive value of the beta function below
    [2.2250738585072014e-308], a subnormal, is returned as it is, so
    the p-value can be below the constant itself (second part, for a
    beta function with values in [[0, 1]]).  And the constant, which is
    returned for the value 0, is smaller than 2.2251e-308 (third
    part). *)
Lemma calc_p_value_below_claimed_bound :
  ~ (forall betainc : float -> float -> float -> float,
        (forall a b, betainc a b nan = nan) ->
        forall (rss1 rss2 : float) (df1 df2 n : Z),
          in_claimed_interval (calc_p_value betainc rss1 rss2 df1 df2 n)
          = true)
  /\ ~ (forall betainc : float -> float -> float -> float,
          (forall a b x, PrimFloat.leb 0 (betainc a b x) = true
                         /\ PrimFloat.leb (betainc a b x) 1 = true) ->
          forall (rss1 rss2 : float) (df1 df2 n : Z),
            PrimFloat.leb p_value_floor
              (calc_p_value betainc rss1 rss2 df1 df2 n) = true)
  /\ ~ (forall betainc : float -> float -> float -> float,
          (forall a b, betainc a b 0%float = 0%float) ->
          forall (rss1 rss2 : float) (df1 df2 n : Z),
            in_claimed_interval (calc_p_value betainc rss1 rss2 df1 df2 n)
            = true).
Proof.
  split; [|split].
  - intros H.
    specialize (H (fun _ _ x => x) (fun _ _ => eq_refl) nan 1%float 3 4 14).
    vm_compute in H. discriminate.
  - intros H.
    specialize (H (fun _ _ _ => 0x1p-1074%float)
                  (fun _ _ _ => conj eq_refl eq_refl) 1%float 1e-20%float
                  3 4 14).
    vm_compute in H. discriminate.
  - intros H.
    specialize (H (fun _ _ x => x) (fun _ _ => eq_refl) 1%float 1e-20%float
                  3 4 14).
    rewrite calc_p_value_at_floor in H by reflexivity.
    vm_compute in H. discriminate.
Qed.

(** ** Command line *)

Section Cli.
Variable py_int : string -> option Z.
Variable py_float : string -> option float.
Variable parser : list argument.

Lemma find_option_declares (tok : string) (a : argument) :
  find_option parser tok = Some a -> declares parser (dest a) tok.
Proof.
  unfold find_option. intros H. apply find_some in H as [Hin Hb].
  apply bool_decide_eq_true in Hb. exists a.
  split; [by apply list_elem_of_In|done].
Qed.

(** What a scan adds to the namespace and to the destinations seen
    comes from the words of the command line. *)
Lemma consume_inv_le (n : nat) :
  forall argv ns seen extras ns' seen' extras',
    (length argv <= n)%nat ->
    consume py_int py_float parser argv ns seen extras
    = inr (ns', seen', extras') ->
    (forall d, d ∈ seen' -> d ∈ seen \/ exists tok, tok ∈ argv /\ declares parser d tok)
    /\ (forall d, (forall tok, tok ∈ argv -> ~ declares parser d tok) -> ns' !! d = ns !! d).
Proof.
  induction n as [|n IH]; intros argv ns seen extras ns' seen' extras' Hn H;
    destruct argv as [|tok rest]; simpl in Hn, H; try lia;
    try (inversion H; subst; split; [by left|done]).
  destruct (find_option parser tok) as [a|] eqn:Hf.
  2:{ apply IH in H as [H1 H2]; [|lia]. split.
      - intros d Hin. destruct (H1 d Hin) as [Hs|(t & Ht & Hts)]; [by left|].
        right. exists t. split; [by right|done].
      - intros d Hno. apply H2. intros t Ht. apply Hno. by right. }
  pose proof (find_option_declares _ _ Hf) as Hd.
  destruct (act a) eqn:Hact; try discriminate.
  - destruct rest as [|word rest']; [discriminate|].
    destruct (is_value_word word); [|discriminate].
    destruct (convert py_int py_float ty word) as [v|]; [|discriminate].
    apply IH in H as [H1 H2]; [|simpl in Hn; lia]. split.
    + intros d Hin. destruct (H1 d Hin) as [Hs|(t & Ht & Hts)].
      * apply elem_of_cons in Hs as [->|Hs]; [|by left].
        right. exists tok. split; [left|done].
      * right. exists t. split; [by do 2 right|done].
    + intros d Hno. rewrite H2.
      * rewrite lookup_insert_ne; [done|]. intros <-.
        by apply (Hno tok); [left|].
      * intros t Ht. apply Hno. by do 2 right.
  - apply IH in H as [H1 H2]; [|lia]. split.
    + intros d Hin. destruct (H1 d Hin) as [Hs|(t & Ht & Hts)].
      * apply elem_of_cons in Hs as [->|Hs]; [|by left].
        right. exists tok. split; [left|done].
      * right. exists t. split; [by right|done].
    + intros d Hno. rewrite H2.
      * rewrite lookup_insert_ne; [done|]. intros <-.
        by apply (Hno tok); [left|].
      * intros t Ht. apply Hno. by right.
Qed.

Lemma consume_exit_le (n : nat) :
  forall argv ns seen extras r,
    (length argv <= n)%nat ->
    consume py_int py_float parser argv ns seen extras = inl r ->
    exists status, r = ParserExit status.
Proof.
  induction n as [|n IH]; intros argv ns seen extras r Hn H;
    destruct argv as [|tok rest]; simpl in Hn, H; try lia; try discriminate.
  destruct (find_option parser tok) as [a|]; [|eapply IH; [|done]; lia].
  destruct (act a); try (inversion H; eauto; fail).
  - destruct rest as [|word rest']; [inversion H; eauto|].
    destruct (is_value_word word); [|inversion H; eauto].
    destruct (convert py_int py_float ty word); [|inversion H; eauto].
    eapply IH; [|done]. simpl in Hn. lia.
  - eapply IH; [|done]. lia.
Qed.

Lemma missing_required_nil (seen : list string) (a : argument) :
  missing_required parser seen = [] -> a ∈ parser -> required a = true ->
  dest a ∈ seen.
Proof.
  unfold missing_required. intros H Hin Hreq.
  apply fmap_nil_inv in H.
  destruct (bool_decide (dest a ∈ seen)) eqn:Hb; [by apply bool_decide_eq_true in Hb|].
  assert (Hf : In a (List.filter
    (fun a => (required a && negb (bool_decide (dest a ∈ seen)))%bool) parser)).
  { apply filter_In. split; [by apply list_elem_of_In|]. by rewrite Hreq, Hb. }
  rewrite H in Hf. destruct Hf.
Qed.

Lemma parsed_inv (argv : list string) (ns : gmap string value) :
  parse_args py_int py_float parser argv = Parsed ns ->
  supported parser argv = true
  /\ exists seen,
      consume py_int py_float parser argv (defaults parser) [] false
      = inr (ns, seen, false)
      /\ missing_required parser seen = [].
Proof.
  unfold parse_args. intros H.
  destruct (supported parser argv); [|discriminate]. split; [done|].
  destruct (consume _ _ _ _ _ _ _) as [r|[[ns' seen'] extras']] eqn:Hc.
  { eapply consume_exit_le in Hc as [s ->]; [discriminate|done]. }
  destruct (missing_required parser seen') eqn:Hm; [|discriminate].
  destruct extras'; [discriminate|].
  inversion H; subst. eauto.
Qed.

Lemma parsed_has (argv : list string) (ns : gmap string value) (a : argument) :
  parse_args py_int py_float parser argv = Parsed ns ->
  a ∈ parser -> required a = true ->
  exists tok, tok ∈ argv /\ declares parser (dest a) tok.
Proof.
  intros H Hin Hreq. apply parsed_inv in H as (_ & seen & Hc & Hm).
  eapply consume_inv_le in Hc as [H1 _]; [|done].
  destruct (H1 (dest a)) as [Hs|Hs]; [by eapply missing_required_nil| |done].
  by apply elem_of_nil in Hs.
Qed.

Lemma parsed_default (argv : list string) (ns : gmap string value) (d : string) :
  parse_args py_int py_float parser argv = Parsed ns ->
  (forall tok, tok ∈ argv -> ~ declares parser d tok) ->
  ns !! d = defaults parser !! d.
Proof.
  intros H Hno. apply parsed_inv in H as (_ & seen & Hc & _).
  eapply consume_inv_le in Hc as [_ H2]; [|done]. by apply H2.
Qed.
End Cli.

Ltac cases_of_parser H :=
  unfold create_argument_parser in H;
  repeat (apply elem_of_cons in H as [H|H]; [subst|]);
  [..|by apply elem_of_nil in H].

Ltac solve_declares :=
  let a := fresh "a" in let Hin := fresh "Hin" in
  let Hd := fresh "Hd" in let Ht := fresh "Ht" in
  intros (a & Hin & Hd & Ht);
  cases_of_parser Hin; simpl in Hd; try discriminate; simpl in Ht;
  repeat (apply elem_of_cons in Ht as [->|Ht]; [auto|]);
  by apply elem_of_nil in Ht.

Lemma declares_std (tok : string) :
  declares create_argument_parser "sample_to_dataset" tok ->
  tok = "-std" \/ tok = "--sample_to_dataset".
Proof. solve_declares. Qed.

Lemma declares_eqtl (tok : string) :
  declares create_argument_parser "eqtl" tok -> tok = "-eq" \/ tok = "--eqtl".
Proof. solve_declares. Qed.

Lemma declares_genotype (tok : string) :
  declares create_argument_parser "genotype" tok ->
  tok = "-ge" \/ tok = "--genotype".
Proof. solve_declares. Qed.

Lemma declares_expression (tok : string) :
  declares create_argument_parser "expression" tok ->
  tok = "-ex" \/ tok = "--expression".
Proof. solve_declares. Qed.

Lemma declares_covariate (tok : string) :
  declares create_argument_parser "covariate" tok ->
  tok = "-co" \/ tok = "--covariate".
Proof. solve_declares. Qed.

Lemma required_given (py_int : string -> option Z)
  (py_float : string -> option float) (argv : list string)
  (ns : gmap string value) (d short long : string) (a : argument) :
  parse_args py_int py_float create_argument_parser argv = Parsed ns ->
  a ∈ create_argument_parser -> required a = true -> dest a = d ->
  (forall tok, declares create_argument_parser d tok -> tok = short \/ tok = long) ->
  short ∈ argv \/ long ∈ argv.
Proof.
  intros H Hin Hreq Hd Hdecl.
  destruct (parsed_has _ _ _ _ _ _ H Hin Hreq) as (tok & Htok & Ht).
  rewrite Hd in Ht. destruct (Hdecl tok Ht) as [->| ->]; auto.
Qed.

(** C8.  On the command lines of the model, whose words are option
    strings written in full and the values they take: a command line
    that the parser accepts names the eQTL, the genotype, the expression
    and the covariate file, and when it has neither [-std] nor
    [--sample_to_dataset] it is accepted as well: the attribute
    [sample_to_dataset] is then [None]. *)
Theorem std_is_optional (py_int : string -> option Z)
  (py_float : string -> option float) (argv : list string)
  (ns : gmap string value) :
  parse_args py_int py_float create_argument_parser argv = Parsed ns ->
  supported create_argument_parser argv = true
  /\ ("-eq" ∈ argv \/ "--eqtl" ∈ argv)
  /\ ("-ge" ∈ argv \/ "--genotype" ∈ argv)
  /\ ("-ex" ∈ argv \/ "--expression" ∈ argv)
  /\ ("-co" ∈ argv \/ "--covariate" ∈ argv)
  /\ ("-std" ∉ argv -> "--sample_to_dataset" ∉ argv ->
      get_argument ns "sample_to_dataset" = VNone).
Proof.
  intros H. split; [by apply parsed_inv in H as [? _]|]. repeat split.
  - apply (required_given py_int py_float argv ns "eqtl" "-eq" "--eqtl"
             (Argument ["-eq"; "--eqtl"] "eqtl" (Store TStr) true VNone));
      [done| |done|done|apply declares_eqtl].
    unfold create_argument_parser. set_solver.
  - apply (required_given py_int py_float argv ns "genotype" "-ge" "--genotype"
             (Argument ["-ge"; "--genotype"] "genotype" (Store TStr) true VNone));
      [done| |done|done|apply declares_genotype].
    unfold create_argument_parser. set_solver.
  - apply (required_given py_int py_float argv ns "expression" "-ex" "--expression"
             (Argument ["-ex"; "--expression"] "expression" (Store TStr) true VNone));
      [done| |done|done|apply declares_expression].
    unfold create_argument_parser. set_solver.
  - apply (required_given py_int py_float argv ns "covariate" "-co" "--covariate"
             (Argument ["-co"; "--covariate"] "covariate" (Store TStr) true VNone));
      [done| |done|done|apply declares_covariate].
    unfold create_argument_parser. set_solver.
  - intros H1 H2. unfold get_argument.
    rewrite (parsed_default _ _ _ _ _ "sample_to_dataset" H).
    + reflexivity.
    + intros tok Htok Hd. apply declares_std in Hd as [->| ->]; done.
Qed.
(** ** Optimiser *)

Import InteractionOptimizer OptimizerSpec.

Section Selection.
Variable ieqtl_alpha : float.
Variable find_ieqtls : list float -> option string -> float -> mapping.

Lemma try_covariate_step (seen : list (string * list float)) (fd : found)
  (cand : string * list float) :
  selected_among ieqtl_alpha find_ieqtls seen fd -> is_Some (min_per_sample_of ieqtl_alpha find_ieqtls cand) ->
  exists fd', try_covariate ieqtl_alpha find_ieqtls (Some fd) cand = Some fd'
              /\ selected_among ieqtl_alpha find_ieqtls (seen ++ [cand]) fd'.
Proof.
  intros [Hmax Hsel] [m Hm].
  unfold try_covariate. simpl. destruct cand as [name cova_a].
  unfold min_per_sample_of in Hm. simpl in Hm. rewrite Hm. simpl.
  set (hits := map_n_hits (find_ieqtls cova_a (Some name) ieqtl_alpha)).
  destruct ((2 <=? m) && ((f_n_hits fd <? hits)
              || ((hits =? f_n_hits fd) && (f_min_n_hits_per_sample fd <? m))))%bool
    eqn:Hc.
  - eexists. split; [reflexivity|].
    apply andb_true_iff in Hc as [H2 Hc]. apply Z.leb_le in H2.
    split.
    + intros other mo Hin Hmo Hge. simpl.
      apply elem_of_app in Hin as [Hin|Hin].
      * destruct (Hmax other mo Hin Hmo Hge) as [Hlt|[Heq Hle]];
          apply orb_true_iff in Hc as [Hc|Hc];
          try apply Z.ltb_lt in Hc;
          try (apply andb_true_iff in Hc as [Hc1 Hc2];
               apply Z.eqb_eq in Hc1; apply Z.ltb_lt in Hc2);
          fold hits; lia.
      * apply list_elem_of_singleton in Hin as ->.
        unfold min_per_sample_of in Hmo. simpl in Hmo.
        rewrite Hm in Hmo. inversion Hmo; subst.
        right. split; [reflexivity|lia].
    + simpl. exists (name, cova_a). repeat split; try done.
      apply elem_of_app. right. by apply list_elem_of_singleton.
  - exists fd. split; [reflexivity|]. split.
    + intros other mo Hin Hmo Hge.
      apply elem_of_app in Hin as [Hin|Hin]; [by eapply Hmax|].
      apply list_elem_of_singleton in Hin as ->.
      unfold min_per_sample_of in Hmo. simpl in Hmo.
      rewrite Hm in Hmo. inversion Hmo; subst mo.
      unfold hits_of. simpl. fold hits.
      apply andb_false_iff in Hc as [Hc|Hc]; [apply Z.leb_gt in Hc; lia|].
      apply orb_false_iff in Hc as [Hc1 Hc2]. apply Z.ltb_ge in Hc1.
      apply andb_false_iff in Hc2 as [Hc2|Hc2].
      * apply Z.eqb_neq in Hc2. lia.
      * apply Z.ltb_ge in Hc2. lia.
    + destruct (f_cov fd); [|done].
      destruct Hsel as (c & Hin & ?). exists c. split; [|done].
      apply elem_of_app. by left.
Qed.

Lemma foldl_try_covariate (rest seen : list (string * list float)) (fd : found) :
  selected_among ieqtl_alpha find_ieqtls seen fd ->
  (forall cand, cand ∈ rest -> is_Some (min_per_sample_of ieqtl_alpha find_ieqtls cand)) ->
  exists fd', foldl (try_covariate ieqtl_alpha find_ieqtls) (Some fd) rest = Some fd'
              /\ selected_among ieqtl_alpha find_ieqtls (seen ++ rest) fd'.
Proof.
  revert seen fd. induction rest as [|cand rest IH]; intros seen fd Hinv Hmin.
  - exists fd. by rewrite app_nil_r.
  - destruct (try_covariate_step seen fd cand Hinv) as (fd1 & Hstep & Hinv1).
    { apply Hmin. left. }
    destruct (IH (seen ++ [cand]) fd1 Hinv1) as (fd' & Hfold & Hinv').
    { intros c Hc. apply Hmin. by right. }
    exists fd'. cbn [foldl]. rewrite Hstep. split; [done|].
    by rewrite <- app_assoc in Hinv'.
Qed.
End Selection.

(** C7.  With no context yet, the first iteration maps the ieQTLs with
    every candidate covariate.  The candidate it selects has at least
    two ieQTLs on each sample, and no candidate with at least two
    ieQTLs on each sample has more ieQTLs, or as many ieQTLs and a
    higher minimum per sample; when it selects none, no candidate has
    at least two ieQTLs on each sample.  For three candidates with 12,
    47 and 9 ieQTLs and minima per sample of 3, 5 and 0 it selects the
    second one, and so does [process]. *)
Theorem covariate_selection :
  (forall (ieqtl_alpha : float)
          (find_ieqtls : list float -> option string -> float -> mapping)
          (covs : list (string * list float)) (n_samples : nat),
      (forall cand, cand ∈ covs ->
                    is_Some (min_per_sample_of ieqtl_alpha find_ieqtls cand)) ->
      exists fd,
        find_significant ieqtl_alpha find_ieqtls covs (before_selection n_samples)
        = Some fd
        /\ match f_cov fd with
           | Some name =>
               exists cand m,
                 cand ∈ covs /\ fst cand = name
                 /\ f_context_a fd = Some (snd cand)
                 /\ f_n_hits fd = hits_of ieqtl_alpha find_ieqtls cand
                 /\ min_per_sample_of ieqtl_alpha find_ieqtls cand = Some m
                 /\ 2 <= m
                 /\ forall other mo,
                     other ∈ covs ->
                     min_per_sample_of ieqtl_alpha find_ieqtls other = Some mo ->
                     2 <= mo ->
                     hits_of ieqtl_alpha find_ieqtls other
                     < hits_of ieqtl_alpha find_ieqtls cand
                     \/ (hits_of ieqtl_alpha find_ieqtls other
                         = hits_of ieqtl_alpha find_ieqtls cand
                         /\ mo <= m)
           | None =>
               forall other mo,
                 other ∈ covs ->
                 min_per_sample_of ieqtl_alpha find_ieqtls other = Some mo ->
                 2 <= mo -> hits_of ieqtl_alpha find_ieqtls other < 0
           end)
  /\ (hits_of 0.05 Examples.three_mapping <$> Examples.three_candidates
      = [12; 47; 9]
      /\ min_per_sample_of 0.05 Examples.three_mapping <$> Examples.three_candidates
         = [Some 3; Some 5; Some 0]
      /\ (f_cov <$> find_significant 0.05 Examples.three_mapping
                      Examples.three_candidates (before_selection 2))
         = Some (Some "cov2")
      /\ (ret_cov <$> process 0.05 5 1 1e-3 Examples.three_mapping
                        Examples.three_candidates 2 0)
         = Some (Some "cov2")).
Proof.
  split; [|vm_compute; repeat split].
  intros alpha find covs n Hmin.
  destruct (foldl_try_covariate alpha find covs [] (before_selection n))
    as (fd & Hfold & Hmax & Hsel); [|done|].
  { split; [|done]. intros other mo Hin. by apply elem_of_nil in Hin. }
  exists fd. split; [done|].
  rewrite app_nil_l in Hmax.
  destruct (f_cov fd) as [name|].
  - destruct Hsel as (cand & Hin & Hname & Hctx & Hm & H2 & Hhits).
    exists cand, (f_min_n_hits_per_sample fd).
    repeat split; try done.
    intros other mo Hother Hmo Hge. rewrite <- Hhits. by eapply Hmax.
  - destruct Hsel as [Hn Hm]. intros other mo Hother Hmo Hge.
    destruct (Hmax other mo Hother Hmo Hge) as [Hlt|[_ Hle]]; lia.
Qed.

Lemma covariate_selection_witness :
  exists fd,
    find_significant 0.05 Examples.three_mapping Examples.three_candidates
      (before_selection 2) = Some fd
    /\ match f_cov fd with
       | Some name =>
           exists cand m,
             cand ∈ Examples.three_candidates /\ fst cand = name
             /\ f_context_a fd = Some (snd cand)
             /\ f_n_hits fd = hits_of 0.05 Examples.three_mapping cand
             /\ min_per_sample_of 0.05 Examples.three_mapping cand = Some m
             /\ 2 <= m
             /\ forall other mo,
                 other ∈ Examples.three_candidates ->
                 min_per_sample_of 0.05 Examples.three_mapping other = Some mo ->
                 2 <= mo ->
                 hits_of 0.05 Examples.three_mapping other
                 < hits_of 0.05 Examples.three_mapping cand
                 \/ (hits_of 0.05 Examples.three_mapping other
                     = hits_of 0.05 Examples.three_mapping cand
                     /\ mo <= m)
       | None =>
           forall other mo,
             other ∈ Examples.three_candidates ->
             min_per_sample_of 0.05 Examples.three_mapping other = Some mo ->
             2 <= mo -> hits_of 0.05 Examples.three_mapping other < 0
       end.
Proof.
  apply (proj1 covariate_selection 0.05%float Examples.three_mapping
           Examples.three_candidates 2%nat).
  intros cand Hin. unfold Examples.three_candidates in Hin.
  repeat (apply elem_of_cons in Hin as [->|Hin]; [vm_compute; eauto|]).
  by apply elem_of_nil in Hin.
Defined.

(** C4.  A run of [process] with the default settings that ends in
    iteration 5 because its new vector [X4] is the context of two
    iterations ago, while the context [X5] is not the context of three
    iterations ago: the vector it returns is the context [X5] that
    it optimised, not the new vector [X4]. *)
Theorem oscillation_returns_previous_context :
  exists r,
    process 0.05 5 100 1e-3 Examples.oscillating_mapping
      [("cov", Examples.X0)] 3 0 = Some r
    /\ iteration_df r
       = [Examples.X0; Examples.X1; Examples.X2; Examples.X3; Examples.X4;
          Examples.X5; Examples.X4]
    /\ PrimFloat.ltb (1 - calc_pearsonr_vector Examples.X4 Examples.X4) 1e-3 = true
    /\ PrimFloat.ltb (1 - calc_pearsonr_vector Examples.X3 Examples.X5) 1e-3 = false
    /\ ret_stop r = false
    /\ ret_n_hits r = 2
    /\ ret_context_a r = Some Examples.X5.
Proof. eexists. vm_compute. repeat split. Qed.
Import InteractionOptimizer.

Section Iterations.
Variable ieqtl_alpha : float.
Variable min_iter max_iter : Z.
Variable tol : float.
Variable find_ieqtls : list float -> option string -> float -> mapping.
Variable covs : list (string * list float).
Variable n_samples : nat.
Variable uninitialised : float.

Abbreviation body :=
  (iteration_body ieqtl_alpha min_iter tol find_ieqtls covs n_samples).

Lemma find_significant_context (fd fd' : found) :
  is_Some (f_context_a fd) ->
  find_significant ieqtl_alpha find_ieqtls covs fd = Some fd' ->
  f_context_a fd' = f_context_a fd.
Proof.
  intros [c Hc] H. unfold find_significant in H. rewrite Hc in H.
  simplify_option_eq. by rewrite Hc.
Qed.

Lemma iteration_body_context (iteration : nat) (st st' : state) (c : control) :
  iteration = 0%nat \/ is_Some (context_a st) ->
  body iteration st = Some (c, st') ->
  (is_Some (context_a st') \/ stop st' = false)
  /\ (c = Continue -> is_Some (context_a st')).
Proof.
  intros Hst H. unfold iteration_body in H.
  repeat (simplify_option_eq || case_match);
    try (split; [|done || (intros _; simpl; eauto)]); simpl; eauto;
    try (unfold abort in *; repeat case_match; simplify_eq; simpl; eauto; fail).
  all: unfold abort in *.
  all: repeat case_match; simplify_eq; simpl; eauto.
  all: try (left;
            match goal with
            | Hq : find_significant _ _ _ ?fd = Some ?fd' |- _ =>
                let Hs := fresh in
                assert (Hs : is_Some (f_context_a fd))
                  by (simpl;
                      try match goal with
                          | Hc : context_a _ = Some _ |- _ => rewrite Hc
                          end; eauto);
                rewrite (find_significant_context fd fd' Hs Hq)
            end; simpl; eauto; fail).
  all: destruct Hst as [->|[? Hs]]; [discriminate|congruence].
Qed.

Lemma iterate_context (iterations : list nat) (st st' : state) :
  is_Some (context_a st) ->
  iterate ieqtl_alpha min_iter tol find_ieqtls covs n_samples iterations st
  = Some st' ->
  is_Some (context_a st') \/ stop st' = false.
Proof.
  revert st. induction iterations as [|i rest IH]; intros st Hst H; simpl in H.
  - inversion H; subst. by left.
  - destruct (body i st) as [[[] st1]|] eqn:Hb; [| |discriminate].
    + eapply IH; [|done].
      by apply (iteration_body_context i st st1 Continue (or_intror Hst) Hb).
    + inversion H; subst.
      by apply (iteration_body_context i st st' Break (or_intror Hst) Hb).
Qed.

(** A run of at least one iteration that asks the driver to stop
    returns a context vector. *)
Lemma process_stop_has_context (r : result) :
  0 < max_iter ->
  process ieqtl_alpha min_iter max_iter tol find_ieqtls covs n_samples
    uninitialised = Some r ->
  ret_stop r = true -> is_Some (ret_context_a r).
Proof.
  intros Hmax H Hstop. unfold process in H.
  destruct (max_iter <? 0) eqn:Hneg; [discriminate|].
  destruct (Z.to_nat max_iter) as [|n] eqn:Hn; [lia|].
  simpl in H.
  destruct (body 0%nat _) as [[[] st1]|] eqn:Hb; simpl in H; try discriminate.
  - destruct (iterate _ _ _ _ _ _ _ st1) as [st'|] eqn:Hit; [|discriminate].
    simpl in H. inversion H; subst; simpl in *.
    destruct (iterate_context _ _ _
                (proj2 (iteration_body_context _ _ _ _ (or_introl eq_refl) Hb)
                   eq_refl) Hit); [done|congruence].
  - inversion H; subst; simpl in *.
    destruct (proj1 (iteration_body_context _ _ _ _ (or_introl eq_refl) Hb));
      [done|congruence].
Qed.
End Iterations.
(** ** Quality control *)

Import Main QualityControlSpec.

(** *** Order of floats *)

Lemma SFcompare_antisym (x y : spec_float) (c : comparison) :
  SFcompare x y = Some c -> SFcompare y x = Some (CompOpp c).
Proof.
  assert (Hpos : forall p q, Pos.compare_cont Eq q p
                             = CompOpp (Pos.compare_cont Eq p q)).
  { intros p q. symmetry. apply (Pos.compare_cont_antisym p q Eq). }
  destruct x as [sx|sx| |sx mx ex], y as [sy|sy| |sy my ey]; simpl;
    try discriminate;
    try (destruct sx); try (destruct sy); simpl;
    try (intros H; inversion H; subst; reflexivity);
    rewrite (Z.compare_antisym ex ey);
    destruct (ex ?= ey) eqn:He; simpl;
    intros H; inversion H; subst; try reflexivity;
    by rewrite (Hpos mx my).
Qed.

Lemma geb_not_ltb (x y : float) : geb x y = true -> PrimFloat.ltb x y = false.
Proof.
  unfold geb. rewrite FloatAxioms.leb_spec, FloatAxioms.ltb_spec.
  unfold SFleb, SFltb.
  destruct (SFcompare (Prim2SF y) (Prim2SF x)) as [c|] eqn:Hc; [|discriminate].
  apply SFcompare_antisym in Hc. rewrite Hc.
  destruct c; simpl; congruence.
Qed.

(** Two floats that compare equal are the same float, or two zeros. *)
Lemma eqb_cases (x y : float) :
  PrimFloat.eqb x y = true ->
  x = y \/ (exists s s', Prim2SF x = S754_zero s /\ Prim2SF y = S754_zero s').
Proof.
  rewrite FloatAxioms.eqb_spec. unfold SFeqb.
  destruct (Prim2SF x) as [sx|sx| |sx mx ex] eqn:Hx,
           (Prim2SF y) as [sy|sy| |sy my ey] eqn:Hy; simpl;
    try discriminate; try (destruct sx; discriminate);
    try (destruct sy; discriminate).
  - intros _. right. eauto.
  - intros H. left. apply Prim2SF_inj. rewrite Hx, Hy.
    destruct sx, sy; try discriminate; reflexivity.
  - intros H. left. apply Prim2SF_inj. rewrite Hx, Hy.
    destruct sx, sy; try discriminate;
      destruct (ex ?= ey) eqn:He; try discriminate;
      apply Z.compare_eq in He; subst ey;
      destruct (Pos.compare_cont Eq mx my) eqn:Hm; try discriminate;
      apply Pos.compare_eq in Hm; by subst.
Qed.

(** A value that compares equal to a whole number is rounded to it. *)
Lemma rint_eqb (x y : float) :
  PrimFloat.eqb (rint y) y = true -> PrimFloat.eqb x y = true ->
  PrimFloat.eqb (rint x) y = true.
Proof.
  intros Hy Hx. destruct (eqb_cases x y Hx) as [->|(s & s' & Hs & Hs')];
    [done|].
  rewrite FloatAxioms.eqb_spec, Hs'.
  assert (Hz : exists t, Prim2SF (rint x) = S754_zero t).
  { rewrite <- (SF2Prim_Prim2SF x), Hs. destruct s; vm_compute; eauto. }
  destruct Hz as [t ->]. reflexivity.
Qed.

(** *** Counting *)

Lemma count_true_filter {A} (p : A -> bool) (l : list A) :
  count_true (p <$> l) = Z.of_nat (length (List.filter p l)).
Proof.
  unfold count_true. f_equal.
  induction l as [|x l IH]; [done|].
  rewrite fmap_cons. cbn [List.filter]. unfold id at 1.
  destruct (p x); simpl; by rewrite IH.
Qed.

Lemma filter_length_negb {A} (p : A -> bool) (l : list A) :
  (length (List.filter p l) + length (List.filter (fun x => negb (p x)) l)
   = length l)%nat.
Proof.
  induction l as [|x l IH]; [done|]. simpl.
  destruct (p x); simpl; lia.
Qed.

Lemma select_filter {A} (p : A -> bool) (l : list A) :
  select (p <$> l) l = List.filter p l.
Proof.
  unfold select. induction l as [|x l IH]; [done|].
  change (snd <$> List.filter fst ((p x, x) :: zip (p <$> l) l)
          = List.filter p (x :: l)).
  cbn [List.filter fst]. destruct (p x); [|exact IH].
  rewrite fmap_cons. cbn [snd]. f_equal. exact IH.
Qed.

(** The selection with a mask computed from the rows, on the labels
    of the rows. *)
Lemma select_zip {A B} (p : B -> bool) (labels : list A) (rows : list B) :
  select (p <$> rows) labels
  = fst <$> List.filter (fun lr => p (snd lr)) (zip labels rows).
Proof.
  unfold select. revert labels.
  induction rows as [|r rows IH]; intros [|l labels]; try done.
  rewrite fmap_cons.
  change (zip (p r :: (p <$> rows)) (l :: labels))
    with ((p r, l) :: zip (p <$> rows) labels).
  change (zip (l :: labels) (r :: rows)) with ((l, r) :: zip labels rows).
  cbn [List.filter fst snd]. destruct (p r); [|apply IH].
  rewrite !fmap_cons. cbn [fst snd]. f_equal. apply IH.
Qed.

Lemma filter_ext_bool {A} (p q : A -> bool) (l : list A) :
  (forall x, p x = q x) -> List.filter p l = List.filter q l.
Proof.
  intros H. induction l as [|x l IH]; [done|]. simpl.
  by rewrite H, IH.
Qed.

(** *** The criteria of a row *)

Section Criteria.
Variable cfg : settings.
Variable calc_hwe_pvalue : Z -> Z -> Z -> float.

(** The counts that [calculate_genotype_stats] takes are those of the
    groups of the row. *)
Lemma count_group (g : float) (row : list float) :
  count_true ((fun x => PrimFloat.eqb x g) <$> (rint <$> row))
  = group_size g row.
Proof.
  rewrite <- list_fmap_compose. apply count_true_filter.
Qed.

Lemma calculate_genotype_stats_spec (row : list float) :
  stat_N (calculate_genotype_stats cfg calc_hwe_pvalue row)
  = float_of_Z (non_missing (na cfg) row)
  /\ stat_min_GS (calculate_genotype_stats cfg calc_hwe_pvalue row)
     = float_of_Z (min_group_size row)
  /\ stat_HW_pval (calculate_genotype_stats cfg calc_hwe_pvalue row)
     = hardy_weinberg calc_hwe_pvalue row
  /\ stat_MAF (calculate_genotype_stats cfg calc_hwe_pvalue row)
     = minor_allele_frequency row.
Proof.
  unfold calculate_genotype_stats. cbv zeta. cbn [stat_N stat_min_GS
    stat_HW_pval stat_MAF]. rewrite !count_group.
  unfold min_group_size, hardy_weinberg, minor_allele_frequency. cbv zeta.
  rewrite !(Z.mul_comm (group_size _ row) 2). repeat split.
  f_equal. unfold non_missing, group_size.
  rewrite length_fmap.
  pose proof (filter_length_negb
                (fun x => PrimFloat.eqb (rint x) (na cfg)) row).
  lia.
Qed.

(** A row without any genotype has no sample that counts. *)
Lemma cr_keep_false_non_missing (row : list float) :
  PrimFloat.eqb (rint (na cfg)) (na cfg) = true ->
  cr_keep cfg row = false -> non_missing (na cfg) row = 0.
Proof.
  intros Hna Hcr. unfold cr_keep in Hcr. apply negb_false_iff in Hcr.
  unfold non_missing.
  replace (List.filter _ row) with (@nil float); [done|].
  induction row as [|x row IH]; [done|]. simpl in Hcr.
  apply andb_true_iff in Hcr as [Hx Hrow]. cbn [List.filter].
  unfold is_na in Hx. rewrite (rint_eqb x (na cfg) Hna Hx). simpl.
  by apply IH.
Qed.

(** The mask of the rows to keep is the criteria of the rows. *)
Lemma combined_keep_meets_criteria (row : list float) :
  mgs cfg = 2 -> hw_pval cfg = 1e-4%float -> maf cfg = 0.01%float ->
  PrimFloat.eqb (rint (na cfg)) (na cfg) = true ->
  combined_keep cfg calc_hwe_pvalue row
  = meets_criteria (na cfg) calc_hwe_pvalue row.
Proof.
  intros Hmgs Hhw Hmaf Hna. unfold combined_keep, meets_criteria. cbv zeta.
  rewrite Hmgs, Hhw, Hmaf. change (float_of_Z 2) with 2%float.
  unfold geno_stats_row. destruct (cr_keep cfg row) eqn:Hcr.
  - destruct (calculate_genotype_stats_spec row) as (-> & -> & -> & ->).
    reflexivity.
  - by rewrite (cr_keep_false_non_missing row Hna Hcr).
Qed.

(** C6.  With the default thresholds and a whole number as the code of
    a missing genotype, the quality control hands on exactly the
    genotype rows that, as the call-rate masking left them, have at
    least 6 samples with a genotype, at least 2 samples in the smallest
    of the genotype groups 0, 1 and 2, a Hardy-Weinberg p-value of at
    least 1e-4 and a minor allele frequency greater than 0.01, together
    with their eQTLs and their labels, in the order of the table (the
    eQTL table has one row for every genotype row, else the selection
    raises); the mask it returns says for every row whether it is
    handed on.  A row
    whose smallest group has exactly 2 samples and that meets the other
    three criteria is kept; a row whose smallest group has 1 sample or
    none is dropped, and so is a row with fewer than 6 samples with a
    genotype. *)
Theorem qc_keeps_row {A} (eqtls : list A) (geno : DataFrame)
  (dataset_df : list (string * list bool)) (fs fs' : files)
  (kept : list A) (geno' : DataFrame) (mask : list bool) :
  mgs cfg = 2 -> hw_pval cfg = 1e-4%float -> maf cfg = 0.01%float ->
  PrimFloat.eqb (rint (na cfg)) (na cfg) = true ->
  quality_control cfg calc_hwe_pvalue eqtls geno dataset_df fs
  = Next (kept, geno', mask) fs' ->
  let masked := (calculate_call_rate cfg (values geno) dataset_df).1 in
  values geno' = List.filter (meets_criteria (na cfg) calc_hwe_pvalue) masked
  /\ kept = retained (na cfg) calc_hwe_pvalue eqtls masked
  /\ index geno' = retained (na cfg) calc_hwe_pvalue (index geno) masked
  /\ length mask = length masked
  /\ length eqtls = length masked
  /\ forall i row,
      masked !! i = Some row ->
      (mask !! i = Some true <->
         geb (float_of_Z (non_missing (na cfg) row)) 6 = true
         /\ geb (float_of_Z (min_group_size row)) 2 = true
         /\ geb (hardy_weinberg calc_hwe_pvalue row) 1e-4 = true
         /\ gtb (minor_allele_frequency row) 0.01 = true)
      /\ (mask !! i = Some false <->
            ~ (geb (float_of_Z (non_missing (na cfg) row)) 6 = true
               /\ geb (float_of_Z (min_group_size row)) 2 = true
               /\ geb (hardy_weinberg calc_hwe_pvalue row) 1e-4 = true
               /\ gtb (minor_allele_frequency row) 0.01 = true))
      /\ (min_group_size row = 2 ->
          geb (float_of_Z (non_missing (na cfg) row)) 6 = true ->
          geb (hardy_weinberg calc_hwe_pvalue row) 1e-4 = true ->
          gtb (minor_allele_frequency row) 0.01 = true ->
          mask !! i = Some true)
      /\ (min_group_size row <= 1 -> mask !! i = Some false)
      /\ (non_missing (na cfg) row < 6 -> mask !! i = Some false).
Proof.
  intros Hmgs Hhw Hmaf Hna. unfold quality_control.
  destruct (calculate_call_rate cfg (values geno) dataset_df)
    as [geno_m call_rate_m].
  unfold bind, save, ret, raise. cbn [fst].
  destruct (forallb _ geno_m); [discriminate|].
  destruct (bool_decide (length eqtls = length geno_m)) eqn:Hlen;
    [|discriminate].
  apply bool_decide_eq_true in Hlen. cbn [negb].
  intros H. simplify_eq. cbn [values index].
  assert (Hkeep : forall row,
             combined_keep cfg calc_hwe_pvalue row
             = meets_criteria (na cfg) calc_hwe_pvalue row)
    by (intros row; by apply combined_keep_meets_criteria).
  split.
  { rewrite select_filter. by apply filter_ext_bool. }
  split.
  { unfold retained. rewrite select_zip. f_equal.
    apply filter_ext_bool. intros lr. apply Hkeep. }
  split.
  { unfold retained. rewrite select_zip. f_equal.
    apply filter_ext_bool. intros lr. apply Hkeep. }
  split; [apply length_fmap|]. split; [done|].
  intros i row Hrow. rewrite list_lookup_fmap, Hrow. cbn [fmap option_fmap
    option_map]. rewrite Hkeep. unfold meets_criteria.
  assert (Hiff : forall b : bool, Some b = Some true <-> b = true)
    by (intros b; split; [by intros [= ->]|by intros ->]).
  assert (Hnot : forall b : bool, Some b = Some false <-> b <> true).
  { intros b. split; [intros [= ->]; discriminate|].
    by destruct b; [intros []|]. }
  rewrite Hiff, Hnot, !andb_true_iff.
  split; [tauto|]. split; [tauto|]. split; [|split].
  - intros -> HN Hp Hf. by rewrite HN, Hp, Hf.
  - intros Hle [[[_ H] _] _].
    assert (Hge : 0 <= min_group_size row)
      by (unfold min_group_size, group_size; lia).
    assert (Hcases : min_group_size row = 0 \/ min_group_size row = 1)
      by lia.
    destruct Hcases as [Hm|Hm]; rewrite Hm in H; vm_compute in H;
      discriminate.
  - intros Hlt [[[H _] _] _].
    assert (Hge : 0 <= non_missing (na cfg) row)
      by (unfold non_missing; lia).
    assert (Hcases : non_missing (na cfg) row = 0
                     \/ non_missing (na cfg) row = 1
                     \/ non_missing (na cfg) row = 2
                     \/ non_missing (na cfg) row = 3
                     \/ non_missing (na cfg) row = 4
                     \/ non_missing (na cfg) row = 5) by lia.
    destruct Hcases as [Hm|[Hm|[Hm|[Hm|[Hm|Hm]]]]]; rewrite Hm in H;
      vm_compute in H; discriminate.
Qed.
End Criteria.

Lemma qc_keeps_row_witness :
  exists kept geno' mask fs',
    quality_control (Examples.default_settings 1 false) Examples.hwe_one
      (eqtl_df Examples.two_eqtls)
      Examples.boundary_genotypes
      (construct_dataset_df ((fun s => (s, "A")) <$> Examples.six_samples)) ∅
    = Next (kept, geno', mask) fs'
    /\ values geno' = [[0; 0; 1; 1; 2; 2]%float]
    /\ mask = [true; false]
    /\ (SNPName <$> kept) = ["rs1"].
Proof.
  eexists _, _, _, _. split; [vm_compute; reflexivity|].
  edestruct (qc_keeps_row (Examples.default_settings 1 false)
               Examples.hwe_one (eqtl_df Examples.two_eqtls)
               Examples.boundary_genotypes
               (construct_dataset_df
                  ((fun s => (s, "A")) <$> Examples.six_samples)) ∅)
    as (Hv & Hk & _);
    [reflexivity|reflexivity|reflexivity|reflexivity|vm_compute; reflexivity|].
  split; [|split].
  - rewrite Hv. vm_compute. reflexivity.
  - reflexivity.
  - rewrite Hk. vm_compute. reflexivity.
Defined.

(** Rows with a smallest genotype group of two samples and of one
    sample, all other criteria being met. *)
Example min_group_size_boundary :
  min_group_size [0; 0; 1; 1; 2; 2]%float = 2
  /\ combined_keep (Examples.default_settings 2 true) Examples.hwe_one
       [0; 0; 1; 1; 2; 2]%float = true
  /\ min_group_size [0; 0; 0; 1; 1; 1; 2]%float = 1
  /\ combined_keep (Examples.default_settings 2 true) Examples.hwe_one
       [0; 0; 0; 1; 1; 1; 2]%float = false.
Proof. vm_compute. repeat split. Qed.
(** ** Driver: how the process ends *)

Import InteractionOptimizer Main DriverSpec.
#[local] Open Scope driver_scope.

Lemma ewz_ret {A} (a : A) : exits_with_zero (ret a).
Proof. by intros fs. Qed.

Lemma ewz_bind {A B} (m : M A) (k : A -> M B) :
  exits_with_zero m -> (forall a, exits_with_zero (k a)) ->
  exits_with_zero (bind m k).
Proof.
  intros Hm Hk fs. unfold bind. specialize (Hm fs).
  destruct (m fs) as [a fs'|o]; [apply Hk|done].
Qed.

Lemma ewz_exit_none {A} : exits_with_zero (@exit A None).
Proof. by intros fs. Qed.

Lemma ewz_raise {A} : exits_with_zero (@raise A).
Proof. by intros fs. Qed.

Lemma ewz_try {A} (o : option A) : exits_with_zero (try o).
Proof. destruct o; [apply ewz_ret|apply ewz_raise]. Qed.

Lemma ewz_save (path : string) (f : file) : exits_with_zero (save path f).
Proof. by intros fs. Qed.

Lemma ewz_read (path : string) : exits_with_zero (read path).
Proof. by intros fs. Qed.

Create HintDb ewz.
#[local] Hint Resolve ewz_ret ewz_exit_none ewz_raise ewz_try ewz_save ewz_read
  : ewz.

(** Sequences, branches and matches of clean computations. *)
Ltac ewz_step :=
  first
    [ solve [auto with ewz]
    | apply ewz_bind; [|intros ?]
    | match goal with
      | |- exits_with_zero (if ?b then _ else _) => destruct b
      | |- exits_with_zero (match ?x with _ => _ end) => destruct x
      end ].

Ltac ewz := repeat ewz_step.

Lemma validate_data_ewz std eqtls geno expr covs tcovs :
  exits_with_zero (validate_data std eqtls geno expr covs tcovs).
Proof. unfold validate_data. ewz. Qed.
#[local] Hint Resolve validate_data_ewz : ewz.

Section Clean.
Variable cfg : settings.
Variable calc_hwe_pvalue : Z -> Z -> Z -> float.
Variable pandas_std : list float -> float.
Variable remove_covariates :
  list (list float) -> option (list (list float)) ->
  option (list (list float)) -> list (list float) -> list (list float).
Variable map_interactions :
  list (string * string) -> list (list float) -> list (list float) ->
  list float -> option string -> float -> mapping.
Variable uninitialised : float.

Lemma quality_control_ewz {A} (eqtls : list A) geno dataset_df :
  exits_with_zero (quality_control cfg calc_hwe_pvalue eqtls geno dataset_df).
Proof. unfold quality_control. ewz. Qed.

Lemma load_tech_cov_ewz df std :
  exits_with_zero (load_tech_cov pandas_std df std).
Proof. unfold load_tech_cov. ewz. Qed.

Lemma save_process_tables_ewz comp_count samples r :
  exits_with_zero (save_process_tables comp_count samples r).
Proof. unfold save_process_tables. ewz. Qed.
#[local] Hint Resolve quality_control_ewz load_tech_cov_ewz save_process_tables_ewz : ewz.

Lemma identify_pic_ewz samples eqtl_m geno_m expr_m covs comp_count st :
  exits_with_zero
    (identify_pic cfg remove_covariates map_interactions uninitialised
       samples eqtl_m geno_m expr_m covs comp_count st).
Proof. unfold identify_pic. ewz. Qed.
#[local] Hint Resolve identify_pic_ewz : ewz.

Lemma identify_pics_ewz samples eqtl_m geno_m expr_m covs comp_counts :
  forall st,
    exits_with_zero
      (identify_pics cfg remove_covariates map_interactions uninitialised
         samples eqtl_m geno_m expr_m covs comp_counts st).
Proof.
  induction comp_counts as [|k rest IH]; intros st; simpl; ewz.
Qed.

Lemma map_pics_ewz eqtl_m geno_m corrected pics_df :
  forall summary,
    exits_with_zero
      (map_pics cfg map_interactions eqtl_m geno_m corrected pics_df summary).
Proof.
  induction pics_df as [|[i [pic a]] rest IH]; intros summary; simpl; ewz.
  all: try apply IH.
Qed.
#[local] Hint Resolve identify_pics_ewz map_pics_ewz : ewz.

Lemma finish_ewz eqtl_m geno_m expr_m corr_m corr_inter_m st :
  exits_with_zero
    (finish cfg remove_covariates map_interactions eqtl_m geno_m expr_m
       corr_m corr_inter_m st).
Proof. unfold finish. ewz. Qed.
#[local] Hint Resolve finish_ewz : ewz.

End Clean.
(** *** File names *)

Lemma last_char_app (s t : string) :
  t <> EmptyString -> last_char (s +:+ t) = last_char t.
Proof.
  intros Ht. induction s as [|c s IH]; [done|].
  change (String c s +:+ t) with (String c (s +:+ t)).
  simpl. rewrite IH.
  destruct (s +:+ t) eqn:E; [|done].
  destruct s as [|c' s]; [by change (t = EmptyString) in E|].
  change (String c' (s +:+ t) = EmptyString) in E. discriminate.
Qed.

Lemma component_path_last (k : nat) : last_char (component_path k) = Some "y"%char.
Proof.
  unfold component_path, pic_name.
  rewrite last_char_app; [reflexivity|discriminate].
Qed.

Lemma lookup_insert_gz (fs : files) (p q : string) (f : file) :
  last_char p = Some "z"%char -> last_char q <> Some "z"%char ->
  (<[p := f]> fs) !! q = fs !! q.
Proof. intros Hp Hq. apply lookup_insert_ne. congruence. Qed.

(** The tables of the optimiser leave the files untouched whose name
    does not end in [z]. *)
Lemma save_process_tables_next (comp_count : nat) (samples : list string)
  (r : result) (fs : files) :
  exists fs',
    save_process_tables comp_count samples r fs = Next tt fs'
    /\ forall q, last_char q <> Some "z"%char -> fs' !! q = fs !! q.
Proof.
  unfold save_process_tables, bind, save, ret.
  destruct (n_hits_per_sample_df r), (info_df r); eexists; (split; [reflexivity|]);
    intros q Hq;
    repeat (rewrite lookup_insert_gz;
            [|unfold pic_name; rewrite !last_char_app; [reflexivity|discriminate..]
             |done]);
    done.
Qed.
(** ** Driver: the loop over the components *)

Section Component.
Variable cfg : settings.
Variable remove_covariates :
  list (list float) -> option (list (list float)) ->
  option (list (list float)) -> list (list float) -> list (list float).
Variable map_interactions :
  list (string * string) -> list (list float) -> list (list float) ->
  list float -> option string -> float -> mapping.
Variable uninitialised : float.
Variable samples : list string.
Variable eqtl_m : list (string * string).
Variable geno_m expr_m : list (list float).
Variable covs : list (string * list float).

Abbreviation pic_body :=
  (identify_pic cfg remove_covariates map_interactions uninitialised samples
     eqtl_m geno_m expr_m covs).

Abbreviation pic_optimiser :=
  (optimise cfg remove_covariates map_interactions uninitialised samples
     eqtl_m geno_m expr_m covs).

Lemma identify_pic_halts (comp_count : nat) (st : pics) (fs : files) :
  stop st = true -> force_continue cfg = false ->
  pic_body comp_count st fs = Next (Break, st) fs.
Proof. intros Hs Hf. unfold identify_pic. by rewrite Hs, Hf. Qed.

Lemma identify_pic_computed (comp_count : nat) (st : pics) (fs : files)
  (r : result) :
  (stop st && negb (force_continue cfg))%bool = false ->
  fs !! component_path comp_count = None ->
  pic_optimiser st = Some r ->
  exists fs1,
    (forall q, last_char q <> Some "z"%char -> fs1 !! q = fs !! q)
    /\ pic_body comp_count st fs =
       let summary :=
         set_cell comp_count 0 (float_of_Z (ret_n_hits r)) (summary_stats_m st) in
       match ret_context_a r with
       | None =>
           Next (Break,
                 Pics (pic_m st) summary (n_components_performed st) None
                   (ret_stop r) (corrections st).1 (corrections st).2
                   (components_df st)) fs1
       | Some a =>
           match set_row comp_count a (pic_m st) with
           | None => Stop (Uncaught fs1)
           | Some pic_m' =>
               let n := S (n_components_performed st) in
               Next (Continue,
                     Pics pic_m' summary n (Some a) (ret_stop r)
                       (corrections st).1 (corrections st).2
                       (Some (components_table samples n pic_m')))
                 (<["components.txt.gz" :=
                      Table (components_table samples n pic_m')]>
                    (<[component_path comp_count := Npy a]> fs1))
           end
       end.
Proof.
  intros Htop Hfs Hr.
  destruct (save_process_tables_next comp_count samples r fs)
    as (fs1 & Hsave & Hframe).
  exists fs1. split; [done|].
  unfold identify_pic. rewrite Htop.
  unfold optimise, corrections in *.
  destruct (pic_a st) as [prev|]; simpl in Hr |- *;
    unfold bind, read; rewrite Hfs; unfold try; rewrite Hr;
    unfold ret; rewrite Hsave;
    (destruct (ret_context_a r) as [a|]; [|reflexivity]);
    (destruct (set_row comp_count a (pic_m st)) as [pic_m'|]; reflexivity).
Qed.

Lemma identify_pic_loaded (comp_count : nat) (st : pics) (fs : files)
  (a : list float) (c : control) (st' : pics) (fs' : files) :
  (stop st && negb (force_continue cfg))%bool = false ->
  fs !! component_path comp_count = Some (Npy a) ->
  pic_body comp_count st fs = Next (c, st') fs' ->
  c = Continue /\ stop st' = stop st
  /\ n_components_performed st' = S (n_components_performed st).
Proof.
  intros Htop Hfs H. unfold identify_pic in H. rewrite Htop in H.
  destruct (pic_a st) as [prev|];
    unfold bind, read in H; rewrite Hfs in H;
    unfold try, ret, raise, save, bind in H;
    repeat (case_match; simplify_eq); done.
Qed.
End Component.
Section Driver.
Variable cfg : settings.
Variable remove_covariates :
  list (list float) -> option (list (list float)) ->
  option (list (list float)) -> list (list float) -> list (list float).
Variable map_interactions :
  list (string * string) -> list (list float) -> list (list float) ->
  list float -> option string -> float -> mapping.
Variable uninitialised : float.
Variable samples : list string.
Variable eqtl_m : list (string * string).
Variable geno_m expr_m : list (list float).
Variable covs : list (string * list float).

Abbreviation the_body :=
  (identify_pic cfg remove_covariates map_interactions uninitialised samples
     eqtl_m geno_m expr_m covs).

Abbreviation the_loop :=
  (identify_pics cfg remove_covariates map_interactions uninitialised samples
     eqtl_m geno_m expr_m covs).

Abbreviation the_optimiser :=
  (optimise cfg remove_covariates map_interactions uninitialised samples
     eqtl_m geno_m expr_m covs).

Abbreviation the_end :=
  (finish cfg remove_covariates map_interactions eqtl_m geno_m expr_m).

Lemma identify_pics_cons (comp_count : nat) (rest : list nat) (st : pics)
  (fs : files) :
  the_loop (comp_count :: rest) st fs =
    match the_body comp_count st fs with
    | Next (Break, st') fs' => Next st' fs'
    | Next (Continue, st') fs' => the_loop rest st' fs'
    | Stop o => Stop o
    end.
Proof.
  simpl. unfold bind.
  destruct (identify_pic _ _ _ _ _ _ _ _ _ _ _ _) as [[[] st'] fs'|o]; reflexivity.
Qed.

(** *** A component that the optimiser gives up at once *)

Lemma identify_pics_no_component (comp_count : nat) (rest : list nat)
  (st : pics) (fs : files) (r : result) :
  stop st = false ->
  fs !! component_path comp_count = None ->
  the_optimiser st = Some r -> ret_context_a r = None ->
  exists fs',
    the_loop (comp_count :: rest) st fs =
      Next (Pics (pic_m st)
              (set_cell comp_count 0 (float_of_Z (ret_n_hits r))
                 (summary_stats_m st))
              (n_components_performed st) None (ret_stop r)
              (corrections st).1 (corrections st).2 (components_df st)) fs'
    /\ forall k, fs' !! component_path k = fs !! component_path k.
Proof.
  intros Hstop Hfs Hr Hnone.
  destruct (identify_pic_computed cfg remove_covariates map_interactions
              uninitialised samples eqtl_m geno_m expr_m covs comp_count st fs r)
    as (fs1 & Hframe & Hbody); [by rewrite Hstop|done|done|].
  exists fs1. split.
  - rewrite identify_pics_cons, Hbody. cbv zeta. by rewrite Hnone.
  - intros k. apply Hframe. by rewrite component_path_last.
Qed.

Lemma finish_no_pics (corr_m corr_inter_m : option (list (list float)))
  (st : pics) (fs : files) :
  n_components_performed st = 0%nat ->
  the_end corr_m corr_inter_m st fs =
    Stop (Exited 0 (<["SummaryStats.txt.gz" :=
                       summary_stats_df cfg (summary_stats_m st)]> fs)).
Proof. intros H. unfold finish. by rewrite H. Qed.

(** *** The component that did not converge *)

Lemma components_is_not_a_component (k : nat) :
  "components.txt.gz" <> component_path k.
Proof.
  intros H. apply (f_equal last_char) in H.
  rewrite component_path_last in H. discriminate.
Qed.

Lemma identify_pic_inv (k : nat) (st : pics) (fs : files) (c : control)
  (st' : pics) (fs' : files) :
  force_continue cfg = false -> 0 < max_iter cfg ->
  last_is_unconverged samples k st fs ->
  the_body k st fs = Next (c, st') fs' ->
  match c with
  | Break => last_is_unconverged samples k st' fs'
  | Continue => last_is_unconverged samples (S k) st' fs'
  end.
Proof.
  intros Hforce Hmax [Hk Hinv] H.
  destruct (stop st) eqn:Hstop.
  { rewrite identify_pic_halts in H by done. simplify_eq.
    split; [done|]. intros _. by apply Hinv. }
  assert (Htop : (stop st && negb (force_continue cfg))%bool = false)
    by by rewrite Hstop.
  destruct (fs !! component_path k) as [[a|df]|] eqn:Hfs.
  - destruct (identify_pic_loaded _ _ _ _ _ _ _ _ _ _ _ _ _ _ _ _ Htop Hfs H)
      as (-> & Hs & Hn).
    split; [lia|]. rewrite Hs, Hstop. discriminate.
  - unfold identify_pic in H. rewrite Htop in H.
    destruct (pic_a st); unfold bind, read in H; rewrite Hfs in H; discriminate.
  - destruct (the_optimiser st) as [r|] eqn:Hr.
    + destruct (identify_pic_computed cfg remove_covariates map_interactions
                  uninitialised samples eqtl_m geno_m expr_m covs k st fs r)
        as (fs1 & Hframe & Hbody); [done..|].
      rewrite Hbody in H. cbv zeta in H.
      destruct (ret_context_a r) as [a|] eqn:Ha.
      * destruct (set_row k a (pic_m st)) as [pic_m'|] eqn:Hrow; [|discriminate].
        simplify_eq. split; [simpl; lia|]. simpl. intros _.
        exists (n_components_performed st), a, (pic_m st).
        repeat split; try done.
        -- rewrite lookup_insert_ne by apply components_is_not_a_component.
           apply lookup_insert_eq.
        -- apply lookup_insert_eq.
      * simplify_eq. split; [done|]. simpl. intros Hs.
        destruct (process_stop_has_context _ _ _ _ _ _ _ _ r Hmax Hr Hs)
          as [a Hsome].
        congruence.
    + unfold identify_pic in H. rewrite Htop in H.
      unfold optimise, corrections in Hr.
      destruct (pic_a st); simpl in Hr; unfold bind, read in H;
        rewrite Hfs in H; unfold try in H; rewrite Hr in H; discriminate.
Qed.

Lemma identify_pics_inv (n : nat) :
  forall k st fs st' fs',
    force_continue cfg = false -> 0 < max_iter cfg ->
    last_is_unconverged samples k st fs ->
    the_loop (seq k n) st fs = Next st' fs' ->
    exists k', last_is_unconverged samples k' st' fs'.
Proof.
  induction n as [|n IH]; intros k st fs st' fs' Hforce Hmax Hinv H.
  - simpl in H. unfold ret in H. simplify_eq. eauto.
  - change (seq k (S n)) with (k :: seq (S k) n) in H.
    rewrite identify_pics_cons in H.
    destruct (the_body k st fs) as [[[] st1] fs1|o] eqn:Hb; [| |discriminate].
    + eapply IH; [done..| |done].
      by apply (identify_pic_inv k st fs Continue st1 fs1).
    + simplify_eq. exists k.
      by apply (identify_pic_inv k st fs Break st' fs').
Qed.
End Driver.
Section Finish.
Variable cfg : settings.
Variable remove_covariates :
  list (list float) -> option (list (list float)) ->
  option (list (list float)) -> list (list float) -> list (list float).
Variable map_interactions :
  list (string * string) -> list (list float) -> list (list float) ->
  list float -> option string -> float -> mapping.
Variable eqtl_m : list (string * string).
Variable geno_m expr_m : list (list float).

Lemma map_pics_next (corrected : list (list float))
  (pics_df : list (nat * (string * list float))) :
  forall summary fs,
    exists summary' fs',
      map_pics cfg map_interactions eqtl_m geno_m corrected pics_df summary fs
      = Next summary' fs'
      /\ forall q,
          (forall pic, q <> "PIC_interactions/" +:+ pic +:+ ".txt.gz") ->
          fs' !! q = fs !! q.
Proof.
  induction pics_df as [|[i [pic a]] rest IH]; intros summary fs.
  - exists summary, fs. by split.
  - simpl. unfold bind, save.
    edestruct IH as (summary' & fs' & Hmap & Hframe).
    exists summary', fs'. split; [exact Hmap|].
    intros q Hq. rewrite Hframe by done. by apply lookup_insert_ne.
Qed.

Lemma interactions_last (pic : string) :
  last_char ("PIC_interactions/" +:+ pic +:+ ".txt.gz") = Some "z"%char.
Proof.
  rewrite last_char_app by (by destruct pic).
  rewrite last_char_app; [reflexivity|discriminate].
Qed.

Lemma finish_unconverged (corr_m corr_inter_m : option (list (list float)))
  (st : pics) (fs : files) (j : nat) (a : list float) (components : DataFrame) :
  stop st = true -> force_continue cfg = false ->
  n_components_performed st = S j ->
  components_df st = Some components ->
  fs !! "components.txt.gz" = Some (Table components) ->
  fs !! component_path j = Some (Npy a) ->
  exists fs',
    finish cfg remove_covariates map_interactions eqtl_m geno_m expr_m
      corr_m corr_inter_m st fs = Next tt fs'
    /\ fs' !! "components.txt.gz" = Some (Table components)
    /\ fs' !! "PICs.txt.gz" = Some (Table (without_last_row components))
    /\ fs' !! component_path j = Some (Npy a).
Proof.
  intros Hstop Hforce Hn Hc Hfc Hfp.
  assert (Hp : pics_of cfg st components = without_last_row components)
    by (unfold pics_of; by rewrite Hstop, Hforce).
  unfold finish. rewrite Hn, Hc. cbn [Nat.eqb]. unfold try, bind, ret.
  cbv beta iota zeta. rewrite Hp. clear Hp.
  remember (without_last_row components) as pics_df eqn:Hpics.
  unfold save at 1.
  set (fs1 := <["PICs.txt.gz" := Table pics_df]> fs).
  assert (H1 : fs1 !! "components.txt.gz" = Some (Table components))
    by (unfold fs1; by rewrite lookup_insert_ne).
  assert (H2 : fs1 !! "PICs.txt.gz" = Some (Table pics_df))
    by (unfold fs1; apply lookup_insert_eq).
  assert (H3 : fs1 !! component_path j = Some (Npy a)).
  { unfold fs1. rewrite lookup_insert_ne; [done|]. intros H.
    apply (f_equal last_char) in H. rewrite component_path_last in H.
    discriminate. }
  clearbody fs1.
  assert (Hsum : forall summary fs2,
             fs2 !! "components.txt.gz" = Some (Table components) ->
             fs2 !! "PICs.txt.gz" = Some (Table pics_df) ->
             fs2 !! component_path j = Some (Npy a) ->
             exists fs',
               save "SummaryStats.txt.gz" (summary_stats_df cfg summary) fs2
               = Next tt fs'
               /\ fs' !! "components.txt.gz" = Some (Table components)
               /\ fs' !! "PICs.txt.gz" = Some (Table pics_df)
               /\ fs' !! component_path j = Some (Npy a)).
  { intros summary fs2 G1 G2 G3. eexists. split; [reflexivity|].
    rewrite !lookup_insert_ne; [done|..]; try done. }
  destruct (0 <? length (index pics_df))%nat.
  - edestruct (map_pics_next
                 (remove_covariates expr_m corr_m corr_inter_m geno_m)
                 (imap pair (zip (index pics_df)
                               (values pics_df)))
                 (summary_stats_m st) fs1)
      as (summary' & fs2 & Hmap & Hframe).
    rewrite Hmap. apply Hsum.
    + rewrite Hframe; [done|]. intros pic H.
      apply (f_equal (fun s => String.get 3 s)) in H. vm_compute in H.
      discriminate.
    + rewrite Hframe; [done|]. intros pic H.
      apply (f_equal (fun s => String.get 3 s)) in H. vm_compute in H.
      discriminate.
    + rewrite Hframe; [done|]. intros pic H.
      apply (f_equal last_char) in H.
      rewrite component_path_last, interactions_last in H. discriminate.
  - by apply Hsum.
Qed.
End Finish.
(** ** Driver: the tables of the components *)

Lemma without_last_row_index (samples : list string) (j : nat)
  (m : list (list float)) :
  index (without_last_row (components_table samples (S j) m))
  = pic_name <$> seq 0 j.
Proof.
  unfold without_last_row, components_table. cbn [index].
  rewrite length_fmap, length_seq, <- fmap_take, take_seq.
  do 2 f_equal. lia.
Qed.

Lemma without_last_row_values (samples : list string) (j : nat)
  (m : list (list float)) :
  (j < length m)%nat ->
  values (without_last_row (components_table samples (S j) m)) = take j m.
Proof.
  intros Hlt. unfold without_last_row, components_table. cbn [values].
  rewrite length_take, take_take. f_equal. lia.
Qed.
Import OptimizerSpec.

Lemma set_row_row_of (j : nat) (a : list float) (m m' : list (list float)) :
  set_row j a m = Some m' ->
  length m' = length m /\ (j < length m)%nat
  /\ exists row, m' !! j = Some row /\ row_of a row.
Proof.
  unfold set_row, row_of. intros H.
  destruct (m !! j) as [row|] eqn:Hrow; [|discriminate]. simpl in H.
  apply lookup_lt_Some in Hrow as Hlt.
  destruct (decide (length a = length row)) as [Hlen|_].
  - simplify_eq. rewrite length_insert. repeat split; [done|].
    exists a. rewrite list_lookup_insert_eq by done. split; [done|]. by left.
  - destruct a as [|x [|]]; simplify_eq.
    rewrite length_insert. repeat split; [done|].
    eexists. rewrite list_lookup_insert_eq by done. split; [done|].
    right. exists x. by rewrite length_replicate.
Qed.

(** *** An optimiser that gives up in its first iteration *)

Section Abort.
Variable ieqtl_alpha : float.
Variable min_iter max_iter : Z.
Variable tol : float.
Variable find_ieqtls : list float -> option string -> float -> mapping.
Variable covs : list (string * list float).
Variable n_samples : nat.
Variable uninitialised : float.

Lemma process_gives_up (fd : found) :
  0 < max_iter ->
  find_significant ieqtl_alpha find_ieqtls covs (first_found covs n_samples)
  = Some fd ->
  f_n_hits fd <= 1 \/ f_min_n_hits_per_sample fd <= 1 ->
  exists r,
    process ieqtl_alpha min_iter max_iter tol find_ieqtls covs n_samples
      uninitialised = Some r
    /\ ret_context_a r = None /\ ret_stop r = false
    /\ ret_n_hits r = f_n_hits fd
    /\ n_hits_per_sample_df r = None /\ info_df r = None.
Proof.
  intros Hmax Hfd Hfew. unfold process.
  destruct (max_iter <? 0) eqn:Hneg; [lia|].
  destruct (Z.to_nat max_iter) as [|k] eqn:Hk; [lia|].
  change (seq 0 (S k)) with (0%nat :: seq 1 k). cbn [iterate].
  assert (Hbody :
    exists st',
      iteration_body ieqtl_alpha min_iter tol find_ieqtls covs n_samples 0%nat
        (initial_state max_iter n_samples uninitialised) = Some (Break, st')
      /\ context_a st' = None /\ InteractionOptimizer.stop st' = false
      /\ n_hits st' = f_n_hits fd /\ n_iterations_performed st' = 0%nat).
  { unfold iteration_body, initial_state. cbn [Nat.eqb andb context_a cov n_hits InteractionOptimizer.stop].
    unfold first_found in Hfd.
    destruct covs as [|[name row] [|]]; cbn [length Nat.eqb] in *;
      rewrite Hfd; cbn [mbind option_bind f_context_a];
      repeat match goal with
             | |- context [match f_cov fd with _ => _ end] =>
                 destruct (f_cov fd)
             | |- context [f_n_hits fd <=? 1] =>
                 destruct (Z.leb_spec (f_n_hits fd) 1)
             | |- context [f_min_n_hits_per_sample fd <=? 1] =>
                 destruct (Z.leb_spec (f_min_n_hits_per_sample fd) 1)
             end;
      try lia; eexists; (split; [reflexivity|]); by cbn. }
  destruct Hbody as (st' & -> & Hc & Hs & Hn & Hi).
  cbn [mbind option_bind]. eexists. split; [reflexivity|].
  cbn [ret_context_a ret_stop ret_n_hits n_hits_per_sample_df info_df].
  by rewrite Hi.
Qed.
End Abort.
Import Examples.

Section Claims.
Variable cfg : settings.
Variable remove_covariates :
  list (list float) -> option (list (list float)) ->
  option (list (list float)) -> list (list float) -> list (list float).
Variable map_interactions :
  list (string * string) -> list (list float) -> list (list float) ->
  list float -> option string -> float -> mapping.
Variable uninitialised : float.
Variable samples : list string.
Variable eqtl_m : list (string * string).
Variable geno_m expr_m : list (list float).
Variable covs : list (string * list float).
Variable corr_m corr_inter_m : option (list (list float)).

(** C9.  When [-force_continue] is not set and the loop over the
    components ends with the stop flag set, the last component [a] was
    computed as component [j + 1], and the end of [start] succeeds and
    leaves: [a] in [PIC{j+1}/component.npy]; the table [components.txt.gz]
    with the rows [PIC1] to [PIC{j+1}], the last of which is the row made
    of [a]; and in [PICs.txt.gz] that table without its last row, that
    is, the rows [PIC1] to [PIC{j}]. *)
Theorem unconverged_component_is_left_out (n : nat) (st : pics)
  (fs fs1 : files) :
  force_continue cfg = false -> 0 < max_iter cfg ->
  identify_pics cfg remove_covariates map_interactions uninitialised samples
    eqtl_m geno_m expr_m covs (seq 0 n)
    (Pics (InteractionOptimizer.np_empty uninitialised n (length samples))
       (replicate n [nan; nan]) 0 None false corr_m corr_inter_m None) fs
  = Next st fs1 ->
  stop st = true ->
  exists j a row components fs2,
    n_components_performed st = S j /\ pic_a st = Some a
    /\ finish cfg remove_covariates map_interactions eqtl_m geno_m expr_m
         corr_m corr_inter_m st fs1 = Next tt fs2
    /\ fs2 !! component_path j = Some (Npy a)
    /\ fs2 !! "components.txt.gz" = Some (Table components)
    /\ index components = pic_name <$> seq 0 (S j)
    /\ values components !! j = Some row /\ row_of a row
    /\ fs2 !! "PICs.txt.gz" = Some (Table (without_last_row components))
    /\ index (without_last_row components) = pic_name <$> seq 0 j
    /\ values (without_last_row components) = take j (values components).
Proof.
  intros Hforce Hmax Hloop Hstop.
  edestruct (identify_pics_inv cfg remove_covariates map_interactions
               uninitialised samples eqtl_m geno_m expr_m covs n 0%nat)
    as [k [Hk Hinv]]; [exact Hforce|exact Hmax| |exact Hloop|].
  { split; [done|]. discriminate. }
  destruct (Hinv Hstop) as (j & a & pic_m0 & -> & Ha & Hrow & Hnpy & Hdf & Htab).
  destruct (set_row_row_of _ _ _ _ Hrow) as (Hlen & Hlt & row & Hj & Hof).
  destruct (finish_unconverged cfg remove_covariates map_interactions eqtl_m
              geno_m expr_m corr_m corr_inter_m st fs1 j a _
              Hstop Hforce Hk Hdf Htab Hnpy)
    as (fs2 & Hfin & Hc & Hp & Hn).
  exists j, a, row, (components_table samples (S j) (pic_m st)), fs2.
  repeat split; try done.
  - cbn [values components_table]. rewrite lookup_take_lt by lia. exact Hj.
  - apply without_last_row_index.
  - rewrite without_last_row_values by lia.
    cbn [values components_table]. rewrite take_take. f_equal. lia.
Qed.

(** C1.  When the first iteration of the optimiser finds at most one
    ieQTL, or a sample with at most one ieQTL, for the first component,
    then, whether [-force_continue] is set or not, the loop over the
    components ends there: no component is counted, the number of
    ieQTLs found is recorded in the summary statistics of [PIC1], no
    [component.npy] is written for any component, and the end of
    [start] writes [SummaryStats.txt.gz] and ends the process with
    status 0. *)
Theorem aborted_component_ends_identification (n : nat) (fs : files)
  (fd : found) :
  0 < max_iter cfg ->
  find_significant (ieqtl_alpha cfg)
    (map_interactions eqtl_m geno_m
       (remove_covariates expr_m corr_m corr_inter_m geno_m))
    covs (first_found covs (length samples)) = Some fd ->
  f_n_hits fd <= 1 \/ f_min_n_hits_per_sample fd <= 1 ->
  fs !! component_path 0 = None ->
  exists st fs1,
    identify_pics cfg remove_covariates map_interactions uninitialised samples
      eqtl_m geno_m expr_m covs (seq 0 (S n))
      (Pics (InteractionOptimizer.np_empty uninitialised (S n) (length samples))
         (replicate (S n) [nan; nan]) 0 None false corr_m corr_inter_m None) fs
    = Next st fs1
    /\ n_components_performed st = 0%nat /\ pic_a st = None
    /\ summary_stats_m st
       = set_cell 0 0 (float_of_Z (f_n_hits fd)) (replicate (S n) [nan; nan])
    /\ (forall k, fs1 !! component_path k = fs !! component_path k)
    /\ finish cfg remove_covariates map_interactions eqtl_m geno_m expr_m
         corr_m corr_inter_m st fs1
       = Stop (Exited 0 (<["SummaryStats.txt.gz" :=
                            summary_stats_df cfg (summary_stats_m st)]> fs1)).
Proof.
  intros Hmax Hfd Hfew Hfs.
  destruct (process_gives_up (ieqtl_alpha cfg) (min_iter cfg) (max_iter cfg)
              (tol cfg) _ covs (length samples) uninitialised fd Hmax Hfd Hfew)
    as (r & Hr & Hc & Hs & Hn & _).
  set (st0 := Pics (InteractionOptimizer.np_empty uninitialised (S n)
                      (length samples))
                (replicate (S n) [nan; nan]) 0 None false corr_m corr_inter_m
                None).
  destruct (identify_pics_no_component cfg remove_covariates map_interactions
              uninitialised samples eqtl_m geno_m expr_m covs 0%nat
              (seq 1 n) st0 fs r) as (fs1 & Hloop & Hframe);
    [reflexivity | exact Hfs | exact Hr | exact Hc |].
  change (seq 0 (S n)) with (0%nat :: seq 1 n).
  eexists _, fs1. split; [exact Hloop|].
  cbn [n_components_performed pic_a summary_stats_m].
  rewrite Hn. repeat split; try done.
Qed.
End Claims.
Lemma unconverged_component_is_left_out_witness :
  exists st fs1,
    identify_pics (three_iterations 2 false) no_correction restless 0
      six_samples two_pairs (values (geno_df two_eqtls))
      (values (expr_df two_eqtls)) one_covariate (seq 0 2)
      (no_component_yet 2) ∅ = Next st fs1
    /\ stop st = true
    /\ exists j a row components fs2,
        n_components_performed st = S j /\ pic_a st = Some a
        /\ finish (three_iterations 2 false) no_correction restless two_pairs
             (values (geno_df two_eqtls)) (values (expr_df two_eqtls))
             None None st fs1 = Next tt fs2
        /\ fs2 !! component_path j = Some (Npy a)
        /\ fs2 !! "components.txt.gz" = Some (Table components)
        /\ index components = pic_name <$> seq 0 (S j)
        /\ values components !! j = Some row /\ row_of a row
        /\ fs2 !! "PICs.txt.gz" = Some (Table (without_last_row components))
        /\ index (without_last_row components) = pic_name <$> seq 0 j
        /\ values (without_last_row components) = take j (values components).
Proof.
  eexists _, _. split; [vm_compute; reflexivity|]. split; [reflexivity|].
  apply (unconverged_component_is_left_out (three_iterations 2 false)
           no_correction restless 0 six_samples two_pairs
           (values (geno_df two_eqtls)) (values (expr_df two_eqtls))
           one_covariate None None 2 _ ∅ _);
    [reflexivity | reflexivity | vm_compute; reflexivity | reflexivity].
Defined.

Lemma aborted_component_ends_identification_witness :
  exists fd st fs1,
    find_significant (ieqtl_alpha (default_settings 2 true))
      (no_hits two_pairs (values (geno_df two_eqtls))
         (no_correction (values (expr_df two_eqtls)) None None
            (values (geno_df two_eqtls))))
      one_covariate (first_found one_covariate (length six_samples)) = Some fd
    /\ (f_n_hits fd <= 1 \/ f_min_n_hits_per_sample fd <= 1)
    /\ identify_pics (default_settings 2 true) no_correction no_hits 0
         six_samples two_pairs (values (geno_df two_eqtls))
         (values (expr_df two_eqtls)) one_covariate (seq 0 2)
         (no_component_yet 2) ∅ = Next st fs1
    /\ n_components_performed st = 0%nat /\ pic_a st = None
    /\ summary_stats_m st
       = set_cell 0 0 (float_of_Z (f_n_hits fd)) (replicate 2 [nan; nan])
    /\ (forall k, fs1 !! component_path k = (∅ : files) !! component_path k)
    /\ finish (default_settings 2 true) no_correction no_hits two_pairs
         (values (geno_df two_eqtls)) (values (expr_df two_eqtls))
         None None st fs1
       = Stop (Exited 0 (<["SummaryStats.txt.gz" :=
                            summary_stats_df (default_settings 2 true)
                              (summary_stats_m st)]> fs1)).
Proof.
  eexists.
  assert (Hfd : find_significant (ieqtl_alpha (default_settings 2 true))
      (no_hits two_pairs (values (geno_df two_eqtls))
         (no_correction (values (expr_df two_eqtls)) None None
            (values (geno_df two_eqtls))))
      one_covariate (first_found one_covariate (length six_samples))
      = Some (Found (Some "cov") (Some [1; 2; 4; 3; 6; 5]%float) 0 0
                (replicate 6 0) [])) by (vm_compute; reflexivity).
  destruct (aborted_component_ends_identification (default_settings 2 true)
              no_correction no_hits 0 six_samples two_pairs
              (values (geno_df two_eqtls)) (values (expr_df two_eqtls))
              one_covariate None None 1 ∅ _ eq_refl Hfd
              (or_introl (Z.le_0_1 : 0 <= 1)) (lookup_empty _))
    as (st & fs1 & H).
  exists st, fs1. split; [exact Hfd|]. split; [left; exact Z.le_0_1|]. exact H.
Defined.

(** With [-force_continue] set and two components asked for, a first
    component without any ieQTL ends the run: the process exits with
    status 0 and there is no [PIC2/component.npy]. *)
Lemma force_continue_does_not_resume :
  force_continue (default_settings 2 true) = true
  /\ exists fs,
      run (default_settings 2 true) hwe_one std_one no_correction no_hits 0
        two_eqtls ∅ = Exited 0 fs
      /\ is_Some (fs !! "SummaryStats.txt.gz")
      /\ fs !! "PIC1/component.npy" = None
      /\ fs !! "PIC2/component.npy" = None.
Proof.
  split; [reflexivity|]. eexists. split; [vm_compute; reflexivity|].
  split; [by eexists|]. split; reflexivity.
Qed.



(** ** Driver: the discovery FDR of the eQTLs *)





Lemma bind_next {A B} (m : M A) (k : A -> M B) (fs fs' : files) (b : B) :
  bind m k fs = Next b fs' ->
  exists a fs0, m fs = Next a fs0 /\ k a fs0 = Next b fs'.
Proof. unfold bind. destruct (m fs) as [a fs0|]; [eauto|discriminate]. Qed.

Section Fdr.
Variable cfg : settings.
Variable calc_hwe_pvalue : Z -> Z -> Z -> float.
Variable pandas_std : list float -> float.
Variable remove_covariates :
  list (list float) -> option (list (list float)) ->
  option (list (list float)) -> list (list float) -> list (list float).
Variable map_interactions :
  list (string * string) -> list (list float) -> list (list float) ->
  list float -> option string -> float -> mapping.
Variable uninitialised : float.

End Fdr.
Import FastInteractionMapper Examples.

Lemma elem_of_select_fmap {A} (p : A -> bool) (l : list A) (x : A) :
  x ∈ select (p <$> l) l <-> x ∈ l /\ p x = true.
Proof.
  unfold select. induction l as [|y l IH]; simpl.
  - rewrite elem_of_nil. tauto.
  - destruct (p y) eqn:Hy; simpl; rewrite ?elem_of_cons, IH.
    + split; [intros [->|[]]; auto|intros [[->|] ?]; auto].
    + split; [intros []; auto|intros [[->|] ?]; [congruence|auto]].
Qed.

Lemma select_none {A} (p : A -> bool) (l : list A) :
  (forall x, x ∈ l -> p x = false) -> select (p <$> l) l = [].
Proof.
  intros H. rewrite select_filter.
  induction l as [|x l IH]; [done|]. simpl.
  rewrite (H x) by apply list_elem_of_here.
  apply IH. intros y Hy. apply H. by apply list_elem_of_further.
Qed.



Section FdrClaim.
Variable cfg : settings.
Variable calc_hwe_pvalue : Z -> Z -> Z -> float.
Variable pandas_std : list float -> float.
Variable remove_covariates :
  list (list float) -> option (list (list float)) ->
  option (list (list float)) -> list (list float) -> list (list float).
Variable map_interactions :
  list (string * string) -> list (list float) -> list (list float) ->
  list float -> option string -> float -> mapping.
Variable uninitialised : float.

End FdrClaim.


(** The fast mapper on the same table, after the command line with the
    four files: it stops at its filter. *)
Example fast_mapper_stops_at_its_filter :
  match parse_args no_number no_number create_argument_parser four_files with
  | Parsed ns =>
      main_start (default_settings 1 false) ns two_eqtls ∅ = Stop (Uncaught ∅)
  | _ => False
  end.
Proof. vm_compute. reflexivity. Qed.
(** ** Command line: a run without the sample-to-dataset table *)

Lemma std_is_optional_witness :
  exists ns,
    parse_args no_number no_number create_argument_parser four_files = Parsed ns
    /\ supported create_argument_parser four_files = true
    /\ ("-eq" ∈ four_files \/ "--eqtl" ∈ four_files)
    /\ ("-ge" ∈ four_files \/ "--genotype" ∈ four_files)
    /\ ("-ex" ∈ four_files \/ "--expression" ∈ four_files)
    /\ ("-co" ∈ four_files \/ "--covariate" ∈ four_files)
    /\ ("-std" ∉ four_files -> "--sample_to_dataset" ∉ four_files ->
        get_argument ns "sample_to_dataset" = VNone).
Proof.
  eexists. split; [vm_compute; reflexivity|].
  apply (std_is_optional no_number no_number four_files).
  vm_compute; reflexivity.
Defined.

(** A command line with the four required files and no [-std] is
    parsed, and the run on these files without a sample-to-dataset table
    takes the call rates of the one dataset [None]. *)
Lemma command_line_without_std_is_accepted :
  ("-std" ∉ four_files) /\ ("--sample_to_dataset" ∉ four_files)
  /\ (exists ns,
        parse_args no_number no_number create_argument_parser four_files
        = Parsed ns
        /\ get_argument ns "sample_to_dataset" = VNone)
  /\ match files_of (run (default_settings 1 false) hwe_one std_one
                      no_correction restless 0 without_std ∅)
           !! "call_rate.txt.gz" with
     | Some (Table call_rates) => columns call_rates = ["None CR"]
     | _ => False
     end.
Proof.
  split; [intros Hin; apply list_elem_of_In in Hin; cbv [four_files In] in Hin;
          intuition discriminate|].
  split; [intros Hin; apply list_elem_of_In in Hin; cbv [four_files In] in Hin;
          intuition discriminate|].
  split.
  - eexists. split; [vm_compute; reflexivity|reflexivity].
  - vm_compute. reflexivity.
Qed.

(** * Further properties *)

Import NumPy Statistics CommandLineArguments StatisticsSpec CommandLineSpec.
Import InteractionOptimizer OptimizerSpec Main DriverSpec.
Import FastInteractionMapper Examples DataSpec.

(** ** validate_data *)

Section Validate.
Variable std : list (string * string).
Variable eqtls : option (list eqtl).
Variable geno expr covs tcovs : option DataFrame.

(** X1.  [validate_data] goes on exactly when every table that is given has
    the expected labels; else it ends the process with status 0. It
    never touches the output directory. *)
Theorem validate_data_checks_every_header (fs : files) :
  (headers_match std eqtls geno expr covs tcovs ->
   validate_data std eqtls geno expr covs tcovs fs = Next tt fs)
  /\ (~ headers_match std eqtls geno expr covs tcovs ->
      validate_data std eqtls geno expr covs tcovs fs = Stop (Exited 0 fs)).
Proof.
  unfold headers_match, validate_data.
  destruct geno as [g|], expr as [x|], covs as [c|], tcovs as [t|],
    eqtls as [e|]; cbn [fmap option_fmap option_map];
    repeat match goal with
           | |- context [bool_decide (?a = ?b)] =>
               destruct (bool_decide_reflect (a = b))
           end;
    cbn [negb]; (split; [intros (H1 & H2 & H3 & H4 & H5 & H6)|intros H]);
    try reflexivity;
    try (exfalso;
         match goal with
         | n : _ <> _ |- _ => solve [apply n; eauto]
         end);
    exfalso; apply H; repeat split; intros; simplify_eq; done.
Qed.
End Validate.

(** ** Datasets *)

Lemma ltb_lt (x y : string) :
  String.ltb x y = true <-> OrderedTypeEx.String_as_OT.lt x y.
Proof.
  unfold String.ltb. rewrite <- OrderedTypeEx.String_as_OT.cmp_lt.
  unfold OrderedTypeEx.String_as_OT.cmp.
  destruct (String.compare x y); split; congruence.
Qed.

Lemma ltb_trans (x y z : string) :
  String.ltb x y = true -> String.ltb y z = true -> String.ltb x z = true.
Proof.
  rewrite !ltb_lt. apply OrderedTypeEx.String_as_OT.lt_trans.
Qed.

Lemma ltb_irrefl (x : string) : String.ltb x x = false.
Proof.
  destruct (String.ltb x x) eqn:H; [|done].
  apply ltb_lt, OrderedTypeEx.String_as_OT.lt_not_eq in H. by destruct H.
Qed.

Lemma ltb_total (x y : string) :
  String.eqb x y = false -> String.ltb x y = false -> String.ltb y x = true.
Proof.
  rewrite String.eqb_neq. unfold String.ltb. intros Hne Hlt.
  rewrite String.compare_antisym.
  destruct (String.compare x y) eqn:Hc; simpl; try done.
  by apply String.compare_eq_iff in Hc.
Qed.

(** *** np.unique *)

Lemma total_count_in (d x : string) (acc : list (string * Z)) :
  total d (count_in x acc)
  = total d acc + (if String.eqb d x then 1 else 0).
Proof.
  induction acc as [|[y n] r IH]; simpl.
  - lia.
  - destruct (String.eqb x y) eqn:Hxy.
    + apply String.eqb_eq in Hxy as ->. simpl.
      destruct (String.eqb d y); lia.
    + destruct (String.ltb x y); simpl; [|rewrite IH];
        destruct (String.eqb d x), (String.eqb d y); lia.
Qed.

Lemma keys_count_in (x y : string) (acc : list (string * Z)) :
  y ∈ (count_in x acc).*1 <-> y = x \/ y ∈ acc.*1.
Proof.
  induction acc as [|[z n] r IH]; simpl.
  - rewrite list_elem_of_singleton, elem_of_nil. tauto.
  - destruct (String.eqb x z) eqn:Hxz.
    + apply String.eqb_eq in Hxz as ->. simpl.
      rewrite !elem_of_cons. tauto.
    + destruct (String.ltb x z); simpl; rewrite !elem_of_cons, ?IH;
        simpl; tauto.
Qed.

Lemma sorted_count_in (x : string) (acc : list (string * Z)) :
  StronglySorted (fun a b => String.ltb a b = true) acc.*1 ->
  StronglySorted (fun a b => String.ltb a b = true) (count_in x acc).*1.
Proof.
  induction acc as [|[y n] r IH]; simpl; intros Hs.
  - repeat constructor.
  - apply StronglySorted_inv in Hs as [Hr Hy].
    destruct (String.eqb x y) eqn:Hxy; [by constructor|].
    destruct (String.ltb x y) eqn:Hlt; simpl.
    + constructor; [by constructor|].
      constructor; [done|].
      eapply Forall_impl; [exact Hy|]. intros z Hz. by eapply ltb_trans.
    + constructor; [by apply IH|].
      apply Forall_forall. intros z [->|Hz]%keys_count_in.
      * by apply ltb_total.
      * by eapply Forall_forall in Hy.
Qed.

Lemma positive_count_in (x : string) (acc : list (string * Z)) :
  Forall (fun p => 0 < p.2) acc -> Forall (fun p => 0 < p.2) (count_in x acc).
Proof.
  induction acc as [|[y n] r IH]; simpl; intros Hp.
  - repeat constructor.
  - apply Forall_cons in Hp as [Hn Hr]. simpl in Hn.
    destruct (String.eqb x y); [constructor; [simpl; lia|done]|].
    destruct (String.ltb x y); repeat constructor; simpl; auto.
Qed.

Lemma occurrences_snoc (d x : string) (labels : list string) :
  occurrences d (labels ++ [x])
  = occurrences d labels + (if String.eqb d x then 1 else 0).
Proof.
  unfold occurrences. rewrite filter_app, length_app.
  destruct (String.eqb_spec d x) as [->|Hne].
  - rewrite filter_cons_True by done. simpl. lia.
  - rewrite filter_cons_False by congruence. simpl. lia.
Qed.

Lemma unique_counts_inv (labels : list string) :
  forall seen acc,
    StronglySorted (fun a b => String.ltb a b = true) acc.*1 ->
    Forall (fun p => 0 < p.2) acc ->
    (forall d, total d acc = occurrences d seen) ->
    let out := foldl (fun acc x => count_in x acc) acc labels in
    StronglySorted (fun a b => String.ltb a b = true) out.*1
    /\ Forall (fun p => 0 < p.2) out
    /\ forall d, total d out = occurrences d (seen ++ labels).
Proof.
  induction labels as [|x labels IH]; intros seen acc Hs Hp Ht; simpl.
  - rewrite app_nil_r. done.
  - replace (seen ++ x :: labels) with ((seen ++ [x]) ++ labels)
      by (by rewrite <- app_assoc).
    apply IH.
    + by apply sorted_count_in.
    + by apply positive_count_in.
    + intros d. by rewrite total_count_in, occurrences_snoc, Ht.
Qed.

(** *** Lists of counts without a repeated label *)

Lemma total_absent (d : string) (counts : list (string * Z)) :
  d ∉ counts.*1 -> total d counts = 0.
Proof.
  induction counts as [|[y n] r IH]; simpl; [done|].
  rewrite not_elem_of_cons. intros [Hne Hr].
  apply String.eqb_neq in Hne as ->. rewrite IH by done. lia.
Qed.

Lemma total_present (d : string) (n : Z) (counts : list (string * Z)) :
  NoDup counts.*1 -> (d, n) ∈ counts -> total d counts = n.
Proof.
  induction counts as [|[y m] r IH]; simpl; intros Hnd Hin.
  - by apply elem_of_nil in Hin.
  - apply NoDup_cons in Hnd as [Hy Hr].
    apply elem_of_cons in Hin as [Heq|Hin].
    + simplify_eq. rewrite String.eqb_refl, total_absent by done. lia.
    + assert (d <> y).
      { intros ->. apply Hy. apply list_elem_of_fmap. by exists (y, n). }
      apply String.eqb_neq in H as ->. rewrite IH by done. lia.
Qed.

Lemma total_permutation (d : string) (l l' : list (string * Z)) :
  l ≡ₚ l' -> total d l = total d l'.
Proof.
  induction 1 as [|[] ? ? ? IH|[] []|]; simpl; try lia.
Qed.

Lemma sorted_keys_nodup (keys : list string) :
  StronglySorted (fun a b => String.ltb a b = true) keys -> NoDup keys.
Proof.
  induction 1 as [|x keys Hs IH Hx]; constructor; [|done].
  intros Hin. eapply Forall_forall in Hx; [|exact Hin].
  by rewrite ltb_irrefl in Hx.
Qed.

(** *** The sort on the counts *)

Lemma insert_by_count_permutation (x : string * Z) (l : list (string * Z)) :
  insert_by_count x l ≡ₚ x :: l.
Proof.
  induction l as [|y r IH]; simpl; [done|].
  destruct (y.2 <? x.2); [done|].
  rewrite IH. apply Permutation_swap.
Qed.

Lemma sort_by_count_permutation (l : list (string * Z)) :
  sort_by_count l ≡ₚ l.
Proof.
  unfold sort_by_count.
  enough (forall acc, foldl (fun acc x => insert_by_count x acc) acc l
                      ≡ₚ acc ++ l) as H by apply H.
  induction l as [|x l IH]; intros acc; simpl.
  - by rewrite app_nil_r.
  - rewrite IH, insert_by_count_permutation. simpl.
    apply Permutation_middle.
Qed.

Lemma insert_by_count_sorted (x : string * Z) (l : list (string * Z)) :
  StronglySorted (fun a b => b.2 <= a.2) l ->
  StronglySorted (fun a b => b.2 <= a.2) (insert_by_count x l).
Proof.
  induction l as [|y r IH]; simpl; intros Hs.
  - repeat constructor.
  - apply StronglySorted_inv in Hs as [Hr Hy].
    destruct (Z.ltb_spec y.2 x.2).
    + constructor; [by constructor|].
      constructor; [lia|].
      eapply Forall_impl; [exact Hy|]. simpl. intros z Hz. lia.
    + constructor; [by apply IH|].
      rewrite insert_by_count_permutation. by constructor.
Qed.

Lemma sort_by_count_sorted (l : list (string * Z)) :
  StronglySorted (fun a b => b.2 <= a.2) (sort_by_count l).
Proof.
  unfold sort_by_count.
  enough (forall acc,
             StronglySorted (fun a b => b.2 <= a.2) acc ->
             StronglySorted (fun a b => b.2 <= a.2)
               (foldl (fun acc x => insert_by_count x acc) acc l)) as H
      by (apply H; constructor).
  induction l as [|x l IH]; intros acc Hs; simpl; [done|].
  by apply IH, insert_by_count_sorted.
Qed.

Lemma occurrences_positive (d : string) (labels : list string) :
  0 < occurrences d labels <-> d ∈ labels.
Proof.
  unfold occurrences. split.
  - intros H. destruct (filter (fun y => y = d) labels) as [|y r] eqn:E;
      [simpl in H; lia|].
    assert (Hy : y ∈ filter (fun y => y = d) labels)
      by (rewrite E; apply list_elem_of_here).
    apply list_elem_of_filter in Hy as [-> ?]. done.
  - intros H.
    assert (Hd : d ∈ filter (fun y => y = d) labels)
      by by apply list_elem_of_filter.
    destruct (filter (fun y => y = d) labels); [by apply elem_of_nil in Hd|].
    simpl. lia.
Qed.

Lemma dataset_sample_counts_total (std : list (string * string)) :
  NoDup (dataset_sample_counts std).*1
  /\ Forall (fun p => 0 < p.2) (dataset_sample_counts std)
  /\ forall d, total d (dataset_sample_counts std) = occurrences d std.*2.
Proof.
  unfold dataset_sample_counts.
  destruct (unique_counts_inv std.*2 [] []) as (Hs & Hp & Ht);
    [constructor|constructor|done|].
  simpl in Hs, Hp, Ht. fold (unique_counts std.*2) in Hs, Hp, Ht.
  pose proof (sort_by_count_permutation (unique_counts std.*2)) as Hperm.
  apply sorted_keys_nodup in Hs.
  split; [by rewrite Hperm|]. split; [by rewrite Hperm|].
  intros d. by rewrite (total_permutation d _ _ Hperm), Ht.
Qed.

Lemma dataset_is_listed (std : list (string * string)) (d : string) :
  d ∈ std.*2 -> d ∈ (dataset_sample_counts std).*1.
Proof.
  intros Hd%occurrences_positive.
  destruct (dataset_sample_counts_total std) as (_ & _ & Htot).
  destruct (decide (d ∈ (dataset_sample_counts std).*1)) as [|Hout]; [done|].
  apply total_absent in Hout. rewrite Htot in Hout. lia.
Qed.

(** X2.  The datasets of [construct_dataset_df] and of the check on the
    sample sizes: every dataset of the sample-to-dataset table is listed
    once, with the number of its samples, the largest dataset first. *)
Theorem dataset_sample_counts_are_sorted_counts (std : list (string * string)) :
  StronglySorted (fun a b => b.2 <= a.2) (dataset_sample_counts std)
  /\ NoDup (dataset_sample_counts std).*1
  /\ (forall d n,
         (d, n) ∈ dataset_sample_counts std
         <-> d ∈ std.*2 /\ n = occurrences d std.*2).
Proof.
  destruct (dataset_sample_counts_total std) as (Hnd & Hpos & Htot).
  split; [apply sort_by_count_sorted|]. split; [done|].
  intros d n. split.
  - intros Hin. pose proof (total_present d n _ Hnd Hin) as Hn.
    rewrite Htot in Hn. eapply Forall_forall in Hpos; [|exact Hin].
    simpl in Hpos. split; [apply occurrences_positive; lia|done].
  - intros [Hd ->].
    apply dataset_is_listed, list_elem_of_fmap in Hd as ([d' n] & -> & Hin).
    simpl. pose proof (total_present d' n _ Hnd Hin) as Hn.
    rewrite Htot in Hn. by subst.
Qed.

(** X3.  In the data frame of the datasets every sample is in the column of
    its own dataset, which exists, and in no other column. *)
Theorem construct_dataset_df_membership (std : list (string * string))
  (i : nat) (sample dataset name : string) (mask : list bool) :
  std !! i = Some (sample, dataset) ->
  (name, mask) ∈ construct_dataset_df std ->
  mask !! i = Some (bool_decide (dataset = name))
  /\ length mask = length std
  /\ dataset ∈ (construct_dataset_df std).*1.
Proof.
  unfold construct_dataset_df. intros Hi Hin.
  apply list_elem_of_fmap in Hin as ([d n] & Heq & Hd). simpl in Heq.
  simplify_eq. split; [|split].
  - rewrite list_lookup_fmap, Hi. simpl. f_equal.
    destruct (String.eqb_spec dataset d), (bool_decide_reflect (dataset = d));
      congruence.
  - by rewrite length_fmap.
  - rewrite <- list_fmap_compose.
    apply (dataset_is_listed std dataset).
    apply list_elem_of_fmap. exists (sample, dataset). split; [done|].
    by eapply list_elem_of_lookup_2.
Qed.

Lemma construct_dataset_df_membership_witness :
  ([("s1", "A"); ("s2", "B"); ("s3", "A")] : list (string * string)) !! 1%nat
  = Some ("s2", "B")
  /\ [true; false; true] !! 1%nat = Some (bool_decide ("B" = "A"))
  /\ length [true; false; true]
     = length ([("s1", "A"); ("s2", "B"); ("s3", "A")] : list (string * string))
  /\ "B" ∈ (construct_dataset_df [("s1", "A"); ("s2", "B"); ("s3", "A")]).*1.
Proof.
  split; [reflexivity|].
  apply (construct_dataset_df_membership
           [("s1", "A"); ("s2", "B"); ("s3", "A")] 1 "s2" "B" "A"
           [true; false; true]); [reflexivity|].
  vm_compute. apply list_elem_of_here.
Defined.

(** ** Call rate *)

Lemma select_agree {A} (mask : list bool) :
  forall rows rows' : list A,
    length rows = length rows' ->
    (forall i, mask !! i = Some true -> rows !! i = rows' !! i) ->
    select mask rows = select mask rows'.
Proof.
  unfold select.
  induction mask as [|b mask IH]; intros [|x rows] [|y rows'] Hlen H;
    simpl in *; try done.
  assert (Hrest : snd <$> List.filter fst (zip mask rows)
                  = snd <$> List.filter fst (zip mask rows')).
  { apply IH; [lia|]. intros i Hi. apply (H (S i) Hi). }
  destruct b.
  - change (snd <$> ((true, x) :: List.filter fst (zip mask rows))
            = snd <$> ((true, y) :: List.filter fst (zip mask rows'))).
    rewrite !fmap_cons, Hrest.
    specialize (H 0%nat eq_refl). simpl in H. by simplify_eq.
  - exact Hrest.
Qed.

Lemma zip_with_fmap_same {A B C D} (f : B -> C -> D) (g : A -> B)
  (h : A -> C) (l : list A) :
  zip_with f (g <$> l) (h <$> l) = (fun x => f (g x) (h x)) <$> l.
Proof. induction l as [|x l IH]; [done|]. simpl. f_equal. exact IH. Qed.

Section CallRate.
Variable cfg : settings.

Lemma mask_dataset_length (mask : list bool) (row : list float) :
  length mask = length row -> length (mask_dataset cfg mask row) = length row.
Proof.
  intros H. unfold mask_dataset.
  destruct (PrimFloat.ltb _ _); [|done].
  rewrite length_zip_with. lia.
Qed.

Lemma mask_dataset_lookup (mask : list bool) (row : list float) (i : nat)
  (b : bool) :
  length mask = length row -> mask !! i = Some b ->
  mask_dataset cfg mask row !! i
  = if (b && PrimFloat.ltb (call_rate_s cfg mask row) (call_rate cfg))%bool
    then Some (na cfg) else row !! i.
Proof.
  intros Hlen Hi. unfold mask_dataset.
  destruct (PrimFloat.ltb _ _); [|by rewrite andb_false_r].
  rewrite andb_true_r, lookup_zip_with, Hi. simpl.
  destruct (row !! i) as [x|] eqn:Hx; simpl.
  - by destruct b.
  - apply lookup_lt_Some in Hi. apply lookup_ge_None in Hx. lia.
Qed.

Lemma calculate_call_rate_rows (dataset_df : list (string * list bool)) :
  forall geno : list (list float),
    calculate_call_rate cfg geno dataset_df
    = ((fun row => (row_call_rates cfg row dataset_df).1) <$> geno,
       (fun row => (row_call_rates cfg row dataset_df).2) <$> geno).
Proof.
  unfold calculate_call_rate, row_call_rates.
  enough (forall (f : list float -> list float * list float)
                 (geno : list (list float)),
             foldl (fun '(g, cr) d =>
                      (mask_dataset cfg d.2 <$> g,
                       zip_with (fun crs row => crs ++ [call_rate_s cfg d.2 row])
                         cr g))
               ((fun row => (f row).1) <$> geno,
                (fun row => (f row).2) <$> geno) dataset_df
             = ((fun row =>
                   (foldl (fun gc d =>
                             (mask_dataset cfg d.2 gc.1,
                              gc.2 ++ [call_rate_s cfg d.2 gc.1]))
                      (f row) dataset_df).1) <$> geno,
                (fun row =>
                   (foldl (fun gc d =>
                             (mask_dataset cfg d.2 gc.1,
                              gc.2 ++ [call_rate_s cfg d.2 gc.1]))
                      (f row) dataset_df).2) <$> geno)) as H.
  { intros geno. rewrite <- (H (fun row => (row, []))). simpl.
    by rewrite list_fmap_id. }
  induction dataset_df as [|d ds IH]; intros f geno; [done|].
  cbn [foldl].
  rewrite <- (IH (fun row => (mask_dataset cfg d.2 (f row).1,
                              (f row).2 ++ [call_rate_s cfg d.2 (f row).1]))).
  f_equal. f_equal.
  - by rewrite <- list_fmap_compose.
  - apply (zip_with_fmap_same
             (fun crs row => crs ++ [call_rate_s cfg d.2 row])).
Qed.

Lemma row_call_rates_snoc (row : list float)
  (dataset_df : list (string * list bool)) (d : string * list bool) :
  row_call_rates cfg row (dataset_df ++ [d])
  = (mask_dataset cfg d.2 (row_call_rates cfg row dataset_df).1,
     (row_call_rates cfg row dataset_df).2
     ++ [call_rate_s cfg d.2 (row_call_rates cfg row dataset_df).1]).
Proof. unfold row_call_rates. by rewrite foldl_app. Qed.

(** What the datasets do to a row when no sample is in two of them. *)
Lemma row_call_rates_spec (row : list float)
  (dataset_df : list (string * list bool)) :
  Forall (fun d => length d.2 = length row) dataset_df ->
  (forall j k dj dk,
      j <> k -> dataset_df !! j = Some dj -> dataset_df !! k = Some dk ->
      disjoint_masks dj.2 dk.2) ->
  length (row_call_rates cfg row dataset_df).1 = length row
  /\ (forall k d,
         dataset_df !! k = Some d ->
         (row_call_rates cfg row dataset_df).2 !! k
         = Some (call_rate_s cfg d.2 row))
  /\ length (row_call_rates cfg row dataset_df).2 = length dataset_df
  /\ (forall i,
         (forall k d, dataset_df !! k = Some d -> d.2 !! i <> Some true) ->
         (row_call_rates cfg row dataset_df).1 !! i = row !! i)
  /\ (forall k d i,
         dataset_df !! k = Some d -> d.2 !! i = Some true ->
         (row_call_rates cfg row dataset_df).1 !! i
         = if PrimFloat.ltb (call_rate_s cfg d.2 row) (call_rate cfg)
           then Some (na cfg) else row !! i).
Proof.
  induction dataset_df as [|d ds IH] using rev_ind; intros Hlen Hdis.
  - repeat split; try done.
  - apply Forall_app in Hlen as [Hlen Hd].
    apply Forall_cons in Hd as [Hd _].
    destruct IH as (Hl & Hcr & Hlc & Hout & Hin); [done| |].
    { intros j k dj dk Hjk Hj Hk. apply (Hdis j k); [done|..];
        by apply lookup_app_l_Some. }
    rewrite row_call_rates_snoc. cbn [fst snd].
    set (g := (row_call_rates cfg row ds).1) in *.
    set (c := (row_call_rates cfg row ds).2) in *.
    assert (Hfresh : forall i k dk,
               d.2 !! i = Some true -> ds !! k = Some dk ->
               dk.2 !! i <> Some true).
    { intros i k dk Hi Hk Hki.
      apply (Hdis k (length ds) dk d) with i; try done.
      - apply lookup_lt_Some in Hk. lia.
      - by apply lookup_app_l_Some.
      - by rewrite lookup_app_r, Nat.sub_diag by lia. }
    assert (Hsame : call_rate_s cfg d.2 g = call_rate_s cfg d.2 row).
    { unfold call_rate_s.
      replace (select d.2 g) with (select d.2 row); [done|].
      symmetry. apply select_agree; [done|].
      intros i Hi. apply Hout. intros k dk Hk. by eapply Hfresh. }
    split; [by rewrite mask_dataset_length by lia|].
    split; [|split; [|split]].
    + intros k dk Hk. destruct (decide (k < length ds)%nat) as [Hlt|Hge].
      * rewrite lookup_app_l in Hk by done.
        rewrite lookup_app_l by lia. by apply Hcr.
      * apply lookup_lt_Some in Hk as Hk'. rewrite length_app in Hk'.
        simpl in Hk'. assert (k = length ds) as -> by lia.
        rewrite lookup_app_r, Nat.sub_diag in Hk by lia. simpl in Hk. simplify_eq.
        rewrite lookup_app_r, Hlc, Nat.sub_diag by lia. simpl.
        by rewrite Hsame.
    + rewrite !length_app. simpl. lia.
    + intros i Hnone.
      destruct (d.2 !! i) as [b|] eqn:Hb.
      * rewrite (mask_dataset_lookup _ _ i b) by (done || lia).
        destruct b.
        -- exfalso. apply (Hnone (length ds) d); [|done].
           by rewrite lookup_app_r, Nat.sub_diag by lia.
        -- simpl. apply Hout. intros k dk Hk.
           apply (Hnone k). by apply lookup_app_l_Some.
      * apply lookup_ge_None in Hb.
        rewrite !(proj2 (lookup_ge_None _ _)); [done|lia|].
        rewrite mask_dataset_length; lia.
    + intros k dk i Hk Hi.
      destruct (decide (k < length ds)%nat) as [Hlt|Hge].
      * rewrite lookup_app_l in Hk by done.
        assert (Hdi : d.2 !! i <> Some true).
        { intros Hdi. by apply (Hfresh i k dk). }
        destruct (d.2 !! i) as [b|] eqn:Hb.
        -- rewrite (mask_dataset_lookup _ _ i b) by (done || lia).
           destruct b; [done|]. simpl. by apply (Hin k).
        -- apply lookup_ge_None in Hb. apply lookup_lt_Some in Hi.
           eapply Forall_forall in Hlen;
             [|by eapply list_elem_of_lookup_2]. lia.
      * apply lookup_lt_Some in Hk as Hk'. rewrite length_app in Hk'.
        simpl in Hk'. assert (k = length ds) as -> by lia.
        rewrite lookup_app_r, Nat.sub_diag in Hk by lia. simpl in Hk. simplify_eq.
        rewrite (mask_dataset_lookup _ _ i true) by (done || lia).
        rewrite Hsame. simpl.
        destruct (PrimFloat.ltb _ _); [done|].
        apply Hout. intros j dj Hj. by eapply Hfresh.
Qed.
End CallRate.

Lemma construct_dataset_df_disjoint (std : list (string * string))
  (j k : nat) (dj dk : string * list bool) :
  j <> k ->
  construct_dataset_df std !! j = Some dj ->
  construct_dataset_df std !! k = Some dk ->
  disjoint_masks dj.2 dk.2.
Proof.
  unfold construct_dataset_df. intros Hjk Hj Hk i Hi Hi'.
  rewrite list_lookup_fmap in Hj, Hk.
  destruct (dataset_sample_counts std !! j) as [cj|] eqn:Hcj; [|done].
  destruct (dataset_sample_counts std !! k) as [ck|] eqn:Hck; [|done].
  simpl in Hj, Hk. simplify_eq. simpl in Hi, Hi'.
  rewrite list_lookup_fmap in Hi, Hi'.
  destruct (std !! i) as [sd|]; [|done]. simpl in Hi, Hi'.
  injection Hi as Hi. injection Hi' as Hi'.
  apply String.eqb_eq in Hi, Hi'.
  destruct (dataset_sample_counts_total std) as (Hnd & _ & _).
  apply Hjk. eapply (NoDup_lookup _ j k cj.1 Hnd).
  - by rewrite list_lookup_fmap, Hcj.
  - rewrite list_lookup_fmap, Hck. simpl. congruence.
Qed.

(** X4.  [calculate_call_rate] on the datasets of [construct_dataset_df]:
    the call rate of a row in a dataset is taken on the genotypes of the
    input, whatever the order of the datasets, and the row comes out
    with every sample of the dataset missing when that call rate is
    below the threshold, and as it was for the samples of the other
    datasets. *)
Theorem calculate_call_rate_per_dataset (cfg : settings)
  (std : list (string * string)) (geno : list (list float)) (r : nat)
  (row : list float) :
  geno !! r = Some row -> length row = length std ->
  exists row' crs,
    (calculate_call_rate cfg geno (construct_dataset_df std)).1 !! r = Some row'
    /\ (calculate_call_rate cfg geno (construct_dataset_df std)).2 !! r
       = Some crs
    /\ length row' = length row
    /\ length crs = length (construct_dataset_df std)
    /\ forall k name mask,
        construct_dataset_df std !! k = Some (name, mask) ->
        crs !! k = Some (call_rate_s cfg mask row)
        /\ forall i,
            mask !! i = Some true ->
            row' !! i
            = if PrimFloat.ltb (call_rate_s cfg mask row) (call_rate cfg)
              then Some (na cfg) else row !! i.
Proof.
  intros Hr Hlen. rewrite calculate_call_rate_rows. cbn [fst snd].
  rewrite !list_lookup_fmap, Hr. simpl.
  destruct (row_call_rates_spec cfg row (construct_dataset_df std))
    as (Hl & Hcr & Hlc & _ & Hin).
  - apply Forall_forall. intros d Hd. unfold construct_dataset_df in Hd.
    apply list_elem_of_fmap in Hd as (c & -> & _). simpl.
    by rewrite length_fmap.
  - apply construct_dataset_df_disjoint.
  - eexists _, _. split; [done|]. split; [done|]. split; [done|].
    split; [done|]. intros k name m Hk. split.
    + by apply (Hcr k (name, m)).
    + intros i Hi. by apply (Hin k (name, m)).
Qed.

Lemma calculate_call_rate_per_dataset_witness :
  exists row' crs,
    (calculate_call_rate (default_settings 1 false) [[0; 1; -1]%float]
       (construct_dataset_df [("s1", "A"); ("s2", "B"); ("s3", "A")])).1
    !! 0%nat = Some row'
    /\ (calculate_call_rate (default_settings 1 false) [[0; 1; -1]%float]
          (construct_dataset_df [("s1", "A"); ("s2", "B"); ("s3", "A")])).2
       !! 0%nat = Some crs
    /\ length row' = length [0; 1; -1]%float
    /\ length crs
       = length (construct_dataset_df [("s1", "A"); ("s2", "B"); ("s3", "A")])
    /\ forall k name mask,
        construct_dataset_df [("s1", "A"); ("s2", "B"); ("s3", "A")] !! k
        = Some (name, mask) ->
        crs !! k
        = Some (call_rate_s (default_settings 1 false) mask [0; 1; -1]%float)
        /\ forall i,
            mask !! i = Some true ->
            row' !! i
            = if PrimFloat.ltb
                   (call_rate_s (default_settings 1 false) mask
                      [0; 1; -1]%float)
                   (call_rate (default_settings 1 false))
              then Some (na (default_settings 1 false))
              else [0; 1; -1]%float !! i.
Proof.
  apply (calculate_call_rate_per_dataset (default_settings 1 false)
           [("s1", "A"); ("s2", "B"); ("s3", "A")] [[0; 1; -1]%float] 0
           [0; 1; -1]%float); reflexivity.
Defined.

(** The row above: the first dataset has a missing genotype and
    loses its other genotype, the second dataset is untouched. *)
Example call_rate_masks_a_dataset :
  calculate_call_rate (default_settings 1 false) [[0; 1; -1]%float]
    (construct_dataset_df [("s1", "A"); ("s2", "B"); ("s3", "A")])
  = ([[-1; 1; -1]%float], [[0.5; 1]%float]).
Proof. vm_compute. reflexivity. Qed.

(** ** Quality control *)

Section QualityControl.
Variable cfg : settings.
Variable calc_hwe_pvalue : Z -> Z -> Z -> float.

(** X5.  A row that the call rates leave without any genotype is dropped:
    when the call rate of a row is below the threshold in every dataset,
    its entry in the mask of the rows to keep is false. *)
Theorem row_below_call_rate_is_dropped (std : list (string * string))
  (geno : list (list float)) (r : nat) (row : list float) :
  PrimFloat.eqb (na cfg) (na cfg) = true ->
  geno !! r = Some row -> length row = length std ->
  (forall name mask,
      (name, mask) ∈ construct_dataset_df std ->
      PrimFloat.ltb (call_rate_s cfg mask row) (call_rate cfg) = true) ->
  (combined_keep cfg calc_hwe_pvalue
     <$> (calculate_call_rate cfg geno (construct_dataset_df std)).1) !! r
  = Some false.
Proof.
  intros Hna Hr Hlen Hlow. rewrite calculate_call_rate_rows. cbn [fst].
  rewrite !list_lookup_fmap, Hr. simpl. f_equal.
  destruct (row_call_rates_spec cfg row (construct_dataset_df std))
    as (Hl & _ & _ & _ & Hin).
  { apply Forall_forall. intros d Hd. unfold construct_dataset_df in Hd.
    apply list_elem_of_fmap in Hd as (c & -> & _). simpl.
    by rewrite length_fmap. }
  { apply construct_dataset_df_disjoint. }
  set (row' := (row_call_rates cfg row (construct_dataset_df std)).1) in *.
  assert (Hall : forall i x, row' !! i = Some x -> x = na cfg).
  { intros i x Hx.
    assert (Hi : (i < length std)%nat)
      by (apply lookup_lt_Some in Hx; lia).
    apply lookup_lt_is_Some in Hi as [[sample dataset] Hsd].
    assert (Hd : dataset ∈ (construct_dataset_df std).*1).
    { unfold construct_dataset_df. rewrite <- list_fmap_compose.
      apply (dataset_is_listed std dataset).
      apply list_elem_of_fmap. exists (sample, dataset). split; [done|].
      by eapply list_elem_of_lookup_2. }
    apply list_elem_of_fmap in Hd as ([name mask] & Hname & Hd).
    simpl in Hname. subst name.
    apply list_elem_of_lookup in Hd as Hk. destruct Hk as [k Hk].
    assert (Hmask : mask !! i = Some true).
    { unfold construct_dataset_df in Hk. rewrite list_lookup_fmap in Hk.
      destruct (dataset_sample_counts std !! k) as [c|]; [|done].
      simpl in Hk. simplify_eq.
      rewrite list_lookup_fmap, Hsd. simpl. by rewrite String.eqb_refl. }
    rewrite (Hin k (dataset, mask) i Hk Hmask) in Hx. cbn [snd] in Hx.
    rewrite (Hlow dataset mask Hd) in Hx. by simplify_eq. }
  unfold combined_keep. cbv zeta.
  assert (Hcr : cr_keep cfg row' = false).
  { unfold cr_keep. apply negb_false_iff, forallb_forall.
    intros x [i Hx]%list_elem_of_In%list_elem_of_lookup.
    apply Hall in Hx as ->. exact Hna. }
  by rewrite Hcr.
Qed.

(** X6.  The rows that the quality control hands on all pass the criteria,
    the eQTLs and the genotype rows are selected with the same mask, at
    least one row has a genotype, and the only files written are the
    call rates and the genotype statistics. *)
Theorem quality_control_result {A} (eqtls : list A) (geno : DataFrame)
  (dataset_df : list (string * list bool)) (fs fs' : files)
  (kept : list A) (geno' : DataFrame) (mask : list bool) :
  quality_control cfg calc_hwe_pvalue eqtls geno dataset_df fs
  = Next (kept, geno', mask) fs' ->
  mask = combined_keep cfg calc_hwe_pvalue
           <$> (calculate_call_rate cfg (values geno) dataset_df).1
  /\ kept = select mask eqtls
  /\ index geno' = select mask (index geno)
  /\ columns geno' = columns geno
  /\ Forall (fun row => combined_keep cfg calc_hwe_pvalue row = true)
       (values geno')
  /\ (exists row,
         row ∈ (calculate_call_rate cfg (values geno) dataset_df).1
         /\ cr_keep cfg row = true)
  /\ is_Some (fs' !! "call_rate.txt.gz")
  /\ is_Some (fs' !! "genotype_stats.txt.gz")
  /\ forall path,
      path <> "call_rate.txt.gz" -> path <> "genotype_stats.txt.gz" ->
      fs' !! path = fs !! path.
Proof.
  unfold quality_control.
  destruct (calculate_call_rate cfg (values geno) dataset_df)
    as [geno_m call_rate_m].
  unfold bind, save, ret, raise. cbn [fst].
  destruct (forallb _ geno_m) eqn:Hall; [discriminate|].
  destruct (bool_decide (length eqtls = length geno_m)); [|discriminate].
  cbn [negb]. intros H. simplify_eq. repeat split.
  - cbn [values]. rewrite select_filter.
    apply Forall_forall. intros row Hrow%list_elem_of_In.
    by apply filter_In in Hrow as [_ ?].
  - apply not_true_iff_false in Hall.
    destruct (decide (Exists (fun row => cr_keep cfg row = true) geno_m))
      as [Hex|Hnone].
    + apply Exists_exists in Hex as (row & ? & ?). by exists row.
    + exfalso. apply Hall, forallb_forall. intros row Hrow%list_elem_of_In.
      apply negb_true_iff, not_true_iff_false. intros Hk.
      apply Hnone, Exists_exists. by exists row.
  - rewrite lookup_insert_ne by done. rewrite lookup_insert_eq. by eexists.
  - rewrite lookup_insert_eq. by eexists.
  - intros path H1 H2. by rewrite !lookup_insert_ne.
Qed.
End QualityControl.

Lemma row_below_call_rate_is_dropped_witness :
  (combined_keep (default_settings 1 false) hwe_one
     <$> (calculate_call_rate (default_settings 1 false)
            [[0; -1; -1; 1; -1; 2]%float; [0; 0; 1; 1; 2; 2]%float]
            (construct_dataset_df
               [("s1", "A"); ("s2", "A"); ("s3", "B"); ("s4", "B");
                ("s5", "C"); ("s6", "B")])).1) !! 0%nat
  = Some false.
Proof.
  apply (row_below_call_rate_is_dropped (default_settings 1 false) hwe_one
           [("s1", "A"); ("s2", "A"); ("s3", "B"); ("s4", "B");
            ("s5", "C"); ("s6", "B")]
           [[0; -1; -1; 1; -1; 2]%float; [0; 0; 1; 1; 2; 2]%float] 0
           [0; -1; -1; 1; -1; 2]%float); try reflexivity.
  intros name mask Hin. vm_compute in Hin.
  repeat (apply elem_of_cons in Hin as [Hin|Hin];
          [injection Hin as -> ->; vm_compute; reflexivity|]).
  by apply elem_of_nil in Hin.
Defined.

Lemma quality_control_result_witness :
  exists kept geno' mask fs',
    quality_control (default_settings 1 false) hwe_one (eqtl_df two_eqtls)
      (geno_df two_eqtls)
      (construct_dataset_df ((fun s => (s, "A")) <$> six_samples)) ∅
    = Next (kept, geno', mask) fs'
    /\ kept = select mask (eqtl_df two_eqtls)
    /\ Forall (fun row =>
                 combined_keep (default_settings 1 false) hwe_one row = true)
         (values geno')
    /\ forall path,
        path <> "call_rate.txt.gz" -> path <> "genotype_stats.txt.gz" ->
        fs' !! path = (∅ : files) !! path.
Proof.
  eexists _, _, _, _. split; [vm_compute; reflexivity|].
  edestruct (quality_control_result (default_settings 1 false) hwe_one
               (eqtl_df two_eqtls) (geno_df two_eqtls)
               (construct_dataset_df ((fun s => (s, "A")) <$> six_samples)) ∅)
    as (_ & Hk & _ & _ & Hf & _ & _ & _ & Hp); [vm_compute; reflexivity|].
  split; [exact Hk|]. split; [exact Hf|exact Hp].
Defined.

(** ** Correction matrices *)

Lemma hstack_lookup (a b : list (list float)) (i : nat) (x y : list float) :
  a !! i = Some x -> b !! i = Some y -> hstack a b !! i = Some (x ++ y).
Proof.
  intros Ha Hb. unfold hstack. by rewrite lookup_zip_with, Ha; simpl; rewrite Hb.
Qed.

(** X7.  [construct_correct_matrices], sample by sample: the correction
    matrix holds the datasets but the first one (when there is more than
    one dataset), then the technical covariates without and with
    interaction; the matrix of the interaction terms holds every dataset
    and the technical covariates with interaction.  A matrix is absent
    exactly when nothing is put into it: there is at most one dataset
    and the tables of technical covariates that it takes are absent (a
    table of technical covariates without any column still gives a
    matrix). *)
Theorem construct_correct_matrices_rows (dataset_m : list (list float))
  (n_datasets : nat) (tcov_m tcov_inter_m : option (list (list float))) :
  (forall t, tcov_m = Some t -> length t = length dataset_m) ->
  (forall t, tcov_inter_m = Some t -> length t = length dataset_m) ->
  match (construct_correct_matrices dataset_m n_datasets tcov_m
           tcov_inter_m).1 with
  | Some m =>
      length m = length dataset_m
      /\ forall i row,
          dataset_m !! i = Some row ->
          m !! i = Some ((if (1 <? n_datasets)%nat then drop 1 row else [])
                         ++ row_part tcov_m i ++ row_part tcov_inter_m i)
  | None => (n_datasets <= 1)%nat /\ tcov_m = None /\ tcov_inter_m = None
  end
  /\ match (construct_correct_matrices dataset_m n_datasets tcov_m
              tcov_inter_m).2 with
     | Some m =>
         length m = length dataset_m
         /\ forall i row,
             dataset_m !! i = Some row ->
             m !! i = Some ((if (1 <? n_datasets)%nat then row else [])
                            ++ row_part tcov_inter_m i)
     | None => (n_datasets <= 1)%nat /\ tcov_inter_m = None
     end
  /\ ((construct_correct_matrices dataset_m n_datasets tcov_m
         tcov_inter_m).1 = None
      <-> (n_datasets <= 1)%nat /\ tcov_m = None /\ tcov_inter_m = None)
  /\ ((construct_correct_matrices dataset_m n_datasets tcov_m
         tcov_inter_m).2 = None
      <-> (n_datasets <= 1)%nat /\ tcov_inter_m = None).
Proof.
  intros Ht Hi.
  assert (Hnone :
    ((construct_correct_matrices dataset_m n_datasets tcov_m
        tcov_inter_m).1 = None
     <-> (n_datasets <= 1)%nat /\ tcov_m = None /\ tcov_inter_m = None)
    /\ ((construct_correct_matrices dataset_m n_datasets tcov_m
           tcov_inter_m).2 = None
        <-> (n_datasets <= 1)%nat /\ tcov_inter_m = None)).
  { unfold construct_correct_matrices.
    destruct (Nat.ltb_spec 1 n_datasets) as [Hn|Hn];
      destruct tcov_m as [t|], tcov_inter_m as [ti|];
      cbn [fst snd hstack_opt];
      (split; (split; [intros H; try discriminate H; repeat split; done || lia
                      |intros H; try reflexivity;
                       destruct H as (? & ?); try lia;
                       repeat match goal with
                              | H : _ /\ _ |- _ => destruct H
                              end; discriminate])). }
  rewrite (and_assoc _ _ (_ /\ _)). split; [|exact Hnone]. clear Hnone.
  unfold construct_correct_matrices.
  assert (Hrow : forall (t : list (list float)) (i : nat) (row : list float),
             length t = length dataset_m -> dataset_m !! i = Some row ->
             exists y, t !! i = Some y).
  { intros t i row Hlen Hr. apply lookup_lt_is_Some.
    apply lookup_lt_Some in Hr. lia. }
  destruct (Nat.ltb_spec 1 n_datasets) as [Hn|Hn];
    destruct tcov_m as [t|], tcov_inter_m as [ti|];
    cbn [fst snd hstack_opt row_part];
    try specialize (Ht t eq_refl); try specialize (Hi ti eq_refl);
    repeat split; try done; try lia;
    unfold hstack; rewrite ?length_zip_with, ?length_fmap; try lia;
    intros i row Hr;
    try (destruct (Hrow t i row Ht Hr) as [y Hy]);
    try (destruct (Hrow ti i row Hi Hr) as [yi Hyi]);
    rewrite ?lookup_zip_with, ?list_lookup_fmap, ?Hr, ?Hy, ?Hyi; simpl;
    rewrite ?Hy, ?Hyi; simpl; rewrite ?Hyi; simpl;
    rewrite ?app_nil_r, <- ?app_assoc; done.
Qed.

Lemma construct_correct_matrices_rows_witness :
  match (construct_correct_matrices [[1; 0]%float; [0; 1]%float] 2
           (Some [[3]%float; [4]%float]) None).1 with
  | Some m =>
      length m = length [[1; 0]%float; [0; 1]%float]
      /\ forall i row,
          [[1; 0]%float; [0; 1]%float] !! i = Some row ->
          m !! i = Some ((if (1 <? 2)%nat then drop 1 row else [])
                         ++ row_part (Some [[3]%float; [4]%float]) i
                         ++ row_part None i)
  | None => (2 <= 1)%nat
            /\ Some [[3]%float; [4]%float] = None
            /\ (None : option (list (list float))) = None
  end
  /\ match (construct_correct_matrices [[1; 0]%float; [0; 1]%float] 2
              (Some [[3]%float; [4]%float]) None).2 with
     | Some m =>
         length m = length [[1; 0]%float; [0; 1]%float]
         /\ forall i row,
             [[1; 0]%float; [0; 1]%float] !! i = Some row ->
             m !! i = Some ((if (1 <? 2)%nat then row else [])
                            ++ row_part None i)
     | None => (2 <= 1)%nat /\ (None : option (list (list float))) = None
     end
  /\ ((construct_correct_matrices [[1; 0]%float; [0; 1]%float] 2
         (Some [[3]%float; [4]%float]) None).1 = None
      <-> (2 <= 1)%nat /\ Some [[3]%float; [4]%float] = None
          /\ (None : option (list (list float))) = None)
  /\ ((construct_correct_matrices [[1; 0]%float; [0; 1]%float] 2
         (Some [[3]%float; [4]%float]) None).2 = None
      <-> (2 <= 1)%nat /\ (None : option (list (list float))) = None).
Proof.
  apply (construct_correct_matrices_rows [[1; 0]%float; [0; 1]%float] 2
           (Some [[3]%float; [4]%float]) None).
  - intros t Ht. injection Ht as <-. reflexivity.
  - intros t Ht. discriminate.
Defined.

(** ** Optimiser: the ieQTLs of a component that converged *)

Section Hits.
Variable ieqtl_alpha : float.
Variable min_iter max_iter : Z.
Variable tol : float.
Variable find_ieqtls : list float -> option string -> float -> mapping.
Variable covs : list (string * list float).
Variable n_samples : nat.
Variable uninitialised : float.

Lemma iteration_body_hits (k : nat) (st st' : state) (c : control) :
  running k st ->
  iteration_body ieqtl_alpha min_iter tol find_ieqtls covs n_samples k st
  = Some (c, st') ->
  match c with
  | Continue => running (S k) st'
  | Break =>
      InteractionOptimizer.stop st' = false ->
      is_Some (context_a st') -> 2 <= n_hits st'
  end.
Proof.
  intros [Hstop Hprev] H. unfold iteration_body in H.
  repeat (simplify_option_eq || case_match);
    unfold running, abort in *; simpl in *;
    repeat case_match; simplify_eq; simpl in *;
    try (intros; by destruct_and?; simplify_eq);
    try (intros ? []; done);
    try (split; [done|right; lia]);
    try (intros; lia);
    try congruence.
  all: intros _ _; destruct Hprev as [->|?]; [|lia].
  all: simpl in *; lia.
Qed.

Lemma iterate_hits (n : nat) :
  forall k st st',
    running k st ->
    iterate ieqtl_alpha min_iter tol find_ieqtls covs n_samples (seq k n) st
    = Some st' ->
    InteractionOptimizer.stop st' = false ->
    is_Some (context_a st') -> 2 <= n_hits st'.
Proof.
  induction n as [|n IH]; intros k st st' Hrun H Hstop Hc; simpl in H.
  - destruct Hrun as [Hs _]. simplify_eq. congruence.
  - destruct (iteration_body _ _ _ _ _ _ k st) as [[[] st1]|] eqn:Hb;
      [| |discriminate].
    + apply (IH (S k) st1 st'); try done.
      by apply (iteration_body_hits k st st1 Continue).
    + simplify_eq. by apply (iteration_body_hits k st st' Break).
Qed.

(** X8.  A component that [process] returns as converged has at least two
    ieQTLs. *)
Theorem converged_component_has_ieqtls (r : result) :
  process ieqtl_alpha min_iter max_iter tol find_ieqtls covs n_samples
    uninitialised = Some r ->
  ret_stop r = false -> is_Some (ret_context_a r) -> 2 <= ret_n_hits r.
Proof.
  unfold process. intros H Hstop Hc.
  destruct (max_iter <? 0); [discriminate|].
  destruct (iterate _ _ _ _ _ _ _ _) as [st|] eqn:Hit; [|discriminate].
  simpl in H. simplify_eq. simpl in *.
  apply (iterate_hits _ 0%nat _ st) in Hit; try done.
  split; [done|by left].
Qed.
End Hits.

Lemma converged_component_has_ieqtls_witness :
  exists r,
    process 0.05 5 100 1e-3 oscillating_mapping [("cov", X0)] 3 0 = Some r
    /\ 2 <= ret_n_hits r.
Proof.
  eexists. split; [vm_compute; reflexivity|].
  eapply (converged_component_has_ieqtls 0.05 5 100 1e-3 oscillating_mapping
            [("cov", X0)] 3 0);
    [vm_compute; reflexivity|reflexivity|by eexists].
Defined.

(** ** Optimiser: runs that end without convergence *)

Section Unconverged.
Variable ieqtl_alpha : float.
Variable min_iter max_iter : Z.
Variable tol : float.
Variable find_ieqtls : list float -> option string -> float -> mapping.
Variable covs : list (string * list float).
Variable n_samples : nat.
Variable uninitialised : float.

(** X9.  When the first iteration goes on and the second one finds at most
    one ieQTL, or a sample with at most one ieQTL, [process] returns the
    vector that the first iteration optimised, with the number of ieQTLs
    of the second iteration, and with the stop flag set: the component
    counts as not converged. *)
Theorem second_iteration_abort_sets_stop (st1 : state) (fd : found) :
  1 < max_iter ->
  iteration_body ieqtl_alpha min_iter tol find_ieqtls covs n_samples 0
    (initial_state max_iter n_samples uninitialised) = Some (Continue, st1) ->
  find_significant ieqtl_alpha find_ieqtls covs
    (Found (cov st1) (context_a st1) (n_hits st1) 0 (replicate n_samples 0) [])
  = Some fd ->
  f_n_hits fd <= 1 \/ f_min_n_hits_per_sample fd <= 1 ->
  exists r,
    process ieqtl_alpha min_iter max_iter tol find_ieqtls covs n_samples
      uninitialised = Some r
    /\ ret_stop r = true
    /\ is_Some (ret_context_a r)
    /\ ret_context_a r = context_a st1
    /\ ret_n_hits r = f_n_hits fd
    /\ length (iteration_df r) = 2%nat.
Proof.
  intros Hmax Hb Hfd Hfew. unfold process.
  destruct (max_iter <? 0) eqn:Hneg; [lia|].
  destruct (Z.to_nat max_iter) as [|[|n]] eqn:Hn; [lia|lia|].
  change (seq 0 (S (S n))) with (0%nat :: 1%nat :: seq 2 n).
  cbn [iterate]. rewrite Hb.
  pose proof (iteration_body_context ieqtl_alpha min_iter tol find_ieqtls
                covs n_samples 0 _ st1 Continue (or_introl eq_refl) Hb)
    as [_ Hc].
  destruct (Hc eq_refl) as [c Hctx].
  assert (Hstop1 : InteractionOptimizer.stop st1 = true
                   /\ n_iterations_performed st1 = 1%nat
                   /\ length (iterations_m st1) = S (S (S n))).
  { clear Hfd Hfew Hc. unfold iteration_body, initial_state in Hb.
    rewrite Hn in Hb. unfold np_empty in Hb.
    repeat (simplify_option_eq || case_match); simpl;
      rewrite ?length_insert, ?length_replicate; repeat split; try done; lia. }
  destruct Hstop1 as (Hstop1 & Hn1 & Hlen1).
  assert (Hctx' : f_context_a fd = Some c).
  { erewrite find_significant_context; [| |exact Hfd]; simpl; eauto. }
  assert (Hbody :
    iteration_body ieqtl_alpha min_iter tol find_ieqtls covs n_samples 1 st1
    = Some (Break, abort 1 st1 fd)).
  { unfold iteration_body. cbn [Nat.eqb andb]. rewrite Hfd.
    cbn [mbind option_bind f_context_a]. rewrite Hctx.
    destruct Hfew as [Hh|Hm].
    - destruct (Z.leb_spec (f_n_hits fd) 1); [done|lia].
    - destruct (Z.leb_spec (f_n_hits fd) 1); [done|].
      destruct (Z.leb_spec (f_min_n_hits_per_sample fd) 1); [done|lia]. }
  rewrite Hbody. cbn [mbind option_bind abort Nat.eqb].
  eexists. split; [reflexivity|].
  cbn [ret_stop ret_context_a ret_n_hits iteration_df n_iterations_performed
         context_a n_hits InteractionOptimizer.stop iterations_m].
  rewrite Hn1, Hctx', Hctx, length_take, Hlen1.
  repeat split; done.
Qed.

(** Without any iteration [process] returns no vector, and the stop
    flag is set. *)
Lemma process_without_iteration :
  max_iter = 0 ->
  exists r,
    process ieqtl_alpha min_iter max_iter tol find_ieqtls covs n_samples
      uninitialised = Some r
    /\ ret_context_a r = None /\ ret_stop r = true /\ ret_n_hits r = 0
    /\ n_hits_per_sample_df r = None /\ info_df r = None.
Proof. intros ->. eexists. split; [reflexivity|]. by repeat split. Qed.
End Unconverged.

Lemma second_iteration_abort_sets_stop_witness :
  exists r,
    process 0.05 5 100 1e-3 fading_mapping [("cov", X0)] 3 0 = Some r
    /\ ret_stop r = true
    /\ ret_context_a r = Some X1
    /\ ret_n_hits r = 1.
Proof.
  edestruct (second_iteration_abort_sets_stop 0.05 5 100 1e-3 fading_mapping
               [("cov", X0)] 3 0) as (r & Hr & Hs & _ & Hc & Hn & _);
    [reflexivity | vm_compute; reflexivity | vm_compute; reflexivity
    | left; vm_compute; discriminate |].
  exists r. split; [exact Hr|]. split; [exact Hs|]. split; [exact Hc|exact Hn].
Defined.

Section NoIteration.
Variable cfg : settings.
Variable remove_covariates :
  list (list float) -> option (list (list float)) ->
  option (list (list float)) -> list (list float) -> list (list float).
Variable map_interactions :
  list (string * string) -> list (list float) -> list (list float) ->
  list float -> option string -> float -> mapping.
Variable uninitialised : float.
Variable samples : list string.
Variable eqtl_m : list (string * string).
Variable geno_m expr_m : list (list float).
Variable covs : list (string * list float).
Variable corr_m corr_inter_m : option (list (list float)).

(** X10.  With [-max_iter 0] the optimiser runs no iteration: the loop over
    the components ends at the first component with the stop flag set
    and without a component, no [component.npy] is written, and the run
    ends with status 0 after [SummaryStats.txt.gz]. *)
Theorem no_iteration_no_component (n : nat) (fs : files) :
  max_iter cfg = 0 ->
  fs !! component_path 0 = None ->
  exists st fs1,
    identify_pics cfg remove_covariates map_interactions uninitialised samples
      eqtl_m geno_m expr_m covs (seq 0 (S n))
      (Pics (InteractionOptimizer.np_empty uninitialised (S n) (length samples))
         (replicate (S n) [nan; nan]) 0 None false corr_m corr_inter_m None) fs
    = Next st fs1
    /\ stop st = true /\ pic_a st = None
    /\ n_components_performed st = 0%nat
    /\ (forall k, fs1 !! component_path k = fs !! component_path k)
    /\ finish cfg remove_covariates map_interactions eqtl_m geno_m expr_m
         corr_m corr_inter_m st fs1
       = Stop (Exited 0 (<["SummaryStats.txt.gz" :=
                            summary_stats_df cfg (summary_stats_m st)]> fs1)).
Proof.
  intros Hmax Hfs.
  set (st0 := Pics (InteractionOptimizer.np_empty uninitialised (S n)
                      (length samples))
                (replicate (S n) [nan; nan]) 0 None false corr_m corr_inter_m
                None).
  destruct (process_without_iteration (ieqtl_alpha cfg) (min_iter cfg)
              (max_iter cfg) (tol cfg)
              (map_interactions eqtl_m geno_m
                 (remove_covariates expr_m corr_m corr_inter_m geno_m))
              covs (length samples) uninitialised Hmax)
    as (r & Hr & Hc & Hs & _).
  destruct (identify_pics_no_component cfg remove_covariates map_interactions
              uninitialised samples eqtl_m geno_m expr_m covs 0%nat
              (seq 1 n) st0 fs r) as (fs1 & Hloop & Hframe);
    [reflexivity | exact Hfs | exact Hr | exact Hc |].
  change (seq 0 (S n)) with (0%nat :: seq 1 n).
  eexists _, fs1. split; [exact Hloop|].
  cbn [n_components_performed pic_a stop]. by rewrite Hs.
Qed.
End NoIteration.

Lemma no_iteration_no_component_witness :
  exists st fs1,
    identify_pics (no_iterations 2 false) no_correction restless 0
      six_samples two_pairs (values (geno_df two_eqtls))
      (values (expr_df two_eqtls)) one_covariate (seq 0 2)
      (no_component_yet 2) ∅ = Next st fs1
    /\ stop st = true /\ pic_a st = None
    /\ n_components_performed st = 0%nat.
Proof.
  edestruct (no_iteration_no_component (no_iterations 2 false) no_correction
               restless 0 six_samples two_pairs (values (geno_df two_eqtls))
               (values (expr_df two_eqtls)) one_covariate None None 1 ∅)
    as (st & fs1 & Hloop & Hs & Ha & Hn & _);
    [reflexivity|apply lookup_empty|].
  exists st, fs1. split; [exact Hloop|]. split; [exact Hs|].
  split; [exact Ha|exact Hn].
Defined.

(** ** Driver: components found in the output directory *)

Section Resume.
Variable cfg : settings.
Variables remove_covariates remove_covariates' :
  list (list float) -> option (list (list float)) ->
  option (list (list float)) -> list (list float) -> list (list float).
Variables map_interactions map_interactions' :
  list (string * string) -> list (list float) -> list (list float) ->
  list float -> option string -> float -> mapping.
Variables uninitialised uninitialised' : float.
Variable samples : list string.
Variables eqtl_m eqtl_m' : list (string * string).
Variables geno_m expr_m geno_m' expr_m' : list (list float).
Variables covs covs' : list (string * list float).

(** X11.  A component whose [component.npy] is in the output directory is
    loaded, not identified: the step does not depend on the data, on the
    covariates or on the mapping of the ieQTLs; it goes on to the next
    component with the vector of the file, leaves the stop flag as it
    was and writes [components.txt.gz] only. *)
Theorem saved_component_is_loaded (comp_count : nat) (st : pics)
  (fs : files) (a : list float) :
  (stop st && negb (force_continue cfg))%bool = false ->
  fs !! component_path comp_count = Some (Npy a) ->
  identify_pic cfg remove_covariates map_interactions uninitialised samples
    eqtl_m geno_m expr_m covs comp_count st fs
  = identify_pic cfg remove_covariates' map_interactions' uninitialised'
      samples eqtl_m' geno_m' expr_m' covs' comp_count st fs
  /\ forall c st' fs',
      identify_pic cfg remove_covariates map_interactions uninitialised
        samples eqtl_m geno_m expr_m covs comp_count st fs
      = Next (c, st') fs' ->
      c = Continue /\ pic_a st' = Some a /\ stop st' = stop st
      /\ n_components_performed st' = S (n_components_performed st)
      /\ fs' !! component_path comp_count = Some (Npy a)
      /\ forall path,
          path <> "components.txt.gz" -> fs' !! path = fs !! path.
Proof.
  intros Htop Hfs. split.
  - unfold identify_pic. rewrite Htop.
    destruct (pic_a st); unfold bind, read; rewrite Hfs; reflexivity.
  - intros c st' fs' H. unfold identify_pic in H. rewrite Htop in H.
    destruct (pic_a st) as [prev|];
      unfold bind, read in H; rewrite Hfs in H;
      unfold try, ret, raise, save, bind in H;
      repeat (case_match; simplify_eq); simpl;
      repeat split; try done;
      try (rewrite lookup_insert_ne; [done|apply components_is_not_a_component]);
      intros path Hp; by rewrite lookup_insert_ne.
Qed.
End Resume.

Lemma saved_component_is_loaded_witness :
  identify_pic (default_settings 2 false) no_correction no_hits 0
    six_samples two_pairs (values (geno_df two_eqtls))
    (values (expr_df two_eqtls)) one_covariate 0 (no_component_yet 2)
    (<["PIC1/component.npy" := Npy [1; 2; 3; 4; 5; 6]%float]> ∅)
  = identify_pic (default_settings 2 false) no_correction restless 1
      six_samples [] [] [] [] 0 (no_component_yet 2)
      (<["PIC1/component.npy" := Npy [1; 2; 3; 4; 5; 6]%float]> ∅).
Proof.
  apply (saved_component_is_loaded (default_settings 2 false) no_correction
           no_correction no_hits restless 0 1 six_samples two_pairs []
           (values (geno_df two_eqtls)) (values (expr_df two_eqtls)) [] []
           one_covariate [] 0 (no_component_yet 2)
           (<["PIC1/component.npy" := Npy [1; 2; 3; 4; 5; 6]%float]> ∅)
           [1; 2; 3; 4; 5; 6]%float); [reflexivity|].
  vm_compute. reflexivity.
Defined.

(** ** Driver: the end of a run *)

Section EndOfRun.
Variable cfg : settings.
Variable remove_covariates :
  list (list float) -> option (list (list float)) ->
  option (list (list float)) -> list (list float) -> list (list float).
Variable map_interactions :
  list (string * string) -> list (list float) -> list (list float) ->
  list float -> option string -> float -> mapping.
Variable eqtl_m : list (string * string).
Variable geno_m expr_m : list (list float).

Lemma finish_next (corr_m corr_inter_m : option (list (list float)))
  (st : pics) (fs : files) (components : DataFrame) :
  n_components_performed st <> 0%nat ->
  components_df st = Some components ->
  exists fs',
    finish cfg remove_covariates map_interactions eqtl_m geno_m expr_m
      corr_m corr_inter_m st fs = Next tt fs'
    /\ fs' !! "PICs.txt.gz" = Some (Table (pics_of cfg st components))
    /\ is_Some (fs' !! "SummaryStats.txt.gz")
    /\ forall path,
        path <> "PICs.txt.gz" -> path <> "SummaryStats.txt.gz" ->
        (forall pic, path <> "PIC_interactions/" +:+ pic +:+ ".txt.gz") ->
        fs' !! path = fs !! path.
Proof.
  intros Hn Hc. unfold finish.
  destruct (Nat.eqb_spec (n_components_performed st) 0) as [|_]; [done|].
  rewrite Hc. unfold try, bind, ret. cbv beta iota zeta.
  remember (pics_of cfg st components) as pics_df eqn:Hpics.
  unfold save at 1.
  set (fs1 := <["PICs.txt.gz" := Table pics_df]> fs).
  assert (Hsum : forall summary fs2,
             fs2 !! "PICs.txt.gz" = Some (Table pics_df) ->
             (forall path,
                 path <> "PICs.txt.gz" ->
                 (forall pic, path <> "PIC_interactions/" +:+ pic +:+ ".txt.gz") ->
                 fs2 !! path = fs !! path) ->
             exists fs',
               save "SummaryStats.txt.gz" (summary_stats_df cfg summary) fs2
               = Next tt fs'
               /\ fs' !! "PICs.txt.gz" = Some (Table pics_df)
               /\ is_Some (fs' !! "SummaryStats.txt.gz")
               /\ forall path,
                   path <> "PICs.txt.gz" -> path <> "SummaryStats.txt.gz" ->
                   (forall pic,
                       path <> "PIC_interactions/" +:+ pic +:+ ".txt.gz") ->
                   fs' !! path = fs !! path).
  { intros summary fs2 G1 G2. eexists. split; [reflexivity|].
    split; [by rewrite lookup_insert_ne|].
    split; [rewrite lookup_insert_eq; by eexists|].
    intros path H1 H2 H3. rewrite lookup_insert_ne by done. by apply G2. }
  destruct (0 <? length (index pics_df))%nat.
  - edestruct (map_pics_next cfg map_interactions eqtl_m geno_m
                 (remove_covariates expr_m corr_m corr_inter_m geno_m)
                 (imap pair (zip (index pics_df) (values pics_df)))
                 (summary_stats_m st) fs1)
      as (summary' & fs2 & Hmap & Hframe).
    rewrite Hmap. apply Hsum.
    + rewrite Hframe; [apply lookup_insert_eq|]. intros pic H.
      apply (f_equal (fun s => String.get 3 s)) in H. vm_compute in H.
      discriminate.
    + intros path H1 H2. rewrite Hframe by done.
      unfold fs1. by rewrite lookup_insert_ne.
  - apply Hsum; [apply lookup_insert_eq|].
    intros path H1 H2. unfold fs1. by rewrite lookup_insert_ne.
Qed.

(** X12.  When the last component converged, or [-force_continue] is set,
    the end of [start] writes every component of [components.txt.gz] to
    [PICs.txt.gz]; it writes [SummaryStats.txt.gz] and the interactions
    of the PICs, and nothing else. *)
Theorem converged_components_are_all_pics
  (corr_m corr_inter_m : option (list (list float)))
  (st : pics) (fs : files) (components : DataFrame) :
  n_components_performed st <> 0%nat ->
  components_df st = Some components ->
  stop st = false \/ force_continue cfg = true ->
  exists fs',
    finish cfg remove_covariates map_interactions eqtl_m geno_m expr_m
      corr_m corr_inter_m st fs = Next tt fs'
    /\ fs' !! "PICs.txt.gz" = Some (Table components)
    /\ is_Some (fs' !! "SummaryStats.txt.gz")
    /\ forall path,
        path <> "PICs.txt.gz" -> path <> "SummaryStats.txt.gz" ->
        (forall pic, path <> "PIC_interactions/" +:+ pic +:+ ".txt.gz") ->
        fs' !! path = fs !! path.
Proof.
  intros Hn Hc Hall.
  destruct (finish_next corr_m corr_inter_m st fs components Hn Hc)
    as (fs' & Hfin & Hp & Hs & Hframe).
  exists fs'. split; [done|]. split; [|done].
  rewrite Hp. unfold pics_of.
  destruct Hall as [->| ->]; [done|]. by rewrite andb_false_r.
Qed.
End EndOfRun.

Lemma converged_components_are_all_pics_witness :
  exists fs',
    finish (default_settings 1 false) no_correction no_hits two_pairs
      (values (geno_df two_eqtls)) (values (expr_df two_eqtls)) None None
      (Pics [X0] [[nan; nan]] 1 (Some X0) false None None
         (Some (components_table ["s1"; "s2"; "s3"] 1 [X0]))) ∅
    = Next tt fs'
    /\ fs' !! "PICs.txt.gz"
       = Some (Table (components_table ["s1"; "s2"; "s3"] 1 [X0])).
Proof.
  edestruct (converged_components_are_all_pics (default_settings 1 false)
               no_correction no_hits two_pairs (values (geno_df two_eqtls))
               (values (expr_df two_eqtls)) None None
               (Pics [X0] [[nan; nan]] 1 (Some X0) false None None
                  (Some (components_table ["s1"; "s2"; "s3"] 1 [X0]))) ∅)
    as (fs' & Hfin & Hp & _); [discriminate|reflexivity|by left|].
  exists fs'. by split.
Defined.
(** ** fast_interaction_mapper.py: no significant eQTL *)

(** X14.  When no eQTL has an FDR below [eqtl_alpha], [start] of the fast
    mapper ends with an exception (the maximum of an empty index) before
    it reads the genotypes; nothing is written. *)
Theorem fast_mapper_needs_a_significant_eqtl (cfg : settings)
  (eqtl_alpha : value) (data : Data) (fs : files) :
  (forall below e,
      fdr_below eqtl_alpha = Some below -> e ∈ eqtl_df data ->
      below (FDR e) = false) ->
  start_call_rate cfg eqtl_alpha data fs = Stop (Uncaught fs).
Proof.
  intros H. unfold start_call_rate, eqtl_fdr_keep_mask, bind, try, ret.
  destruct (fdr_below eqtl_alpha) as [below|]; [|reflexivity].
  cbn [fmap option_fmap option_map].
  rewrite (select_none (fun e => below (FDR e))); [reflexivity|].
  intros e He. by apply H.
Qed.

Lemma fast_mapper_needs_a_significant_eqtl_witness :
  start_call_rate (default_settings 1 false) (VFloat 0.001) two_eqtls ∅
  = Stop (Uncaught ∅).
Proof.
  apply fast_mapper_needs_a_significant_eqtl.
  intros below e [= <-] He. unfold two_eqtls in He. cbn [eqtl_df] in He.
  repeat (apply elem_of_cons in He as [->|He]; [reflexivity|]).
  by apply elem_of_nil in He.
Defined.

(** ** Command line: the defaults *)

Lemma omitted_default (py_int : string -> option Z)
  (py_float : string -> option float) (argv : list string)
  (ns : gmap string value) (d : string) (options : list string) (v : value) :
  parse_args py_int py_float create_argument_parser argv = Parsed ns ->
  (forall tok, declares create_argument_parser d tok -> tok ∈ options) ->
  defaults create_argument_parser !! d = Some v ->
  omitted argv options -> get_argument ns d = v.
Proof.
  intros H Hdecl Hdef Hom. unfold get_argument.
  rewrite (parsed_default _ _ _ _ _ d H), Hdef; [done|].
  intros tok Htok Hd. by apply (Hom tok (Hdecl tok Hd)).
Qed.

Lemma declares_options_of (parser : list argument) (d tok : string) :
  declares parser d tok -> tok ∈ options_of parser d.
Proof.
  intros (a & Hin & Hd & Ht). unfold options_of.
  apply list_elem_of_In, in_concat. exists (option_strings a).
  split; [|by apply list_elem_of_In].
  apply list_elem_of_In, list_elem_of_fmap. exists a. split; [done|].
  apply list_elem_of_In, filter_In. split; [by apply list_elem_of_In|].
  by apply bool_decide_eq_true.
Qed.

Ltac solve_options :=
  let tok := fresh "tok" in let Hd := fresh "Hd" in
  intros tok Hd; apply declares_options_of in Hd;
  vm_compute in Hd; exact Hd.

(** X15.  On a command line that is accepted, with every option written
    as one of its option strings, the thresholds of the quality control
    and the settings of the optimiser that are not given have the
    defaults of [create_argument_parser]. *)
Theorem omitted_options_have_defaults (py_int : string -> option Z)
  (py_float : string -> option float) (argv : list string)
  (ns : gmap string value) :
  parse_args py_int py_float create_argument_parser argv = Parsed ns ->
  (omitted argv ["-na"; "--genotype_na"] ->
   get_argument ns "genotype_na" = VInt (-1))
  /\ (omitted argv ["-mds"; "--min_dataset_size"] ->
      get_argument ns "min_dataset_size" = VInt 30)
  /\ (omitted argv ["-cr"; "--call_rate"] ->
      get_argument ns "call_rate" = VFloat 0.95)
  /\ (omitted argv ["-hw"; "--hardy_weinberg_pvalue"] ->
      get_argument ns "hardy_weinberg_pvalue" = VFloat 1e-4)
  /\ (omitted argv ["-maf"; "--minor_allele_frequency"] ->
      get_argument ns "minor_allele_frequency" = VFloat 0.01)
  /\ (omitted argv ["-mgs"; "--min_group_size"] ->
      get_argument ns "min_group_size" = VInt 2)
  /\ (omitted argv ["-iea"; "--ieqtl_alpha"] ->
      get_argument ns "ieqtl_alpha" = VFloat 0.05)
  /\ (omitted argv ["-n_components"] ->
      get_argument ns "n_components" = VInt 10)
  /\ (omitted argv ["-min_iter"] -> get_argument ns "min_iter" = VInt 5)
  /\ (omitted argv ["-max_iter"] -> get_argument ns "max_iter" = VInt 100)
  /\ (omitted argv ["-tol"] -> get_argument ns "tol" = VFloat 1e-3)
  /\ (omitted argv ["-force_continue"] ->
      get_argument ns "force_continue" = VBool false)
  /\ (omitted argv ["-o"; "--outdir"] ->
      get_argument ns "outdir" = VStr "output").
Proof.
  intros H.
  repeat split;
    (eapply (omitted_default py_int py_float argv ns);
     [exact H|solve_options|vm_compute; reflexivity]).
Qed.

Lemma omitted_options_have_defaults_witness :
  exists ns,
    parse_args no_number no_number create_argument_parser four_files
    = Parsed ns
    /\ (omitted four_files ["-na"; "--genotype_na"] ->
     get_argument ns "genotype_na" = VInt (-1))
    /\ (omitted four_files ["-mds"; "--min_dataset_size"] ->
        get_argument ns "min_dataset_size" = VInt 30)
    /\ (omitted four_files ["-cr"; "--call_rate"] ->
        get_argument ns "call_rate" = VFloat 0.95)
    /\ (omitted four_files ["-hw"; "--hardy_weinberg_pvalue"] ->
        get_argument ns "hardy_weinberg_pvalue" = VFloat 1e-4)
    /\ (omitted four_files ["-maf"; "--minor_allele_frequency"] ->
        get_argument ns "minor_allele_frequency" = VFloat 0.01)
    /\ (omitted four_files ["-mgs"; "--min_group_size"] ->
        get_argument ns "min_group_size" = VInt 2)
    /\ (omitted four_files ["-iea"; "--ieqtl_alpha"] ->
        get_argument ns "ieqtl_alpha" = VFloat 0.05)
    /\ (omitted four_files ["-n_components"] ->
        get_argument ns "n_components" = VInt 10)
    /\ (omitted four_files ["-min_iter"] -> get_argument ns "min_iter" = VInt 5)
    /\ (omitted four_files ["-max_iter"] -> get_argument ns "max_iter" = VInt 100)
    /\ (omitted four_files ["-tol"] -> get_argument ns "tol" = VFloat 1e-3)
    /\ (omitted four_files ["-force_continue"] ->
        get_argument ns "force_continue" = VBool false)
    /\ (omitted four_files ["-o"; "--outdir"] ->
        get_argument ns "outdir" = VStr "output").
Proof.
  eexists. split; [vm_compute; reflexivity|].
  apply (omitted_options_have_defaults no_number no_number four_files).
  vm_compute; reflexivity.
Defined.
(** ** optimize_ieqtls *)

Lemma sum_axis0_from_length (rows : list (list float)) :
  forall acc,
    Forall (fun r => length r = length acc) rows ->
    exists s, sum_axis0_from acc rows = Some s /\ length s = length acc.
Proof.
  induction rows as [|r rows IH]; intros acc Hall; simpl.
  - by exists acc.
  - apply Forall_cons in Hall as [Hr Hrows].
    rewrite decide_True by done.
    destruct (IH (zip_with PrimFloat.add acc r)) as (s & Hs & Hlen).
    + eapply Forall_impl; [exact Hrows|]. simpl. intros x Hx.
      rewrite length_zip_with. lia.
    + exists s. split; [done|]. rewrite Hlen, length_zip_with. lia.
Qed.

(** Element by element, the sum of the rows is taken in their order. *)
Lemma sum_axis0_from_nth (rows : list (list float)) (i : nat) :
  forall acc s,
    sum_axis0_from acc rows = Some s -> (i < length acc)%nat ->
    s !! i = Some (foldl (fun a r => (a + nth i r 0)%float)
                     (nth i acc 0%float) rows).
Proof.
  induction rows as [|r rows IH]; intros acc s H Hi; simpl in H.
  - injection H as <-. simpl. rewrite nth_lookup.
    destruct (lookup_lt_is_Some_2 acc i Hi) as [x ->]. reflexivity.
  - destruct (decide (length r = length acc)) as [Hr|]; [|discriminate].
    rewrite (IH _ _ H) by (rewrite length_zip_with; lia).
    simpl. do 2 f_equal. rewrite !nth_lookup, lookup_zip_with.
    destruct (lookup_lt_is_Some_2 acc i Hi) as [x ->].
    destruct (lookup_lt_is_Some_2 r i ltac:(lia)) as [y ->]. reflexivity.
Qed.

(** X16.  For ieQTLs whose coefficient arrays all have the length [n], and
    at least one ieQTL, [optimize_ieqtls] returns a vector of length
    [n]: for every sample, with [a] and [b] the sums of the first and
    of the second coefficients of the ieQTLs at this sample, it holds
    [-b / (2 * a)], and NaN when [a] is 0.  Without any ieQTL it
    raises. *)
Theorem optimize_ieqtls_vertex_of_sums (q : IeQTL) (rest : list IeQTL)
  (n : nat) :
  Forall (fun q => length (get_mll_coef_representation q).1 = n
                   /\ length (get_mll_coef_representation q).2 = n)
    (q :: rest) ->
  exists optimized_a,
    optimize_ieqtls (q :: rest) = Some optimized_a
    /\ length optimized_a = n
    /\ (forall i, (i < n)%nat ->
          let a := coefficient_sum (fun q => (get_mll_coef_representation q).1)
                     i q rest in
          let b := coefficient_sum (fun q => (get_mll_coef_representation q).2)
                     i q rest in
          optimized_a !! i
          = Some (- b / (2 * (if PrimFloat.eqb a 0 then nan else a)))%float
          /\ (PrimFloat.eqb a 0 = true -> optimized_a !! i = Some nan))
    /\ optimize_ieqtls [] = None.
Proof.
  intros Hall. apply Forall_cons in Hall as [[Ha Hb] Hrest].
  destruct (sum_axis0_from_length
              ((fun q => (get_mll_coef_representation q).1) <$> rest)
              (get_mll_coef_representation q).1) as (sa & Hsa & Hla).
  { apply Forall_fmap. eapply Forall_impl; [exact Hrest|].
    simpl. intros x [Hx _]. lia. }
  destruct (sum_axis0_from_length
              ((fun q => (get_mll_coef_representation q).2) <$> rest)
              (get_mll_coef_representation q).2) as (sb & Hsb & Hlb).
  { apply Forall_fmap. eapply Forall_impl; [exact Hrest|].
    simpl. intros x [_ Hx]. lia. }
  exists (zip_with vertex sb (zero_to_nan <$> sa)).
  assert (Hopt : optimize_ieqtls (q :: rest)
                 = Some (zip_with vertex sb (zero_to_nan <$> sa))).
  { unfold optimize_ieqtls. cbv zeta. rewrite !fmap_cons.
    cbn [sum_axis0]. rewrite Hsa, Hsb. cbn [mbind option_bind].
    unfold calc_vertex_xpos.
    rewrite lookup_insert_ne, lookup_insert_eq by done. cbv zeta.
    cbn [snd].
    rewrite lookup_insert_eq, lookup_insert_ne, lookup_insert_eq by done.
    unfold broadcast2.
    change (map zero_to_nan sa) with (zero_to_nan <$> sa).
    rewrite decide_True by (rewrite length_fmap; lia).
    reflexivity. }
  split; [done|].
  split; [rewrite length_zip_with, length_fmap; lia|].
  split; [|reflexivity].
  intros i Hi a b.
  assert (Hai : sa !! i = Some a).
  { rewrite (sum_axis0_from_nth _ i _ _ Hsa) by lia.
    unfold a, coefficient_sum. f_equal.
    by rewrite foldl_fmap. }
  assert (Hbi : sb !! i = Some b).
  { rewrite (sum_axis0_from_nth _ i _ _ Hsb) by lia.
    unfold b, coefficient_sum. f_equal.
    by rewrite foldl_fmap. }
  assert (Hv : zip_with vertex sb (zero_to_nan <$> sa) !! i
               = Some (- b / (2 * (if PrimFloat.eqb a 0 then nan else a)))%float).
  { rewrite lookup_zip_with, Hbi. simpl.
    by rewrite list_lookup_fmap, Hai. }
  split; [exact Hv|].
  intros Hz. rewrite Hv, Hz. f_equal. apply opp_div_nan.
Qed.

Lemma optimize_ieqtls_vertex_of_sums_witness :
  exists optimized_a,
    optimize_ieqtls
      [ieqtl "rs1_gene1" [1; 1; 0]%float [-2; -6; -4]%float;
       ieqtl "rs2_gene2" [1; 1; 0]%float [-2; -6; -4]%float]
    = Some optimized_a
    /\ length optimized_a = 3%nat
    /\ optimized_a !! 1%nat = Some 3%float
    /\ optimized_a !! 2%nat = Some nan.
Proof.
  edestruct (optimize_ieqtls_vertex_of_sums
               (ieqtl "rs1_gene1" [1; 1; 0]%float [-2; -6; -4]%float)
               [ieqtl "rs2_gene2" [1; 1; 0]%float [-2; -6; -4]%float] 3)
    as (v & Hv & Hl & Hi & _).
  - repeat constructor.
  - exists v. split; [exact Hv|]. split; [exact Hl|].
    split.
    + destruct (Hi 1%nat ltac:(lia)) as [H1 _]. rewrite H1. reflexivity.
    + destruct (Hi 2%nat ltac:(lia)) as [_ H2]. apply H2. reflexivity.
Defined.

(** ** reverse_merge_dict *)

Lemma keys_of_snoc (value : string) (dict : list (string * string))
  (key value' : string) :
  keys_of value (dict ++ [(key, value')])
  = keys_of value dict ++ (if decide (value' = value) then [key] else []).
Proof.
  unfold keys_of. rewrite filter_app, fmap_app. f_equal.
  destruct (decide (value' = value)) as [->|Hne].
  - by rewrite filter_cons_True.
  - by rewrite filter_cons_False.
Qed.

Lemma reverse_merge_dict_inv (dict : list (string * string)) :
  forall (seen : list (string * string)) (out : gmap string (list string)),
    (forall value,
        out !! value
        = match keys_of value seen with [] => None | keys => Some keys end) ->
    forall value,
      foldl (fun out_dict '(key, value) =>
               match out_dict !! value with
               | Some keys => <[value := keys ++ [key]]> out_dict
               | None => <[value := [key]]> out_dict
               end) out dict !! value
      = match keys_of value (seen ++ dict) with
        | [] => None
        | keys => Some keys
        end.
Proof.
  induction dict as [|[key v] dict IH]; intros seen out Hout value.
  - simpl. by rewrite app_nil_r.
  - replace (seen ++ (key, v) :: dict) with ((seen ++ [(key, v)]) ++ dict)
      by (by rewrite <- app_assoc).
    cbn [foldl]. apply IH. clear value. intros value.
    rewrite keys_of_snoc. pose proof (Hout v) as Hv. pose proof (Hout value) as Hw.
    destruct (decide (v = value)) as [->|Hne].
    + destruct (out !! value) as [keys|] eqn:E.
      * rewrite lookup_insert_eq.
        destruct (keys_of value seen) as [|k ks]; [done|]. by simplify_eq.
      * rewrite lookup_insert_eq.
        destruct (keys_of value seen) as [|k ks]; [done|discriminate].
    + rewrite app_nil_r.
      destruct (out !! v); by rewrite lookup_insert_ne.
Qed.

(** X17.  [reverse_merge_dict] maps every value of the dictionary to its
    keys in the order of the dictionary, and holds no other key: a key
    is listed for a value exactly when the dictionary maps it to that
    value, and no list is empty. *)
Theorem reverse_merge_dict_inverts (dict : list (string * string)) :
  (forall value,
      Objects.reverse_merge_dict dict !! value
      = match keys_of value dict with [] => None | keys => Some keys end)
  /\ (forall key value keys,
         Objects.reverse_merge_dict dict !! value = Some keys ->
         key ∈ keys <-> (key, value) ∈ dict)
  /\ (forall value, Objects.reverse_merge_dict dict !! value <> Some []).
Proof.
  assert (H : forall value,
             Objects.reverse_merge_dict dict !! value
             = match keys_of value dict with
               | [] => None
               | keys => Some keys
               end).
  { intros value. unfold Objects.reverse_merge_dict.
    by rewrite (reverse_merge_dict_inv dict [] ∅). }
  split; [exact H|]. split.
  - intros key value keys Hk. rewrite H in Hk.
    assert (keys = keys_of value dict) as ->
      by (destruct (keys_of value dict); by simplify_eq).
    unfold keys_of. rewrite list_elem_of_fmap. split.
    + intros ([k v] & -> & [Hv Hin]%list_elem_of_filter). simpl in *. by subst.
    + intros Hin. exists (key, value). split; [done|].
      by apply list_elem_of_filter.
  - intros value. rewrite H. by destruct (keys_of value dict).
Qed.

Example reverse_merge_dict_of_three :
  Objects.reverse_merge_dict [("s1", "A"); ("s2", "B"); ("s3", "A")]
  = <["B" := ["s2"]]> (<["A" := ["s1"; "s3"]]> ∅).
Proof. by vm_compute. Qed.

(** ** Driver: a run without a sample-to-dataset table *)

(** X18.  Without a sample-to-dataset table the run is the run with the
    table that puts every sample of the genotype header in the dataset
    [None]. *)
Theorem run_without_std_is_one_dataset (cfg : settings)
  (calc_hwe_pvalue : Z -> Z -> Z -> float) (pandas_std : list float -> float)
  (remove_covariates :
    list (list float) -> option (list (list float)) ->
    option (list (list float)) -> list (list float) -> list (list float))
  (map_interactions :
    list (string * string) -> list (list float) -> list (list float) ->
    list float -> option string -> float -> mapping)
  (uninitialised : float) (data : Data) (fs : files) :
  std_df data = None ->
  run cfg calc_hwe_pvalue pandas_std remove_covariates map_interactions
    uninitialised data fs
  = run cfg calc_hwe_pvalue pandas_std remove_covariates map_interactions
      uninitialised (with_one_dataset data) fs.
Proof.
  intros Hstd. unfold run. f_equal. unfold start.
  cbn [with_one_dataset std_df geno_df eqtl_df expr_df covs_df tcov_df
         tcov_inter_df].
  rewrite Hstd.
  assert (Hv : forall fs0,
             validate_data
               ((fun sample => (sample, "None")) <$> columns (geno_df data))
               None (Some (geno_df data)) None None None fs0 = Next tt fs0).
  { intros fs0. unfold validate_data. cbn [fmap option_fmap option_map].
    rewrite <- list_fmap_compose.
    change (fst ∘ (fun sample : string => (sample, "None"))) with (@id string).
    rewrite list_fmap_id. by rewrite bool_decide_eq_true_2. }
  unfold bind at 1. symmetry. unfold bind at 1. unfold bind at 1.
  rewrite Hv. reflexivity.
Qed.

Lemma run_without_std_is_one_dataset_witness :
  run (default_settings 1 false) hwe_one std_one no_correction restless 0
    without_std ∅
  = run (default_settings 1 false) hwe_one std_one no_correction restless 0
      (with_one_dataset without_std) ∅.
Proof.
  apply (run_without_std_is_one_dataset (default_settings 1 false) hwe_one
           std_one no_correction restless 0 without_std ∅).
  reflexivity.
Defined.

(** ** Driver: the components that are counted *)

Lemma append_length (s t : string) :
  String.length (s +:+ t) = (String.length s + String.length t)%nat.
Proof.
  induction s as [|c s IH]; [done|].
  change (String c s +:+ t) with (String c (s +:+ t)). simpl. by rewrite IH.
Qed.

Lemma append_inj_suffix (t : string) :
  forall s1 s2, s1 +:+ t = s2 +:+ t -> s1 = s2.
Proof.
  induction s1 as [|c s1 IH]; intros [|c' s2] H; [done|..].
  - apply (f_equal String.length) in H.
    change (String c' s2 +:+ t) with (String c' (s2 +:+ t)) in H.
    change ("" +:+ t) with t in H. simpl in H. rewrite append_length in H. lia.
  - apply (f_equal String.length) in H.
    change (String c s1 +:+ t) with (String c (s1 +:+ t)) in H.
    change ("" +:+ t) with t in H. simpl in H. rewrite append_length in H. lia.
  - change (String c (s1 +:+ t) = String c' (s2 +:+ t)) in H.
    injection H as -> H. f_equal. by apply IH.
Qed.

Lemma component_path_inj (i k : nat) :
  component_path i = component_path k -> i = k.
Proof.
  unfold component_path, pic_name. intros H.
  apply append_inj_suffix in H. apply (inj (String.append "PIC")) in H.
  apply (inj pretty) in H. lia.
Qed.

Lemma pic_name_head (k : nat) (s : string) :
  String.get 0 (pic_name k +:+ s) = Some "P"%char.
Proof. reflexivity. Qed.

(** The tables of the optimiser are written in the directory of the
    component. *)
Lemma save_process_tables_head (comp_count : nat) (samples : list string)
  (r : result) (fs : files) :
  exists fs',
    save_process_tables comp_count samples r fs = Next tt fs'
    /\ (forall q, last_char q <> Some "z"%char -> fs' !! q = fs !! q)
    /\ (forall q, String.get 0 q <> Some "P"%char -> fs' !! q = fs !! q).
Proof.
  destruct (save_process_tables_next comp_count samples r fs)
    as (fs' & Hsave & Hz).
  exists fs'. split; [done|]. split; [done|].
  revert Hsave. unfold save_process_tables, bind, save, ret.
  destruct (n_hits_per_sample_df r), (info_df r); intros Hsave q Hq;
    simplify_eq;
    rewrite ?lookup_insert_ne; try done;
    intros <-; by rewrite pic_name_head in Hq.
Qed.

Section Counted.
Variable cfg : settings.
Variable remove_covariates :
  list (list float) -> option (list (list float)) ->
  option (list (list float)) -> list (list float) -> list (list float).
Variable map_interactions :
  list (string * string) -> list (list float) -> list (list float) ->
  list float -> option string -> float -> mapping.
Variable uninitialised : float.
Variable samples : list string.
Variable eqtl_m : list (string * string).
Variable geno_m expr_m : list (list float).
Variable covs : list (string * list float).

Lemma identify_pic_optimised (comp_count : nat) (st : pics) (fs : files)
  (r : result) :
  (stop st && negb (force_continue cfg))%bool = false ->
  fs !! component_path comp_count = None ->
  optimise cfg remove_covariates map_interactions uninitialised samples
    eqtl_m geno_m expr_m covs st = Some r ->
  exists fs1,
    (forall q, last_char q <> Some "z"%char -> fs1 !! q = fs !! q)
    /\ (forall q, String.get 0 q <> Some "P"%char -> fs1 !! q = fs !! q)
    /\ identify_pic cfg remove_covariates map_interactions uninitialised
         samples eqtl_m geno_m expr_m covs comp_count st fs =
       let summary :=
         set_cell comp_count 0 (float_of_Z (ret_n_hits r)) (summary_stats_m st) in
       match ret_context_a r with
       | None =>
           Next (Break,
                 Pics (pic_m st) summary (n_components_performed st) None
                   (ret_stop r) (corrections st).1 (corrections st).2
                   (components_df st)) fs1
       | Some a =>
           match set_row comp_count a (pic_m st) with
           | None => Stop (Uncaught fs1)
           | Some pic_m' =>
               let n := S (n_components_performed st) in
               Next (Continue,
                     Pics pic_m' summary n (Some a) (ret_stop r)
                       (corrections st).1 (corrections st).2
                       (Some (components_table samples n pic_m')))
                 (<["components.txt.gz" :=
                      Table (components_table samples n pic_m')]>
                    (<[component_path comp_count := Npy a]> fs1))
           end
       end.
Proof.
  intros Htop Hfs Hr.
  destruct (save_process_tables_head comp_count samples r fs)
    as (fs1 & Hsave & Hz & Hp).
  exists fs1. split; [done|]. split; [done|].
  unfold identify_pic. rewrite Htop.
  unfold optimise, corrections in *.
  destruct (pic_a st) as [prev|]; simpl in Hr |- *;
    unfold bind, read; rewrite Hfs; unfold try; rewrite Hr;
    unfold ret; rewrite Hsave;
    (destruct (ret_context_a r) as [a|]; [|reflexivity]);
    (destruct (set_row comp_count a (pic_m st)) as [pic_m'|]; reflexivity).
Qed.

Lemma identify_pic_on_disk (k : nat) (st st' : pics) (fs fs' : files)
  (c : control) :
  components_on_disk samples k st fs ->
  identify_pic cfg remove_covariates map_interactions uninitialised samples
    eqtl_m geno_m expr_m covs k st fs = Next (c, st') fs' ->
  match c with
  | Continue => components_on_disk samples (S k) st' fs'
  | Break => components_on_disk samples k st' fs'
  end.
Proof.
  intros (Hk & Hfiles & Htable) H. subst k.
  assert (Hstep : forall (a : list float) pic_m' summary stop' corr corr_inter
                         (fs1 : files),
             (forall i, (i < S (n_components_performed st))%nat ->
                        exists a, fs1 !! component_path i = Some (Npy a)) ->
             components_on_disk samples (S (n_components_performed st))
               (Pics pic_m' summary (S (n_components_performed st)) (Some a)
                  stop' corr corr_inter
                  (Some (components_table samples
                           (S (n_components_performed st)) pic_m')))
               (<["components.txt.gz" :=
                    Table (components_table samples
                             (S (n_components_performed st)) pic_m')]> fs1)).
  { intros a pic_m' summary stop' corr corr_inter fs1 Hf1.
    split; [done|]. split.
    - intros i Hi.
      rewrite lookup_insert_ne by apply components_is_not_a_component.
      by apply Hf1.
    - intros _. split; [done|]. apply lookup_insert_eq. }
  destruct (stop st && negb (force_continue cfg))%bool eqn:Htop.
  { unfold identify_pic in H. rewrite Htop in H. unfold ret in H.
    by simplify_eq. }
  destruct (fs !! component_path (n_components_performed st)) as [[a|df]|] eqn:Hfs.
  - unfold identify_pic in H. rewrite Htop in H.
    destruct (pic_a st) as [prev|];
      unfold bind, read in H; rewrite Hfs in H;
      unfold try, ret, raise, save, bind in H;
      repeat (case_match; simplify_eq);
      apply Hstep; intros i Hi;
      (destruct (decide (i = (n_components_performed st))) as [->|]; [eauto|apply Hfiles; lia]).
  - unfold identify_pic in H. rewrite Htop in H.
    destruct (pic_a st); unfold bind, read in H; rewrite Hfs in H;
      discriminate.
  - destruct (optimise cfg remove_covariates map_interactions uninitialised
                samples eqtl_m geno_m expr_m covs st) as [r|] eqn:Hr.
    + destruct (identify_pic_optimised (n_components_performed st) st fs r)
        as (fs2 & Hframe & Hcomp & Hbody); [done..|].
      rewrite Hbody in H. cbv zeta in H.
      assert (Hold : forall i, (i < n_components_performed st)%nat ->
                               exists a, fs2 !! component_path i = Some (Npy a)).
      { intros i Hi. rewrite Hframe by (by rewrite component_path_last).
        by apply Hfiles. }
      destruct (ret_context_a r) as [a|].
      * destruct (set_row (n_components_performed st) a (pic_m st))
          as [pic_m'|]; [|discriminate].
        simplify_eq. apply Hstep. intros i Hi.
        destruct (decide (i = n_components_performed st)) as [->|].
        -- rewrite lookup_insert_eq. eauto.
        -- rewrite lookup_insert_ne.
           ++ apply Hold. lia.
           ++ intros Heq. by apply component_path_inj in Heq.
      * simplify_eq. split; [done|]. split; [done|].
        simpl. intros Hpos. destruct (Htable Hpos) as [Hdf Hfile].
        split; [done|]. by rewrite Hcomp.
    + unfold identify_pic in H. rewrite Htop in H.
      unfold optimise, corrections in Hr.
      destruct (pic_a st); simpl in Hr; unfold bind, read in H;
        rewrite Hfs in H; unfold try in H; rewrite Hr in H; discriminate.
Qed.
Lemma identify_pics_on_disk (m : nat) :
  forall k st fs st' fs',
    components_on_disk samples k st fs ->
    identify_pics cfg remove_covariates map_interactions uninitialised
      samples eqtl_m geno_m expr_m covs (seq k m) st fs = Next st' fs' ->
    exists k', (k <= k' <= k + m)%nat /\ components_on_disk samples k' st' fs'.
Proof.
  induction m as [|m IH]; intros k st fs st' fs' Hinv H.
  - simpl in H. unfold ret in H. simplify_eq. exists k. split; [lia|done].
  - change (seq k (S m)) with (k :: seq (S k) m) in H.
    rewrite identify_pics_cons in H.
    destruct (identify_pic _ _ _ _ _ _ _ _ _ _ _ _) as [[[] st1] fs1|o] eqn:Hb;
      [| |discriminate].
    + apply (identify_pic_on_disk k st st1 fs fs1 Continue Hinv) in Hb.
      destruct (IH (S k) st1 fs1 st' fs' Hb H) as (k' & Hk' & Hinv').
      exists k'. split; [lia|done].
    + simplify_eq. exists k. split; [lia|].
      by apply (identify_pic_on_disk k st st' fs fs' Break Hinv).
Qed.

(** X13.  After the loop over [n] components, at most [n] components are
    counted, every counted component has its [component.npy], and
    [components.txt.gz] holds one row for each of them, with the labels
    [PIC1], [PIC2], ... in this order. *)
Theorem counted_components_are_on_disk
  (corr_m corr_inter_m : option (list (list float))) (n : nat) (st : pics)
  (fs fs' : files) :
  identify_pics cfg remove_covariates map_interactions uninitialised samples
    eqtl_m geno_m expr_m covs (seq 0 n)
    (Pics (InteractionOptimizer.np_empty uninitialised n (length samples))
       (replicate n [nan; nan]) 0 None false corr_m corr_inter_m None) fs
  = Next st fs' ->
  (n_components_performed st <= n)%nat
  /\ (forall i, (i < n_components_performed st)%nat ->
                exists a, fs' !! component_path i = Some (Npy a))
  /\ ((0 < n_components_performed st)%nat ->
      exists components,
        fs' !! "components.txt.gz" = Some (Table components)
        /\ index components = pic_name <$> seq 0 (n_components_performed st)
        /\ components_df st = Some components).
Proof.
  intros H.
  edestruct (identify_pics_on_disk n 0) as (k & Hk & Hn & Hf & Ht);
    [|exact H|].
  { split; [done|]. split; intros; lia. }
  subst k. split; [lia|]. split; [done|].
  intros Hpos. destruct (Ht Hpos) as [Hdf Hfile]. eexists.
  split; [done|]. split; [reflexivity|done].
Qed.
End Counted.

Lemma counted_components_are_on_disk_witness :
  exists st fs',
    identify_pics (three_iterations 2 false) no_correction restless 0
      six_samples two_pairs (values (geno_df two_eqtls))
      (values (expr_df two_eqtls)) one_covariate (seq 0 2)
      (no_component_yet 2) ∅ = Next st fs'
    /\ (n_components_performed st <= 2)%nat
    /\ (forall i, (i < n_components_performed st)%nat ->
                  exists a, fs' !! component_path i = Some (Npy a))
    /\ ((0 < n_components_performed st)%nat ->
        exists components,
          fs' !! "components.txt.gz" = Some (Table components)
          /\ index components
             = pic_name <$> seq 0 (n_components_performed st)
          /\ components_df st = Some components).
Proof.
  eexists _, _. split; [vm_compute; reflexivity|].
  apply (counted_components_are_on_disk (three_iterations 2 false)
           no_correction restless 0 six_samples two_pairs
           (values (geno_df two_eqtls)) (values (expr_df two_eqtls))
           one_covariate None None 2 _ ∅ _).
  vm_compute; reflexivity.
Defined.

(** ** calc_pearsonr_vector *)

Lemma float_mul_comm (x y : float) : (x * y)%float = (y * x)%float.
Proof.
  apply Prim2SF_inj. rewrite !mul_spec. unfold SF64mul, SFmul.
  destruct (Prim2SF x) as [sx|sx| |sx mx ex],
           (Prim2SF y) as [sy|sy| |sy my ey];
    try reflexivity; rewrite (xorb_comm sx sy); try reflexivity.
  by rewrite (Pos.mul_comm mx my), (Z.add_comm ex ey).
Qed.

Lemma zip_with_mul_comm (xs ys : list float) :
  zip_with PrimFloat.mul xs ys = zip_with PrimFloat.mul ys xs.
Proof.
  revert ys. induction xs as [|x xs IH]; intros [|y ys]; simpl; try done.
  by rewrite float_mul_comm, IH.
Qed.

(** X19.  The correlation that [calc_pearsonr_vector] computes does not
    depend on the order of its two vectors, rounding included. *)
Theorem calc_pearsonr_vector_symmetric (x y : list float) :
  calc_pearsonr_vector x y = calc_pearsonr_vector y x.
Proof.
  unfold calc_pearsonr_vector. cbv zeta.
  rewrite (zip_with_mul_comm (map _ x) (map _ y)).
  by rewrite (float_mul_comm (sum (zip_with PrimFloat.mul (map _ x) (map _ x)))).
Qed.

(** ** Driver: the files of a run that reaches its end *)

Lemma validate_data_next std eqtls geno expr covs tcovs (fs fs' : files)
  (u : unit) :
  validate_data std eqtls geno expr covs tcovs fs = Next u fs' -> fs' = fs.
Proof.
  unfold validate_data, exit, ret. intros H.
  repeat (case_match; simplify_eq); done.
Qed.

Section Files.
Variable cfg : settings.
Variable calc_hwe_pvalue : Z -> Z -> Z -> float.
Variable pandas_std : list float -> float.
Variable remove_covariates :
  list (list float) -> option (list (list float)) ->
  option (list (list float)) -> list (list float) -> list (list float).
Variable map_interactions :
  list (string * string) -> list (list float) -> list (list float) ->
  list float -> option string -> float -> mapping.
Variable uninitialised : float.

Lemma load_tech_cov_next (df : option DataFrame) (std : list (string * string))
  (fs fs' : files) (m : option (list (list float))) :
  load_tech_cov pandas_std df std fs = Next m fs' -> fs' = fs.
Proof.
  unfold load_tech_cov. destruct df as [df|]; [|unfold ret; congruence].
  destruct (has_nan df); [discriminate|].
  intros H. apply bind_next in H as ([] & fs1 & Hv & H).
  apply validate_data_next in Hv as ->. unfold ret in H. congruence.
Qed.

Lemma quality_control_files {A} (eqtls : list A) (geno : DataFrame)
  (dataset_df : list (string * list bool)) (fs fs' : files)
  (r : list A * DataFrame * list bool) :
  quality_control cfg calc_hwe_pvalue eqtls geno dataset_df fs = Next r fs' ->
  is_Some (fs' !! "call_rate.txt.gz")
  /\ is_Some (fs' !! "genotype_stats.txt.gz").
Proof.
  unfold quality_control.
  destruct (calculate_call_rate cfg (values geno) dataset_df)
    as [geno_m call_rate_m].
  unfold bind, save, ret, raise.
  destruct (forallb _ geno_m); [discriminate|].
  destruct (bool_decide (length eqtls = length geno_m)); [|discriminate].
  cbn [negb]. intros H. simplify_eq. split.
  - rewrite lookup_insert_ne by done. rewrite lookup_insert_eq. by eexists.
  - rewrite lookup_insert_eq. by eexists.
Qed.

Section Loop.
Variable samples : list string.
Variable eqtl_m : list (string * string).
Variable geno_m expr_m : list (list float).
Variable covs : list (string * list float).

Lemma identify_pic_frame (k : nat) (st st' : pics) (fs fs' : files)
  (c : control) (q : string) :
  identify_pic cfg remove_covariates map_interactions uninitialised samples
    eqtl_m geno_m expr_m covs k st fs = Next (c, st') fs' ->
  String.get 0 q <> Some "P"%char -> q <> "components.txt.gz" ->
  fs' !! q = fs !! q.
Proof.
  intros H Hq Hc.
  destruct (stop st && negb (force_continue cfg))%bool eqn:Htop.
  { unfold identify_pic in H. rewrite Htop in H. unfold ret in H.
    by simplify_eq. }
  destruct (fs !! component_path k) as [[a|df]|] eqn:Hfs.
  - unfold identify_pic in H. rewrite Htop in H.
    destruct (pic_a st) as [prev|];
      unfold bind, read in H; rewrite Hfs in H;
      unfold try, ret, raise, save, bind in H;
      repeat (case_match; simplify_eq); by rewrite lookup_insert_ne.
  - unfold identify_pic in H. rewrite Htop in H.
    destruct (pic_a st); unfold bind, read in H; rewrite Hfs in H;
      discriminate.
  - destruct (optimise cfg remove_covariates map_interactions uninitialised
                samples eqtl_m geno_m expr_m covs st) as [r|] eqn:Hr.
    + destruct (identify_pic_optimised cfg remove_covariates map_interactions
                  uninitialised samples eqtl_m geno_m expr_m covs k st fs r)
        as (fs2 & _ & Hhead & Hbody); [done..|].
      rewrite Hbody in H. cbv zeta in H.
      destruct (ret_context_a r) as [a|].
      * destruct (set_row k a (pic_m st)) as [pic_m'|]; [|discriminate].
        simplify_eq. rewrite !lookup_insert_ne; [by apply Hhead|..]; try done.
        intros <-. apply Hq. apply pic_name_head.
      * simplify_eq. by apply Hhead.
    + unfold identify_pic in H. rewrite Htop in H.
      unfold optimise, corrections in Hr.
      destruct (pic_a st); simpl in Hr; unfold bind, read in H;
        rewrite Hfs in H; unfold try in H; rewrite Hr in H; discriminate.
Qed.

Lemma identify_pics_frame (comp_counts : list nat) :
  forall (st st' : pics) (fs fs' : files) (q : string),
    identify_pics cfg remove_covariates map_interactions uninitialised samples
      eqtl_m geno_m expr_m covs comp_counts st fs = Next st' fs' ->
    String.get 0 q <> Some "P"%char -> q <> "components.txt.gz" ->
    fs' !! q = fs !! q.
Proof.
  induction comp_counts as [|k rest IH]; intros st st' fs fs' q H Hq Hc.
  - simpl in H. unfold ret in H. by simplify_eq.
  - rewrite identify_pics_cons in H.
    destruct (identify_pic _ _ _ _ _ _ _ _ _ _ _ _) as [[[] st1] fs1|o] eqn:Hb;
      [| |discriminate].
    + rewrite (IH st1 st' fs1 fs' q H Hq Hc).
      by apply (identify_pic_frame k st st1 fs fs1 Continue).
    + simplify_eq. by apply (identify_pic_frame k st st' fs fs' Break).
Qed.
End Loop.

(** X20.  A run of [Main.start] that reaches its end has identified a
    component and leaves [call_rate.txt.gz], [genotype_stats.txt.gz],
    [PIC1/component.npy], [components.txt.gz], [PICs.txt.gz] and
    [SummaryStats.txt.gz] in the output directory. *)
Theorem finished_run_has_its_tables (data : Data) (fs fs' : files) :
  start cfg calc_hwe_pvalue pandas_std remove_covariates map_interactions
    uninitialised data fs = Next tt fs' ->
  is_Some (fs' !! "call_rate.txt.gz")
  /\ is_Some (fs' !! "genotype_stats.txt.gz")
  /\ (exists a, fs' !! "PIC1/component.npy" = Some (Npy a))
  /\ is_Some (fs' !! "components.txt.gz")
  /\ is_Some (fs' !! "PICs.txt.gz")
  /\ is_Some (fs' !! "SummaryStats.txt.gz").
Proof.
  intros Hstart. unfold start in Hstart.
  apply bind_next in Hstart as (std & fs0 & _ & H).
  destruct (decide (dataset_sample_counts std = []));
    [unfold raise in H; discriminate|].
  apply bind_next in H as ([[eqtls geno] mask] & fs1 & Hqc & H).
  apply quality_control_files in Hqc as [Hcr Hgs].
  apply bind_next in H as (last & fs2 & Hlast & H).
  assert (fs2 = fs1) as ->
    by (unfold try, ret, raise in Hlast;
        destruct (max_label _); by simplify_eq).
  repeat (match type of H with
          | (if ?b then _ else _) _ = _ =>
              destruct b; [unfold exit in H; discriminate|]
          end).
  apply bind_next in H as ([] & fs3 & Hv & H).
  apply validate_data_next in Hv as ->.
  apply bind_next in H as (tcov_m & fs4 & Ht & H).
  apply load_tech_cov_next in Ht as ->.
  apply bind_next in H as (tcov_inter_m & fs5 & Hti & H).
  apply load_tech_cov_next in Hti as ->.
  destruct (construct_correct_matrices _ _ _ _) as [corr_m corr_inter_m].
  destruct (n_components cfg <? 0); [unfold raise in H; discriminate|].
  apply bind_next in H as (st & fs6 & Hloop & Hfin).
  assert (Hframe : forall q : string,
             String.get 0 q <> Some "P"%char -> q <> "components.txt.gz" ->
             fs6 !! q = fs1 !! q).
  { intros q Hq Hc.
    exact (identify_pics_frame _ _ _ _ _ _ _ _ _ _ q Hloop Hq Hc). }
  edestruct (identify_pics_on_disk cfg remove_covariates map_interactions
               uninitialised) as (k & Hk & Hn & Hfiles & Htable);
    [|exact Hloop|].
  { split; [done|]. split; intros; lia. }
  destruct (n_components_performed st) as [|j] eqn:Hj.
  { rewrite finish_no_pics in Hfin by done. discriminate. }
  subst k. destruct (Htable ltac:(lia)) as [Hdf Hcomp].
  assert (Hperformed : n_components_performed st <> 0%nat) by lia.
  match type of Hfin with
  | finish _ _ _ ?eqtl_m ?geno_m ?expr_m _ _ _ _ = _ =>
      destruct (finish_next cfg remove_covariates map_interactions
                  eqtl_m geno_m expr_m corr_m corr_inter_m st fs6 _
                  Hperformed Hdf)
        as (fs7 & Hfin' & Hpics & Hsum & Hend)
  end.
  rewrite Hfin' in Hfin. simplify_eq.
  assert (Hnot : forall path : string,
             String.get 0 path <> Some "P"%char ->
             forall pic, path <> "PIC_interactions/" +:+ pic +:+ ".txt.gz").
  { intros path Hp pic ->. by apply Hp. }
  repeat split.
  - rewrite Hend; [|done|done|by apply Hnot]. by rewrite Hframe.
  - rewrite Hend; [|done|done|by apply Hnot]. by rewrite Hframe.
  - destruct (Hfiles 0%nat ltac:(lia)) as [a Ha]. exists a.
    assert (component_path 0 = "PIC1/component.npy") as Hpath
      by (vm_compute; reflexivity).
    rewrite Hpath in Ha.
    rewrite Hend; [exact Ha|done|done|].
    intros pic Heq. apply (f_equal (fun s => String.get 3 s)) in Heq.
    vm_compute in Heq. discriminate.
  - rewrite Hend; [|done|done|by apply Hnot]. rewrite Hcomp. by eexists.
  - rewrite Hpics. by eexists.
  - done.
Qed.
End Files.

Lemma finished_run_has_its_tables_witness :
  is_Some (files_of (run (three_iterations 2 false) hwe_one std_one
                       no_correction restless 0 two_eqtls ∅)
           !! "PICs.txt.gz")
  /\ is_Some (files_of (run (three_iterations 2 false) hwe_one std_one
                          no_correction restless 0 two_eqtls ∅)
              !! "SummaryStats.txt.gz").
Proof.
  unfold run.
  destruct (start (three_iterations 2 false) hwe_one std_one no_correction
              restless 0 two_eqtls ∅) as [[] fs'|o] eqn:Hstart;
    [|vm_compute in Hstart; discriminate].
  destruct (finished_run_has_its_tables (three_iterations 2 false) hwe_one
              std_one no_correction restless 0 two_eqtls ∅ fs' Hstart)
    as (_ & _ & _ & _ & Hp & Hs).
  by split.
Defined.
